(** * Group migration (workspace_access/groups.py): matching strategies and
      the rename / reflect / delete phases of [GroupManager].

    The development follows the Python source function by function.  Python
    values that may be [None] are [option]s, insertion-ordered [dict]s are
    association lists with Python's update discipline, exceptions are an
    explicit result type, log records and generator output are accumulated
    in order, and the remote directory client is an interface that threads an
    explicit state. *)

From Stdlib Require Import String Ascii List Bool Arith Lia DecimalString.
From Stdlib Require Import Permutation Sorted ZArith.
Import ListNotations.
Open Scope string_scope.
Open Scope list_scope.

Set Implicit Arguments.

(** String concatenation, as in an f-string. *)
Infix "+:+" := String.append (at level 60, right associativity).

(* ===================================================================== *)
(** ** Python runtime: exceptions, results, logging, dictionaries         *)
(* ===================================================================== *)

Module Py.

(** The exception classes that occur in groups.py.  The five remote error
    classes are the ones imported from [databricks.sdk.errors.mapping];
    [RemoteError] stands for any other error of the remote client.
    [KeyErrorNone] is [KeyError(None)], the failed lookup of the key [None].
    [IndexError] is what the re library raises for a replacement that refers
    to a group the pattern does not have, and [TimeoutError] what [retried]
    raises, chained from the last error ([raise ... from last_err]), when
    its timeout has elapsed.  [Throttled e n] is an error [e] of the remote
    client on which the client has set the attribute [retry_after_secs] to
    [n], as it does for an answer that asks to come back later; the other
    errors do not have the attribute. *)
Inductive exn : Type :=
| re_error
| KeyError (key : string)
| TypeError
| NotFound
| BadRequest
| InternalError
| ResourceConflict
| DeadlineExceeded
| RemoteError (message : string)
| KeyErrorNone
| IndexError (message : string)
| TimeoutError (message : string) (cause : exn)
| Throttled (e : exn) (retry_after_secs : nat).

(** The class of an error, which [except C] and [isinstance(err, C)] look
    at: the attribute does not change it. *)
Fixpoint class_of (e : exn) : exn :=
  match e with
  | Throttled e' _ => class_of e'
  | _ => e
  end.

(** [getattr(err, 'retry_after_secs', None)] *)
Definition retry_after_secs (e : exn) : option nat :=
  match e with
  | Throttled _ n => Some n
  | _ => None
  end.

(** Outcome of evaluating a Python expression. *)
Inductive res (A : Type) : Type :=
| Val (a : A)
| Raise (e : exn).

Arguments Val {A} a.
Arguments Raise {A} e.


(** [logger.info], [logger.warning], [logger.error]. *)
Inductive level : Type := INFO | WARNING | ERROR.

Definition log_entry : Type := (level * string)%type.

(** [str(x)] inside an f-string, for a value that may be [None]. *)
Definition py_str (x : option string) : string :=
  match x with Some s => s | None => "None" end.

(** Truthiness of an optional list: [None] and [[]] are falsy. *)
Definition truthy_list {A} (x : option (list A)) : bool :=
  match x with
  | None => false
  | Some [] => false
  | Some (_ :: _) => true
  end.

(** [x in names] for a Python list of strings. *)
Definition list_contains (x : string) (names : list string) : bool :=
  existsb (String.eqb x) names.

(** Keys of a dictionary: a type with a boolean equality ([__eq__]). *)
Class PyKey (K : Type) : Type := {
  key_eqb : K -> K -> bool;
  key_eqb_eq : forall a b, key_eqb a b = true <-> a = b
}.

Definition opt_eqb {K} (eqb : K -> K -> bool) (a b : option K) : bool :=
  match a, b with
  | None, None => true
  | Some x, Some y => eqb x y
  | _, _ => false
  end.

Lemma opt_eqb_eq {K} (eqb : K -> K -> bool)
  (Heq : forall a b, eqb a b = true <-> a = b) :
  forall a b, opt_eqb eqb a b = true <-> a = b.
Proof.
  intros [x|] [y|]; simpl; split; intros H; try congruence; try discriminate.
  - apply Heq in H. now subst.
  - inversion H; subst. now apply Heq.
Qed.

#[export] Instance string_key : PyKey string :=
  {| key_eqb := String.eqb; key_eqb_eq := String.eqb_eq |}.

#[export] Instance option_key {K} `{PyKey K} : PyKey (option K) :=
  {| key_eqb := opt_eqb key_eqb; key_eqb_eq := opt_eqb_eq key_eqb key_eqb_eq |}.

Section Dict.
Context {K V : Type} `{PyKey K}.

(** A [dict]: the items in insertion order. *)
Definition dict : Type := list (K * V).

(** [d.get(k)] *)
Fixpoint dict_get (k : K) (d : dict) : option V :=
  match d with
  | [] => None
  | (k', v) :: rest => if key_eqb k k' then Some v else dict_get k rest
  end.

(** [k in d] *)
Definition dict_mem (k : K) (d : dict) : bool :=
  match dict_get k d with Some _ => true | None => false end.

(** [d[k]], raising [KeyError] through the caller-supplied rendering of the
    key. *)
Definition dict_subscript (show : K -> string) (k : K) (d : dict) : res V :=
  match dict_get k d with
  | Some v => Val v
  | None => Raise (KeyError (show k))
  end.

(** [d[k] = v]: an existing key keeps its position, a new key goes last. *)
Fixpoint dict_set (k : K) (v : V) (d : dict) : dict :=
  match d with
  | [] => [(k, v)]
  | (k', v') :: rest =>
      if key_eqb k k' then (k', v) :: rest else (k', v') :: dict_set k v rest
  end.

Definition dict_keys (d : dict) : list K := map fst d.
Definition dict_values (d : dict) : list V := map snd d.

(** [{k: v for k, v in items}] *)
Definition dict_of_items (items : list (K * V)) : dict :=
  fold_left (fun acc kv => dict_set (fst kv) (snd kv) acc) items [].

End Dict.

Arguments dict K V : clear implicits.

(** [d.get(k)] when the key itself may be [None] and the dictionary is keyed
    by strings: [None] is never a key. *)
Definition dict_get_opt {V} (k : option string) (d : dict string V) : option V :=
  match k with
  | None => None
  | Some s => dict_get s d
  end.

Definition dict_mem_opt {V} (k : option string) (d : dict string V) : bool :=
  match dict_get_opt k d with Some _ => true | None => false end.

End Py.

Import Py.

(* ===================================================================== *)
(** ** Data model                                                         *)
(* ===================================================================== *)

(** [iam.ComplexValue]: an opaque member / role / entitlement entry. *)
Record ComplexValue : Type := {
  cv_display : option string;
  cv_ref : option string;
  cv_type : option string;
  cv_value : option string
}.

(** [iam.ResourceMeta] *)
Record ResourceMeta : Type := {
  resource_type : option string
}.

(** [iam.Group].  The directory assigns every group an [id]; every other
    attribute is optional. *)
Record Group : Type := {
  id : string;
  display_name : option string;
  external_id : option string;
  meta : option ResourceMeta;
  members : option (list ComplexValue);
  roles : option (list ComplexValue);
  entitlements : option (list ComplexValue)
}.

(** [MigratedGroup].  The two name fields receive [display_name] attributes
    of groups and so may hold [None] at run time. *)
Record MigratedGroup : Type := {
  id_in_workspace : string;
  name_in_workspace : option string;
  name_in_account : option string;
  temporary_name : string;
  mg_members : option string;
  mg_entitlements : option string;
  mg_external_id : option string;
  mg_roles : option string
}.

(** What a generator function has done when its consumer has exhausted it:
    the items yielded, the records logged, and the exception that ended
    it, if any. *)
Record generated : Type := {
  yielded : list MigratedGroup;
  logged : list log_entry;
  raised : option exn
}.

Definition gen_return : generated :=
  {| yielded := []; logged := []; raised := None |}.

Definition gen_raise (e : exn) : generated :=
  {| yielded := []; logged := []; raised := Some e |}.

Definition gen_yield (mg : MigratedGroup) (k : generated) : generated :=
  {| yielded := mg :: yielded k; logged := logged k; raised := raised k |}.

Definition gen_log (l : log_entry) (k : generated) : generated :=
  {| yielded := yielded k; logged := l :: logged k; raised := raised k |}.

Definition gen_logs (ls : list log_entry) (k : generated) : generated :=
  {| yielded := yielded k; logged := ls ++ logged k; raised := raised k |}.

(** [re.Match]: the whole matched text ([match.group()]) and the capture
    groups ([match.groups()]); a group that took no part in the match is
    [None]. *)
Record Match : Type := {
  whole : string;
  capture_groups : list (option string)
}.

(* ===================================================================== *)
(** ** GroupMigrationStrategy: filtering and the safe regex helpers       *)
(* ===================================================================== *)

Module GroupMigrationStrategy.

(** [get_filtered_groups].  The comprehension
    [{n: ws[n] for n in ws.keys() if n in include}] visits the items of
    [ws] in order. *)
Definition get_filtered_groups
  (workspace_groups_in_workspace : dict string Group)
  (include_group_names : option (list string))
  : list log_entry * dict string Group :=
  if negb (truthy_list include_group_names) then
    ([(INFO, "No group listing provided, all matching groups will be migrated")],
     workspace_groups_in_workspace)
  else
    ([(INFO, "Group listing provided, a subset of all groups will be migrated")],
     dict_of_items
       (filter (fun kv => list_contains (fst kv)
                            (match include_group_names with
                             | Some names => names
                             | None => []
                             end))
               workspace_groups_in_workspace)).

(** [json.dumps([gg.as_dict() for gg in xs]) if xs else None] *)
Definition dump_blob (json_dumps : list ComplexValue -> string)
  (xs : option (list ComplexValue)) : option string :=
  match xs with
  | Some (x :: rest) => Some (json_dumps (x :: rest))
  | _ => None
  end.

Section Regex.

(** [re.search(pattern, string)] and [re.sub(pattern, repl, string)] of the
    Python standard library. *)
Variable re_search : string -> string -> res (option Match).
Variable re_sub : string -> string -> string -> res string.

(** [_safe_match]: [try ... except re.error]. *)
Definition _safe_match (group_name match_re : string) : res (option string) :=
  match re_search match_re group_name with
  | Raise re_error => Val (Some group_name)
  | Raise e => Raise e
  | Val None => Val (Some group_name)
  | Val (Some m) =>
      match capture_groups m with
      | first :: _ => Val first
      | [] => Val (Some (whole m))
      end
  end.

(** [_safe_sub]: [try ... except re.error], with the warning it logs. *)
Definition _safe_sub (group_name match_re replace : string)
  : list log_entry * res string :=
  match re_sub match_re replace group_name with
  | Raise re_error =>
      ([(WARNING, "Failed to apply Regex Expression " +:+ match_re
                  +:+ " on Group Name " +:+ group_name)],
       Val group_name)
  | Raise e => ([], Raise e)
  | Val s => ([], Val s)
  end.

(** [_safe_sub(None, match_re, replace)], for a group without display name.
    [re.sub] compiles the pattern and the replacement before it looks at
    the subject: what it raises for them it raises for every subject, and
    where it would return for a string it rejects [None] with
    [TypeError].  After [re.error] the helper logs and returns the [None]
    it was given, here [tt]. *)
Definition _safe_sub_none (match_re replace : string)
  : list log_entry * res unit :=
  match re_sub match_re replace "" with
  | Raise re_error =>
      ([(WARNING, "Failed to apply Regex Expression " +:+ match_re
                  +:+ " on Group Name " +:+ py_str None)],
       Val tt)
  | Raise e => ([], Raise e)
  | Val _ => ([], Raise TypeError)
  end.

End Regex.

End GroupMigrationStrategy.

(* ===================================================================== *)
(** ** The four matching strategies                                       *)
(* ===================================================================== *)

Module MatchingNamesStrategy.
Import GroupMigrationStrategy.

Section Generate.
Variable json_dumps : list ComplexValue -> string.
Variable account_groups_in_account : dict string Group.
Variable renamed_groups_prefix : string.

(** The body of [for g in workspace_groups.values()]. *)
Fixpoint loop (gs : list Group) : generated :=
  match gs with
  | [] => gen_return
  | g :: rest =>
      let temporary_name := renamed_groups_prefix +:+ py_str (display_name g) in
      match dict_get_opt (display_name g) account_groups_in_account with
      | None =>
          gen_log (INFO, "Couldn't find a matching account group for "
                         +:+ py_str (display_name g) +:+ " group")
                  (loop rest)
      | Some account_group =>
          gen_yield
            {| id_in_workspace := id g;
               name_in_workspace := display_name g;
               name_in_account := display_name g;
               temporary_name := temporary_name;
               mg_external_id := external_id account_group;
               mg_members := dump_blob json_dumps (members g);
               mg_roles := dump_blob json_dumps (roles g);
               mg_entitlements := dump_blob json_dumps (entitlements g) |}
            (loop rest)
      end
  end.

Definition generate_migrated_groups
  (workspace_groups_in_workspace : dict string Group)
  (include_group_names : option (list string)) : generated :=
  let (logs, workspace_groups) :=
    get_filtered_groups workspace_groups_in_workspace include_group_names in
  gen_logs logs (loop (dict_values workspace_groups)).

End Generate.
End MatchingNamesStrategy.

Module MatchByExternalIdStrategy.
Import GroupMigrationStrategy.

Section Generate.
Variable json_dumps : list ComplexValue -> string.
Variable renamed_groups_prefix : string.

(** [{group.external_id: group for group in account.values()}]; the key is
    [None] for an account group without external id. *)
Definition index_by_external_id (account_groups_in_account : dict string Group)
  : dict (option string) Group :=
  dict_of_items
    (map (fun group => (external_id group, group))
         (dict_values account_groups_in_account)).

Fixpoint loop (account_groups_by_id : dict (option string) Group)
  (gs : list Group) : generated :=
  match gs with
  | [] => gen_return
  | g :: rest =>
      let temporary_name := renamed_groups_prefix +:+ py_str (display_name g) in
      match dict_get (external_id g) account_groups_by_id with
      | Some account_group =>
          gen_yield
            {| id_in_workspace := id g;
               name_in_workspace := display_name g;
               name_in_account := display_name account_group;
               temporary_name := temporary_name;
               mg_external_id := external_id account_group;
               mg_members := dump_blob json_dumps (members g);
               mg_roles := dump_blob json_dumps (roles g);
               mg_entitlements := dump_blob json_dumps (entitlements g) |}
            (loop account_groups_by_id rest)
      | None =>
          gen_log (INFO, "Couldn't find a matching account group for "
                         +:+ py_str (display_name g) +:+ " group with external_id")
                  (loop account_groups_by_id rest)
      end
  end.

Definition generate_migrated_groups
  (workspace_groups_in_workspace account_groups_in_account : dict string Group)
  (include_group_names : option (list string)) : generated :=
  let (logs, workspace_groups) :=
    get_filtered_groups workspace_groups_in_workspace include_group_names in
  gen_logs logs
    (loop (index_by_external_id account_groups_in_account)
          (dict_values workspace_groups)).

End Generate.
End MatchByExternalIdStrategy.

Module RegexSubStrategy.
Import GroupMigrationStrategy.

Section Generate.
Variable re_sub : string -> string -> string -> res string.
Variable json_dumps : list ComplexValue -> string.
Variable account_groups_in_account : dict string Group.
Variable renamed_groups_prefix : string.
Variable workspace_group_regex : string.
Variable workspace_group_replace : string.

(** The body of [for g in workspace_groups.values()].  The keyword
    arguments of [MigratedGroup(...)] are evaluated in order, so the
    subscript [account_groups_in_account[name_in_account]] raises before
    anything is yielded for [g].  For a group without display name the
    helper raises, or returns [None] after its warning, and the subscript
    raises [KeyError(None)]: the account groups are keyed by strings. *)
Fixpoint loop (gs : list Group) : generated :=
  match gs with
  | [] => gen_return
  | g :: rest =>
      let temporary_name := renamed_groups_prefix +:+ py_str (display_name g) in
      match display_name g with
      | None =>
          let (logs, substituted) :=
            _safe_sub_none re_sub workspace_group_regex workspace_group_replace in
          gen_logs logs
            match substituted with
            | Raise e => gen_raise e
            | Val _ => gen_raise KeyErrorNone
            end
      | Some name =>
          let (logs, substituted) :=
            _safe_sub re_sub name workspace_group_regex workspace_group_replace in
          gen_logs logs
            match substituted with
            | Raise e => gen_raise e
            | Val name_in_account =>
                match dict_subscript (fun k => k) name_in_account
                        account_groups_in_account with
                | Raise e => gen_raise e
                | Val account_group =>
                    gen_yield
                      {| id_in_workspace := id g;
                         name_in_workspace := display_name g;
                         name_in_account := Some name_in_account;
                         temporary_name := temporary_name;
                         mg_external_id := external_id account_group;
                         mg_members := dump_blob json_dumps (members g);
                         mg_roles := dump_blob json_dumps (roles g);
                         mg_entitlements := dump_blob json_dumps (entitlements g) |}
                      (loop rest)
                end
            end
      end
  end.

Definition generate_migrated_groups
  (workspace_groups_in_workspace : dict string Group)
  (include_group_names : option (list string)) : generated :=
  let (logs, workspace_groups) :=
    get_filtered_groups workspace_groups_in_workspace include_group_names in
  gen_logs logs (loop (dict_values workspace_groups)).

End Generate.
End RegexSubStrategy.

Module RegexMatchStrategy.
Import GroupMigrationStrategy.

Section Generate.
Variable re_search : string -> string -> res (option Match).
Variable json_dumps : list ComplexValue -> string.
Variable renamed_groups_prefix : string.

(** [{_safe_match(name, regex): group for name, group in d.items()}]; the
    keys are what [_safe_match] returns, duplicates resolve last-wins. *)
Fixpoint index_by_match (match_re : string) (items : list (string * Group))
  (acc : dict (option string) Group) : res (dict (option string) Group) :=
  match items with
  | [] => Val acc
  | (group_name, group) :: rest =>
      match _safe_match re_search group_name match_re with
      | Raise e => Raise e
      | Val key => index_by_match match_re rest (dict_set key group acc)
      end
  end.

(** The body of [for group_match, ws_group in workspace_groups_by_match.items()]. *)
Fixpoint loop (account_groups_by_match : dict (option string) Group)
  (items : list (option string * Group)) : generated :=
  match items with
  | [] => gen_return
  | (group_match, ws_group) :: rest =>
      let temporary_name :=
        renamed_groups_prefix +:+ py_str (display_name ws_group) in
      match dict_get group_match account_groups_by_match with
      | Some account_group =>
          gen_yield
            {| id_in_workspace := id ws_group;
               name_in_workspace := display_name ws_group;
               name_in_account := display_name account_group;
               temporary_name := temporary_name;
               mg_external_id := external_id account_group;
               mg_members := dump_blob json_dumps (members ws_group);
               mg_roles := dump_blob json_dumps (roles ws_group);
               mg_entitlements := dump_blob json_dumps (entitlements ws_group) |}
            (loop account_groups_by_match rest)
      | None =>
          gen_log (INFO, "Couldn't find a match for group "
                         +:+ py_str (display_name ws_group))
                  (loop account_groups_by_match rest)
      end
  end.

Definition generate_migrated_groups
  (workspace_groups_in_workspace account_groups_in_account : dict string Group)
  (include_group_names : option (list string))
  (workspace_group_regex account_group_regex : string) : generated :=
  let (logs, workspace_groups) :=
    get_filtered_groups workspace_groups_in_workspace include_group_names in
  gen_logs logs
    match index_by_match workspace_group_regex workspace_groups [] with
    | Raise e => gen_raise e
    | Val workspace_groups_by_match =>
        match index_by_match account_group_regex account_groups_in_account [] with
        | Raise e => gen_raise e
        | Val account_groups_by_match =>
            loop account_groups_by_match workspace_groups_by_match
        end
    end.

End Generate.
End RegexMatchStrategy.

(* ===================================================================== *)
(** ** MigrationState                                                     *)
(* ===================================================================== *)

Module MigrationState.

Record t : Type := {
  _name_to_group : dict (option string) MigratedGroup;
  _id_to_group : dict string MigratedGroup;
  groups : list MigratedGroup
}.

(** [__init__] *)
Definition init (gs : list MigratedGroup) : t :=
  {| _name_to_group := dict_of_items (map (fun g => (name_in_workspace g, g)) gs);
     _id_to_group := dict_of_items (map (fun g => (id_in_workspace g, g)) gs);
     groups := gs |}.

Definition get_target_principal (st : t) (name : option string) : option string :=
  match dict_get name (_name_to_group st) with
  | None => None
  | Some mg => name_in_account mg
  end.

Definition is_in_scope (st : t) (name : option string) : bool :=
  match name with
  | None => false
  | Some _ => dict_mem name (_name_to_group st)
  end.

Definition len (st : t) : nat := List.length (_name_to_group st).

End MigrationState.

(* ===================================================================== *)
(** ** The remote directory client and the call policies                  *)
(* ===================================================================== *)

(** The part of [WorkspaceClient] that groups.py uses, over an explicit
    directory state [W].  Listing and get are observations of the current
    state ([None] is the [NotFound] answer of get); the three mutating
    calls may raise and may change the state. *)
Record WorkspaceClient (W : Type) : Type := {
  (** [ws.groups.list(attributes=...)] *)
  groups_list : list string -> W -> list Group;
  (** [ws.groups.get(id)] *)
  groups_get : string -> W -> option Group;
  (** [ws.groups.patch(id, operations=[Patch(REPLACE, displayName, name)])] *)
  groups_patch : string -> string -> W -> res unit * W;
  (** [ws.groups.delete(id=...)] *)
  groups_delete : string -> W -> res unit * W;
  (** [api_client.do(GET, /api/2.0/account/scim/v2/Groups)], the
      [Resources] read as groups *)
  account_scim_groups : list string -> W -> list Group;
  (** [api_client.do(PUT, /api/2.0/preview/permissionassignments/principals/id)]
      with permission [USER] *)
  permission_assign : string -> W -> res unit * W
}.

(** The [True] and [None] that the per-group jobs return. *)
Inductive pyval : Type := PyTrue | PyNone.

(** A remote operation of a job: what it logs, its outcome, the new state. *)
Definition op (W A : Type) : Type := W -> list log_entry * res A * W.

(** Whether [retried] tries again after the error [e]: an error that
    carries [retry_after_secs] is tried again whatever its class, any other
    one when its class is listed in [on]. *)
Definition retryable (on : exn -> bool) (e : exn) : bool :=
  match retry_after_secs e with
  | Some _ => true
  | None => on e
  end.

(** [databricks.sdk.retries.retried(on=[...], timeout=...)].  While the
    deadline has not passed it calls the function: a result is returned,
    an error that is not retryable is raised as it is, and after a
    retryable one it pauses and goes round again.  Once the deadline has
    passed it raises [TimeoutError(f'Timed out after {timeout}')] from the
    last error.  [timeout] is [str(timeout)] and [budget] the number of
    further calls that start before the deadline; the first call always
    does.  The debug records of the SDK's own logger are not kept. *)
Fixpoint retried {W A} (on : exn -> bool) (timeout : string) (budget : nat)
  (f : op W A) : op W A :=
  fun w =>
    let '(logs, r, w') := f w in
    match r with
    | Val _ => (logs, r, w')
    | Raise e =>
        if retryable on e then
          match budget with
          | S budget' =>
              let '(logs', r', w'') := retried on timeout budget' f w' in
              (logs ++ logs', r', w'')
          | 0 => (logs, Raise (TimeoutError ("Timed out after " +:+ timeout) e), w')
          end
        else (logs, r, w')
    end.

(** [str(timedelta(minutes=20))], the default timeout of [retried]. *)
Definition default_timeout : string := "0:20:00".

(** Modelled from the spec: [rate_limited] of mixins/hardening.py, which is
    not part of the sources at hand.  It caps the calls per rolling time
    window by delaying them; the call and its outcome are unchanged. *)
Definition rate_limited {W A} (max_requests burst_period_seconds : nat)
  (f : op W A) : op W A := f.

(** [on=[InternalError, ResourceConflict, DeadlineExceeded]] *)
Definition on_transient (e : exn) : bool :=
  match class_of e with
  | InternalError | ResourceConflict | DeadlineExceeded => true
  | _ => false
  end.

(** A bound call handed to the task executor:
    [functools.partial(self._rename_group, id, name)] and its siblings. *)
Inductive job : Type :=
| RenameGroup (group_id new_group_name : string)
| ReflectAccountGroup (account_group_id : string)
| DeleteWorkspaceGroup (group_id display_name : string).

(** The group id a job was created for (its first bound argument). *)
Definition job_group_id (j : job) : string :=
  match j with
  | RenameGroup group_id _ => group_id
  | ReflectAccountGroup account_group_id => account_group_id
  | DeleteWorkspaceGroup group_id _ => group_id
  end.

(** One failure of a batch: the originating group id and the cause. *)
Definition failure : Type := (string * exn)%type.

Module Threads.

Section Gather.
Variables W A : Type.
Variable run : job -> op W A.

(** Modelled from the spec: [Threads.gather] of framework/parallel.py, which
    is not part of the sources at hand.  Every job of the batch is run, none
    is cancelled when a sibling fails, and the batch returns
    (successes, failures), each failure with its originating group id and
    cause.  The pool is modelled by running the jobs one after the other. *)
Fixpoint gather (tasks : list job) (w : W)
  : list log_entry * (list A * list failure) * W :=
  match tasks with
  | [] => ([], ([], []), w)
  | j :: rest =>
      let '(logs, r, w') := run j w in
      let '(logs', (successes, errors), w'') := gather rest w' in
      match r with
      | Val a => (logs ++ logs', (a :: successes, errors), w'')
      | Raise e => (logs ++ logs', (successes, (job_group_id j, e) :: errors), w'')
      end
  end.


End Gather.
End Threads.

(** How a phase ends: it returns, or raises [ManyError(errors)], or raises
    some other exception before its batch is submitted. *)
Inductive phase_result : Type :=
| Returned
| RaisedManyError (errors : list failure)
| RaisedError (e : exn).

(** Decimal rendering of [len(...)] inside an f-string. *)
Definition py_str_nat (n : nat) : string :=
  DecimalString.NilZero.string_of_uint (Nat.to_uint n).

(* ===================================================================== *)
(** ** GroupManager                                                       *)
(* ===================================================================== *)

Module GroupManager.

Definition _SYSTEM_GROUPS : list string := ["users"; "admins"; "account users"].

(** [group.display_name in self._SYSTEM_GROUPS] *)
Definition is_system_group (name : option string) : bool :=
  match name with
  | None => false
  | Some s => list_contains s _SYSTEM_GROUPS
  end.

Definition _is_group_out_of_scope (group : Group) (resource_type' : string) : bool :=
  if is_system_group (display_name group) then true
  else match meta group with
       | None => false
       | Some m =>
           if opt_eqb String.eqb (resource_type m) (Some resource_type')
           then false else true
       end.

(** [attributes.remove(x)]: drops the first occurrence. *)
Fixpoint list_remove (x : string) (l : list string) : list string :=
  match l with
  | [] => []
  | y :: rest => if String.eqb x y then rest else y :: list_remove x rest
  end.

(** [groups[g.display_name] = g] for every listed group with a truthy
    display name. *)
Fixpoint by_display_name (gs : list Group) (acc : dict string Group)
  : dict string Group :=
  match gs with
  | [] => acc
  | g :: rest =>
      match display_name g with
      | Some name =>
          if String.eqb name "" then by_display_name rest acc
          else by_display_name rest (dict_set name g acc)
      | None => by_display_name rest acc
      end
  end.

(** [sorted(account_groups, key=lambda _: _.display_name)]: a stable sort;
    comparing a missing display name raises [TypeError], and every element
    of a list of two or more is compared. *)
Fixpoint insert_sorted (g : Group) (l : list Group) : list Group :=
  match l with
  | [] => [g]
  | h :: rest =>
      if String.leb (py_str (display_name g)) (py_str (display_name h))
      then g :: h :: rest
      else h :: insert_sorted g rest
  end.

Definition sorted_by_display_name (l : list Group) : res (list Group) :=
  if Nat.leb 2 (List.length l)
     && existsb (fun g => match display_name g with None => true | Some _ => false end) l
  then Raise TypeError
  else Val (fold_right insert_sorted [] l).

Definition join_attributes (attributes : list string) : string :=
  String.concat "," attributes.

Section Manager.
Variable W : Type.
Variable ws : WorkspaceClient W.
(** The further calls that fit in the timeout of [retried]. *)
Variable retry_budget : nat.

(** [_get_group]: [ws.groups.get], with [NotFound] turned into [None].
    The call is an observation of the directory, so the rate limit on it
    and the retry on [InternalError] that [_list_workspace_groups] wraps
    around it leave its answer as it is. *)
Definition _get_group (group_id : string) (w : W) : option Group :=
  groups_get ws group_id w.

(** [_list_workspace_groups], with [scim_attributes] already split at the
    commas. *)
Definition _list_workspace_groups (resource_type' : string)
  (scim_attributes : list string) (w : W) : list log_entry * list Group :=
  let results :=
    if list_contains "members" scim_attributes then
      let attributes := list_remove "members" scim_attributes in
      flat_map
        (fun g =>
           if _is_group_out_of_scope g resource_type' then []
           else match _get_group (id g) w with
                | None => []
                | Some group_with_all_attributes => [group_with_all_attributes]
                end)
        (groups_list ws attributes w)
    else
      filter (fun g => negb (_is_group_out_of_scope g resource_type'))
             (groups_list ws scim_attributes w)
  in
  ([(INFO, "Listing workspace groups (resource_type=" +:+ resource_type'
           +:+ ") with " +:+ join_attributes scim_attributes +:+ "...");
    (INFO, "Found " +:+ py_str_nat (List.length results) +:+ " " +:+ resource_type')],
   results).

Definition _workspace_groups_in_workspace (w : W)
  : list log_entry * dict string Group :=
  let (logs, listed) :=
    _list_workspace_groups "WorkspaceGroup"
      ["id"; "displayName"; "meta"; "externalId"; "members"; "roles"; "entitlements"] w in
  (logs, by_display_name listed []).

Definition _account_groups_in_workspace (w : W)
  : list log_entry * dict string Group :=
  let (logs, listed) :=
    _list_workspace_groups "Group" ["id"; "displayName"; "externalId"; "meta"] w in
  (logs, by_display_name listed []).

Definition _list_account_groups (scim_attributes : list string) (w : W)
  : list log_entry * res (list Group) :=
  let account_groups :=
    filter (fun g => negb (is_system_group (display_name g)))
           (account_scim_groups ws scim_attributes w) in
  ([(INFO, "Listing account groups with " +:+ join_attributes scim_attributes +:+ "...");
    (INFO, "Found " +:+ py_str_nat (List.length account_groups) +:+ " account groups")],
   sorted_by_display_name account_groups).

Definition _account_groups_in_account (w : W)
  : list log_entry * res (dict string Group) :=
  let (logs, listed) := _list_account_groups ["id"; "displayName"; "externalId"] w in
  (logs, match listed with
         | Raise e => Raise e
         | Val gs => Val (by_display_name gs [])
         end).

(** [_rename_group]: the bare patch call. *)
Definition _rename_group (group_id new_group_name : string) : op W pyval :=
  fun w =>
    match groups_patch ws group_id new_group_name w with
    | (Val _, w') => ([], Val PyTrue, w')
    | (Raise e, w') => ([], Raise e, w')
    end.

(** The function under the decorators of [_delete_workspace_group]. *)
Definition _delete_workspace_group_body (group_id display_name' : string)
  : op W pyval :=
  fun w =>
    let deleting :=
      (INFO, "Deleting the workspace-level group " +:+ display_name'
             +:+ " with id " +:+ group_id) in
    match groups_delete ws group_id w with
    | (Val _, w') =>
        ([deleting;
          (INFO, "Workspace-level group " +:+ display_name' +:+ " with id "
                 +:+ group_id +:+ " was deleted")],
         Val PyNone, w')
    | (Raise e, w') =>
        match class_of e with
        | NotFound => ([deleting], Val PyNone, w')
        | _ => ([deleting], Raise e, w')
        end
    end.

(** [@retried(on=[InternalError, ResourceConflict, DeadlineExceeded])]
    over [@rate_limited(max_requests=35, burst_period_seconds=60)]. *)
Definition _delete_workspace_group (group_id display_name' : string)
  : op W pyval :=
  retried on_transient default_timeout retry_budget
    (rate_limited 35 60 (_delete_workspace_group_body group_id display_name')).

(** The function under the decorators of
    [_reflect_account_group_to_workspace]. *)
Definition _reflect_account_group_to_workspace_body (account_group_id : string)
  : op W pyval :=
  fun w =>
    match permission_assign ws account_group_id w with
    | (Val _, w') => ([], Val PyTrue, w')
    | (Raise e, w') =>
        match class_of e with
        | BadRequest => ([], Val PyTrue, w')
        | _ => ([], Raise e, w')
        end
    end.

(** [@retried(on=[InternalError, ResourceConflict, DeadlineExceeded])]
    over [@rate_limited(max_requests=10)]; the burst period defaults to
    one second. *)
Definition _reflect_account_group_to_workspace (account_group_id : string)
  : op W pyval :=
  retried on_transient default_timeout retry_budget
    (rate_limited 10 1 (_reflect_account_group_to_workspace_body account_group_id)).

(** Calling a bound job. *)
Definition run_job (j : job) : op W pyval :=
  match j with
  | RenameGroup group_id new_group_name => _rename_group group_id new_group_name
  | ReflectAccountGroup account_group_id =>
      _reflect_account_group_to_workspace account_group_id
  | DeleteWorkspaceGroup group_id display_name' =>
      _delete_workspace_group group_id display_name'
  end.

(** [get_migration_state]; the snapshot is the persisted (or freshly
    crawled) list that [self.snapshot()] returns. *)
Definition get_migration_state (snapshot : list MigratedGroup) : MigrationState.t :=
  MigrationState.init snapshot.

(** The loop of [rename_groups]: the skip tests and the tasks appended. *)
Fixpoint rename_tasks
  (account_groups_in_workspace workspace_groups_in_workspace : dict string Group)
  (groups_to_migrate : list MigratedGroup) : list log_entry * list job :=
  match groups_to_migrate with
  | [] => ([], [])
  | mg :: rest =>
      let (logs, tasks) :=
        rename_tasks account_groups_in_workspace workspace_groups_in_workspace rest in
      if dict_mem_opt (name_in_account mg) account_groups_in_workspace then
        ((INFO, "Skipping " +:+ py_str (name_in_account mg)
                +:+ ": already in workspace") :: logs, tasks)
      else if dict_mem (temporary_name mg) workspace_groups_in_workspace then
        ((INFO, "Skipping " +:+ py_str (name_in_workspace mg)
                +:+ ": already renamed") :: logs, tasks)
      else
        ((INFO, "Renaming: " +:+ py_str (name_in_workspace mg) +:+ " -> "
                +:+ temporary_name mg) :: logs,
         RenameGroup (id_in_workspace mg) (temporary_name mg) :: tasks)
  end.

(** [_, errors = Threads.gather(name, tasks)] and the [raise] after it. *)
Definition gather_and_raise (error_log : list failure -> list log_entry)
  (tasks : list job) (w : W) : list log_entry * phase_result * W :=
  let '(logs, (_, errors), w') := Threads.gather run_job tasks w in
  match errors with
  | [] => (logs, Returned, w')
  | _ :: _ => (logs ++ error_log errors, RaisedManyError errors, w')
  end.

Definition rename_groups (snapshot : list MigratedGroup) (w : W)
  : list log_entry * phase_result * W :=
  let (l1, account_groups_in_workspace) := _account_groups_in_workspace w in
  let (l2, workspace_groups_in_workspace) := _workspace_groups_in_workspace w in
  let groups_to_migrate := MigrationState.groups (get_migration_state snapshot) in
  let (l3, tasks) :=
    rename_tasks account_groups_in_workspace workspace_groups_in_workspace
                 groups_to_migrate in
  let '(l4, result, w') := gather_and_raise (fun _ => []) tasks w in
  (l1 ++ l2 ++ l3 ++ l4, result, w').

(** The loop of [reflect_account_groups_on_workspace]. *)
Fixpoint reflect_tasks
  (account_groups_in_account account_groups_in_workspace : dict string Group)
  (groups_to_migrate : list MigratedGroup) : list log_entry * list job :=
  match groups_to_migrate with
  | [] => ([], [])
  | mg :: rest =>
      let (logs, tasks) :=
        reflect_tasks account_groups_in_account account_groups_in_workspace rest in
      if dict_mem_opt (name_in_account mg) account_groups_in_workspace then
        ((INFO, "Skipping " +:+ py_str (name_in_account mg)
                +:+ ": already in workspace") :: logs, tasks)
      else
        match dict_get_opt (name_in_account mg) account_groups_in_account with
        | None =>
            ((WARNING, "Skipping " +:+ py_str (name_in_account mg)
                       +:+ ": not in account") :: logs, tasks)
        | Some account_group => (logs, ReflectAccountGroup (id account_group) :: tasks)
        end
  end.

Definition reflect_account_groups_on_workspace (snapshot : list MigratedGroup)
  (w : W) : list log_entry * phase_result * W :=
  let (l1, listed) := _account_groups_in_account w in
  match listed with
  | Raise e => (l1, RaisedError e, w)
  | Val account_groups_in_account =>
      let (l2, account_groups_in_workspace) := _account_groups_in_workspace w in
      let groups_to_migrate := MigrationState.groups (get_migration_state snapshot) in
      let (l3, tasks) :=
        reflect_tasks account_groups_in_account account_groups_in_workspace
                      groups_to_migrate in
      let '(l4, result, w') := gather_and_raise (fun _ => []) tasks w in
      (l1 ++ l2 ++ l3 ++ l4, result, w')
  end.

(** The loop of [delete_original_workspace_groups]. *)
Fixpoint delete_tasks
  (workspace_groups_in_workspace account_groups_in_workspace : dict string Group)
  (snapshot : list MigratedGroup) : list log_entry * list job :=
  match snapshot with
  | [] => ([], [])
  | mg :: rest =>
      let (logs, tasks) :=
        delete_tasks workspace_groups_in_workspace account_groups_in_workspace rest in
      if negb (dict_mem (temporary_name mg) workspace_groups_in_workspace) then
        ((INFO, "Skipping " +:+ py_str (name_in_workspace mg)
                +:+ ": no longer in workspace") :: logs, tasks)
      else if negb (dict_mem_opt (name_in_account mg) account_groups_in_workspace) then
        ((INFO, "Skipping " +:+ py_str (name_in_account mg)
                +:+ ": not reflected in workspace") :: logs, tasks)
      else
        (logs, DeleteWorkspaceGroup (id_in_workspace mg) (temporary_name mg) :: tasks)
  end.

Definition delete_original_workspace_groups (snapshot : list MigratedGroup)
  (w : W) : list log_entry * phase_result * W :=
  let (l1, workspace_groups_in_workspace) := _workspace_groups_in_workspace w in
  let (l2, account_groups_in_workspace) := _account_groups_in_workspace w in
  let (l3, tasks) :=
    delete_tasks workspace_groups_in_workspace account_groups_in_workspace snapshot in
  let '(l4, result, w') :=
    gather_and_raise
      (fun errors =>
         [(ERROR, "During account-to-workspace reflection got "
                  +:+ py_str_nat (List.length errors) +:+ " errors. See debug logs")])
      tasks w in
  (l1 ++ l2 ++ l3 ++ l4, result, w').

End Manager.
End GroupManager.

(* ===================================================================== *)
(** ** An in-memory directory service                                     *)
(* ===================================================================== *)

(** A reference implementation of the remote client: the groups visible in
    the workspace (workspace-local ones and reflected account groups), the
    groups of the account, the errors the service is going to answer the
    next mutating calls with, and a journal of the mutating calls received. *)
Module Directory.

Inductive remote_call : Type :=
| Patch (group_id new_name : string)
| Delete (group_id : string)
| Assign (account_group_id : string).

Record t : Type := {
  workspace : list Group;
  account : list Group;
  faults : list exn;
  journal : list remote_call
}.

(** The attribute projection of a SCIM listing. *)
Definition project (attributes : list string) (g : Group) : Group :=
  let keep {A} (name : string) (x : option A) : option A :=
    if list_contains name attributes then x else None in
  {| id := id g;
     display_name := keep "displayName" (display_name g);
     external_id := keep "externalId" (external_id g);
     meta := keep "meta" (meta g);
     members := keep "members" (members g);
     roles := keep "roles" (roles g);
     entitlements := keep "entitlements" (entitlements g) |}.

Definition has_id (group_id : string) (g : Group) : bool :=
  String.eqb group_id (id g).

Definition set_display_name (new_name : string) (g : Group) : Group :=
  {| id := id g;
     display_name := Some new_name;
     external_id := external_id g;
     meta := meta g;
     members := members g;
     roles := roles g;
     entitlements := entitlements g |}.

Definition as_account_group (g : Group) : Group :=
  {| id := id g;
     display_name := display_name g;
     external_id := external_id g;
     meta := Some {| resource_type := Some "Group" |};
     members := members g;
     roles := roles g;
     entitlements := entitlements g |}.

(** A mutating call is journalled; a pending fault answers it and leaves
    the groups as they are. *)
Definition mutating (c : remote_call) (effect : t -> res unit * t) (d : t)
  : res unit * t :=
  let journal' := journal d ++ [c] in
  match faults d with
  | e :: pending =>
      (Raise e, {| workspace := workspace d; account := account d;
                   faults := pending; journal := journal' |})
  | [] =>
      effect {| workspace := workspace d; account := account d;
                faults := []; journal := journal' |}
  end.

Definition with_workspace (gs : list Group) (d : t) : t :=
  {| workspace := gs; account := account d;
     faults := faults d; journal := journal d |}.

Definition patch (group_id new_name : string) : t -> res unit * t :=
  mutating (Patch group_id new_name)
    (fun d =>
       if existsb (has_id group_id) (workspace d) then
         (Val tt,
          with_workspace
            (map (fun g => if has_id group_id g
                           then set_display_name new_name g else g)
                 (workspace d)) d)
       else (Raise NotFound, d)).

Definition delete (group_id : string) : t -> res unit * t :=
  mutating (Delete group_id)
    (fun d =>
       if existsb (has_id group_id) (workspace d) then
         (Val tt,
          with_workspace
            (filter (fun g => negb (has_id group_id g)) (workspace d)) d)
       else (Raise NotFound, d)).

Definition assign (account_group_id : string) : t -> res unit * t :=
  mutating (Assign account_group_id)
    (fun d =>
       match find (has_id account_group_id) (account d) with
       | None => (Raise NotFound, d)
       | Some g =>
           if existsb (has_id account_group_id) (workspace d) then
             (Raise BadRequest, d)
           else (Val tt, with_workspace (workspace d ++ [as_account_group g]) d)
       end).

Definition client : WorkspaceClient t :=
  {| groups_list := fun attributes d => map (project attributes) (workspace d);
     groups_get := fun group_id d => find (has_id group_id) (workspace d);
     groups_patch := patch;
     groups_delete := delete;
     account_scim_groups := fun attributes d => map (project attributes) (account d);
     permission_assign := assign |}.

(** A service that answers without faults and has received no call yet. *)
Definition healthy (workspace' account' : list Group) : t :=
  {| workspace := workspace'; account := account'; faults := []; journal := [] |}.

Definition workspace_group (group_id name : string) : Group :=
  {| id := group_id; display_name := Some name; external_id := None;
     meta := Some {| resource_type := Some "WorkspaceGroup" |};
     members := None; roles := None; entitlements := None |}.

Definition account_group (group_id name : string) : Group :=
  {| id := group_id; display_name := Some name; external_id := None;
     meta := Some {| resource_type := Some "Group" |};
     members := None; roles := None; entitlements := None |}.

End Directory.

(* ===================================================================== *)
(** ** A regex engine for the literal fragment                            *)
(* ===================================================================== *)

(** [re.search] and [re.sub] restricted to the patterns the configuration
    prompts produce most often: the anchors [^] and [$], a literal text,
    and a literal text in one capture group; the unterminated group [(] is
    the malformed pattern.  Subjects are plain text without line breaks; a
    replacement is plain text without escapes, or refers to a group by
    name, [\g<name>]: these patterns have no named group, and [re.sub]
    raises [IndexError] for the reference once the pattern has compiled. *)
Module LiteralRegex.

Inductive pattern : Type :=
| Malformed
| AtStart
| AtEnd
| Literal (text : string)
| Captured (text : string).

Fixpoint has_paren (s : string) : bool :=
  match s with
  | EmptyString => false
  | String c rest =>
      if (Ascii.eqb c "("%char || Ascii.eqb c ")"%char)%bool then true
      else has_paren rest
  end.

Definition parse (p : string) : pattern :=
  if String.eqb p "^" then AtStart
  else if String.eqb p "$" then AtEnd
  else if negb (has_paren p) then Literal p
  else
    match p with
    | String "("%char inner =>
        let n := String.length inner in
        let body := String.substring 0 (n - 1) inner in
        if (String.eqb (String.substring (n - 1) 1 inner) ")"
            && negb (has_paren body) && negb (String.eqb inner ""))%bool
        then Captured body else Malformed
    | _ => Malformed
    end.

Fixpoint occurs (text s : string) : bool :=
  if String.prefix text s then true
  else match s with
       | EmptyString => false
       | String _ rest => occurs text rest
       end.

Fixpoint skip (n : nat) (s : string) : string :=
  match n, s with
  | S n', String _ rest => skip n' rest
  | _, _ => s
  end.

Fixpoint replace_all (fuel : nat) (text repl s : string) : string :=
  match fuel, s with
  | S fuel', String c rest =>
      if String.prefix text s
      then repl +:+ replace_all fuel' text repl (skip (String.length text) s)
      else String c (replace_all fuel' text repl rest)
  | _, _ => s
  end.

Definition re_search (p s : string) : res (option Match) :=
  match parse p with
  | Malformed => Raise re_error
  | AtStart | AtEnd => Val (Some {| whole := ""; capture_groups := [] |})
  | Literal text =>
      if occurs text s
      then Val (Some {| whole := text; capture_groups := [] |})
      else Val None
  | Captured text =>
      if occurs text s
      then Val (Some {| whole := text; capture_groups := [Some text] |})
      else Val None
  end.

(** [name.isidentifier()], on ASCII text. *)
Definition is_identifier (name : string) : bool :=
  let letter (c : ascii) : bool :=
    let n := Ascii.nat_of_ascii c in
    (Nat.leb 65 n && Nat.leb n 90) || (Nat.leb 97 n && Nat.leb n 122)
    || Nat.eqb n 95 in
  let digit (c : ascii) : bool :=
    let n := Ascii.nat_of_ascii c in Nat.leb 48 n && Nat.leb n 57 in
  match name with
  | EmptyString => false
  | String c rest =>
      letter c
      && (fix all (s : string) : bool :=
            match s with
            | EmptyString => true
            | String c' rest' => (letter c' || digit c') && all rest'
            end) rest
  end.

(** The text up to the closing bracket of a group reference. *)
Fixpoint reference_name (s : string) : string :=
  match s with
  | EmptyString => EmptyString
  | String c rest =>
      if Ascii.eqb c ">"%char then EmptyString else String c (reference_name rest)
  end.

(** The name of the first reference [\g<name>] of a replacement, when it
    is an identifier. *)
Fixpoint named_reference (repl : string) : option string :=
  match repl with
  | EmptyString => None
  | String _ rest =>
      if String.prefix "\g<" repl then
        let name := reference_name (skip 3 repl) in
        if is_identifier name then Some name else None
      else named_reference rest
  end.

Definition re_sub (p repl s : string) : res string :=
  match parse p, named_reference repl with
  | Malformed, _ => Raise re_error
  | _, Some name => Raise (IndexError ("unknown group name '" +:+ name +:+ "'"))
  | AtStart, None => Val (repl +:+ s)
  | AtEnd, None => Val (s +:+ repl)
  | Literal text, None | Captured text, None =>
      if String.eqb text "" then Val s
      else Val (replace_all (String.length s) text repl s)
  end.

(** A serialiser for the opaque member / role / entitlement blobs. *)
Definition json_dumps (xs : list ComplexValue) : string :=
  "[" +:+ String.concat ", " (map (fun x => py_str (cv_value x)) xs) +:+ "]".

End LiteralRegex.

(* ===================================================================== *)
(** ** Vocabulary of the properties                                       *)
(* ===================================================================== *)

(** A map keyed by display name, as the three listing functions of
    [GroupManager] build it. *)
Definition keyed_by_display_name (d : dict string Group) : Prop :=
  Forall (fun kv => display_name (snd kv) = Some (fst kv)) d.




(** No string occurs twice. *)
Fixpoint distinct (l : list string) : bool :=
  match l with
  | [] => true
  | x :: rest => negb (list_contains x rest) && distinct rest
  end.

(** A snapshot with two correspondences, and a directory that answers the
    next mutating call with an error of the service. *)
Definition sales_correspondence : MigratedGroup :=
  {| id_in_workspace := "102";
     name_in_workspace := Some "sales";
     name_in_account := Some "sales";
     temporary_name := "ucx-renamed-sales";
     mg_members := None;
     mg_entitlements := None;
     mg_external_id := None;
     mg_roles := None |}.

Definition directory_with_one_fault (e : exn) : Directory.t :=
  {| Directory.workspace := [Directory.workspace_group "101" "data-eng";
                             Directory.workspace_group "102" "sales"];
     Directory.account := [Directory.account_group "901" "data-eng";
                           Directory.account_group "902" "sales"];
     Directory.faults := [e];
     Directory.journal := [] |}.


Section Phases.
Variable W : Type.
Variable ws : WorkspaceClient W.
Variable retry_budget : nat.



(** The rename calls an invocation of [rename_groups] issues in state [w]. *)
Definition planned_renames (snapshot : list MigratedGroup) (w : W) : list job :=
  snd (GroupManager.rename_tasks
         (snd (GroupManager._account_groups_in_workspace ws w))
         (snd (GroupManager._workspace_groups_in_workspace ws w))
         snapshot).

End Phases.

(** When the renames of a snapshot take effect in the in-memory directory:
    the service answers without faults, every rename targets an existing
    group, the groups with a targeted id are workspace-local and do not
    already bear a temporary name of the snapshot, the new name is one the
    workspace listing shows (not empty, not a system group), and no group
    is targeted twice. *)
Module RenameReady.
Import Directory.

Definition is_workspace_local (g : Group) : bool :=
  match meta g with
  | Some m => opt_eqb String.eqb (resource_type m) (Some "WorkspaceGroup")
  | None => false
  end.

Definition bears_temporary_name (snapshot : list MigratedGroup) (g : Group) : bool :=
  existsb (fun mg => opt_eqb String.eqb (display_name g) (Some (temporary_name mg)))
          snapshot.

Definition target_ok (snapshot : list MigratedGroup) (d : t) (j : job) : bool :=
  match j with
  | RenameGroup group_id new_name =>
      existsb (has_id group_id) (workspace d)
      && forallb (fun g => if has_id group_id g
                           then is_workspace_local g
                                && negb (bears_temporary_name snapshot g)
                           else true)
                 (workspace d)
      && negb (String.eqb new_name "")
      && negb (list_contains new_name GroupManager._SYSTEM_GROUPS)
  | _ => false
  end.

(** The effect of a batch of successful renames on one group of the
    directory. *)
Definition rename_one (j : job) (g : Group) : Group :=
  match j with
  | RenameGroup group_id new_name =>
      if has_id group_id g then set_display_name new_name g else g
  | _ => g
  end.

Definition renamed (tasks : list job) (g : Group) : Group :=
  fold_left (fun g' j => rename_one j g') tasks g.

Definition ready (snapshot : list MigratedGroup) (d : t) : bool :=
  match faults d with
  | [] =>
      let tasks := planned_renames client snapshot d in
      forallb (target_ok snapshot d) tasks
      && distinct (map job_group_id tasks)
  | _ :: _ => false
  end.

End RenameReady.

(** The scenario of the specification: one workspace group and one account
    group, both named data-eng. *)
Definition data_eng_workspace : dict string Group :=
  [("data-eng", Directory.workspace_group "101" "data-eng")].

Definition data_eng_account : dict string Group :=
  [("data-eng", Directory.account_group "901" "data-eng")].

(** Workspace groups ops, data-eng and sales; the account has corp-ops
    and corp-sales only. *)
Definition ops_and_data_eng_workspace : dict string Group :=
  [("ops", Directory.workspace_group "100" "ops");
   ("data-eng", Directory.workspace_group "101" "data-eng");
   ("sales", Directory.workspace_group "102" "sales")].

Definition corp_account : dict string Group :=
  [("corp-ops", Directory.account_group "900" "corp-ops");
   ("corp-sales", Directory.account_group "902" "corp-sales")].

(** The correspondence of the data-eng scenario, and three states of the
    directory: before the migration, after the rename, after the reflect. *)
Definition data_eng_correspondence : MigratedGroup :=
  {| id_in_workspace := "101";
     name_in_workspace := Some "data-eng";
     name_in_account := Some "data-eng";
     temporary_name := "ucx-renamed-data-eng";
     mg_members := None;
     mg_entitlements := None;
     mg_external_id := None;
     mg_roles := None |}.

Definition directory_before_rename : Directory.t :=
  Directory.healthy [Directory.workspace_group "101" "data-eng"]
                    [Directory.account_group "901" "data-eng"].

Definition directory_after_rename : Directory.t :=
  Directory.healthy [Directory.workspace_group "101" "ucx-renamed-data-eng"]
                    [Directory.account_group "901" "data-eng"].

Definition directory_after_reflect : Directory.t :=
  Directory.healthy [Directory.workspace_group "101" "ucx-renamed-data-eng";
                     Directory.account_group "901" "data-eng"]
                    [Directory.account_group "901" "data-eng"].

(** The output of the Regex-substitute strategy with pattern [^] and
    replacement corp- on these groups. *)
Definition corp_prefix_output : generated :=
  RegexSubStrategy.generate_migrated_groups LiteralRegex.re_sub
    LiteralRegex.json_dumps corp_account "ucx-renamed-" "^" "corp-"
    ops_and_data_eng_workspace None.

(** A workspace that does not have group 101 (any more). *)
Definition directory_without_group_101 : Directory.t :=
  Directory.healthy [] [Directory.account_group "901" "data-eng"].

(** The states two successive invocations of [rename_groups] leave. *)
Definition after_one_rename (snapshot : list MigratedGroup) (d : Directory.t)
  : Directory.t :=
  snd (GroupManager.rename_groups Directory.client 3 snapshot d).

Definition after_two_renames (snapshot : list MigratedGroup) (d : Directory.t)
  : Directory.t :=
  after_one_rename snapshot (after_one_rename snapshot d).

(** The account name the Regex-substitute strategy derives for a workspace
    group, when [_safe_sub] returns one. *)
Definition derived_name (re_sub : string -> string -> string -> res string)
  (regex replace : string) (g : Group) : option string :=
  match display_name g with
  | None => None
  | Some name =>
      match snd (GroupMigrationStrategy._safe_sub re_sub name regex replace) with
      | Val target => Some target
      | Raise _ => None
      end
  end.

(** The one [logger.info] record of [get_filtered_groups]. *)
Definition is_filter_log (l : log_entry) : Prop :=
  l = (INFO, "No group listing provided, all matching groups will be migrated")
  \/ l = (INFO, "Group listing provided, a subset of all groups will be migrated").

(* ===================================================================== *)
(** ** GroupManager: configuration, strategy selection and the crawler    *)
(* ===================================================================== *)

Module Crawler.

(** The configuration attributes [GroupManager.__init__] stores. *)
Record config : Type := {
  _include_group_names : option (list string);
  _renamed_group_prefix : string;
  _workspace_group_regex : option string;
  _workspace_group_replace : option string;
  _account_group_regex : option string;
  _external_id_match : bool
}.

(** Truthiness of an optional string: [None] and the empty string are
    falsy. *)
Definition truthy (x : option string) : bool :=
  match x with
  | None => false
  | Some s => negb (String.eqb s "")
  end.

(** [__init__]: a falsy prefix is replaced by the default. *)
Definition init (include_group_names : option (list string))
  (renamed_group_prefix workspace_group_regex workspace_group_replace
     account_group_regex : option string)
  (external_id_match : bool) : config :=
  {| _include_group_names := include_group_names;
     _renamed_group_prefix :=
       if truthy renamed_group_prefix then py_str renamed_group_prefix
       else "ucx-renamed-";
     _workspace_group_regex := workspace_group_regex;
     _workspace_group_replace := workspace_group_replace;
     _account_group_regex := account_group_regex;
     _external_id_match := external_id_match |}.

(** The strategy object [_get_strategy] constructs, with the regexes it is
    given. *)
Inductive strategy : Type :=
| UseRegexSub (workspace_group_regex workspace_group_replace : string)
| UseRegexMatch (workspace_group_regex account_group_regex : string)
| UseExternalId
| UseMatchingNames.

Definition _get_strategy (self : config) : strategy :=
  if truthy (_workspace_group_regex self) && truthy (_workspace_group_replace self)
  then UseRegexSub (py_str (_workspace_group_regex self))
                   (py_str (_workspace_group_replace self))
  else if truthy (_workspace_group_regex self) && truthy (_account_group_regex self)
  then UseRegexMatch (py_str (_workspace_group_regex self))
                     (py_str (_account_group_regex self))
  else if _external_id_match self then UseExternalId
  else UseMatchingNames.

Section Crawl.
Variable re_search : string -> string -> res (option Match).
Variable re_sub : string -> string -> string -> res string.
Variable json_dumps : list ComplexValue -> string.
Variable W : Type.
Variable ws : WorkspaceClient W.

(** [strategy.generate_migrated_groups()] for the selected strategy. *)
Definition generate_migrated_groups (self : config) (s : strategy)
  (workspace_groups_in_workspace account_groups_in_account : dict string Group)
  : generated :=
  match s with
  | UseRegexSub regex replace =>
      RegexSubStrategy.generate_migrated_groups re_sub json_dumps
        account_groups_in_account (_renamed_group_prefix self) regex replace
        workspace_groups_in_workspace (_include_group_names self)
  | UseRegexMatch regex account_regex =>
      RegexMatchStrategy.generate_migrated_groups re_search json_dumps
        (_renamed_group_prefix self) workspace_groups_in_workspace
        account_groups_in_account (_include_group_names self) regex account_regex
  | UseExternalId =>
      MatchByExternalIdStrategy.generate_migrated_groups json_dumps
        (_renamed_group_prefix self) workspace_groups_in_workspace
        account_groups_in_account (_include_group_names self)
  | UseMatchingNames =>
      MatchingNamesStrategy.generate_migrated_groups json_dumps
        account_groups_in_account (_renamed_group_prefix self)
        workspace_groups_in_workspace (_include_group_names self)
  end.

(** [_crawler]: list the workspace groups, list the account groups, select
    the strategy and yield what it generates. *)
Definition _crawler (self : config) (w : W) : generated :=
  let (l1, workspace_groups_in_workspace) :=
    GroupManager._workspace_groups_in_workspace ws w in
  let (l2, listed) := GroupManager._account_groups_in_account ws w in
  gen_logs (l1 ++ l2)
    match listed with
    | Raise e => gen_raise e
    | Val account_groups_in_account =>
        generate_migrated_groups self (_get_strategy self)
          workspace_groups_in_workspace account_groups_in_account
    end.

End Crawl.
End Crawler.

(** The record every strategy builds for a workspace group [g] matched
    with an account group: identity, names and blobs of [g], the external
    id of the account group, and the prefixed temporary name. *)
Definition correspondence (json_dumps : list ComplexValue -> string)
  (prefix : string) (g : Group) (name_in_account' : option string)
  (account_group : Group) : MigratedGroup :=
  {| id_in_workspace := id g;
     name_in_workspace := display_name g;
     name_in_account := name_in_account';
     temporary_name := prefix +:+ py_str (display_name g);
     mg_external_id := external_id account_group;
     mg_members := GroupMigrationStrategy.dump_blob json_dumps (members g);
     mg_roles := GroupMigrationStrategy.dump_blob json_dumps (roles g);
     mg_entitlements := GroupMigrationStrategy.dump_blob json_dumps (entitlements g) |}.

(** The names of an include list that restricts the migration. *)
Definition included (include : option (list string)) (k : string) : bool :=
  match include with
  | Some (n :: names) => list_contains k (n :: names)
  | _ => true
  end.

(** Two workspace groups and an account with two groups that share an
    external id, and one without external id on either side. *)
Definition with_external_id (ext : option string) (g : Group) : Group :=
  {| id := id g; display_name := display_name g; external_id := ext;
     meta := meta g; members := members g; roles := roles g;
     entitlements := entitlements g |}.

Definition external_workspace : dict string Group :=
  [("eng", with_external_id (Some "x-1") (Directory.workspace_group "101" "eng"));
   ("local", Directory.workspace_group "102" "local")].

Definition external_account : dict string Group :=
  [("engineering-old",
    with_external_id (Some "x-1") (Directory.account_group "900" "engineering-old"));
   ("engineering",
    with_external_id (Some "x-1") (Directory.account_group "901" "engineering"));
   ("unsynced", Directory.account_group "902" "unsynced")].

(** A workspace group and an account group whose names both contain the
    key eng. *)
Definition eng_team_workspace : dict string Group :=
  [("eng-team", Directory.workspace_group "101" "eng-team")].

Definition corp_eng_account : dict string Group :=
  [("corp-eng", Directory.account_group "901" "corp-eng")].

(** The order of [sorted]: display names compared as strings. *)
Definition by_name (a b : Group) : Prop :=
  String.leb (py_str (display_name a)) (py_str (display_name b)) = true.

(** Account-scope groups as the service may list them: one of them is the
    system group users, and one listing holds a group without display
    name. *)
Definition nameless_group (group_id : string) : Group :=
  {| id := group_id; display_name := None; external_id := None;
     meta := None; members := None; roles := None; entitlements := None |}.

Definition directory_with_account (account' : list Group) : Directory.t :=
  Directory.healthy [Directory.workspace_group "101" "data-eng"] account'.

(* ===================================================================== *)
(** ** framework/tui.py: console prompts                                  *)
(* ===================================================================== *)

Module Tui.

(** The exceptions of the prompt code; [ReError] is [re.error]. *)
Inductive error : Type :=
| ValueError (message : string)
| EOFError
| KeyError (key : string)
| IndexError
| ReError.

Inductive outcome (A : Type) : Type :=
| Ok (a : A)
| Err (e : error).

Arguments Ok {A} a.
Arguments Err {A} e.

(** The console: the lines the user is going to type, and what has been
    written (prompts and printed messages), oldest first. *)
Record console : Type := {
  stdin : list string;
  stdout : list string
}.

Definition io (A : Type) : Type := console -> outcome A * console.

Definition esc : string := String (Ascii.ascii_of_nat 27) EmptyString.
Definition nl : string := String (Ascii.ascii_of_nat 10) EmptyString.

(** [print(message)] *)
Definition print (message : string) (c : console) : console :=
  {| stdin := stdin c; stdout := stdout c ++ [message] |}.

(** [input(prompt)]: writes the prompt and reads a line; at end of input it
    raises [EOFError]. *)
Definition input (prompt : string) : io string :=
  fun c =>
    match stdin c with
    | [] => (Err EOFError, print prompt c)
    | line :: rest =>
        (Ok line, {| stdin := rest; stdout := stdout c ++ [prompt] |})
    end.

(** [sorted(choices, key=key)]: a stable sort on the keys compared as
    strings. *)
Fixpoint insert_by (key : string -> string) (x : string) (l : list string)
  : list string :=
  match l with
  | [] => [x]
  | h :: rest =>
      if String.leb (key x) (key h) then x :: h :: rest
      else h :: insert_by key x rest
  end.

Definition sorted_by (key : string -> string) (l : list string) : list string :=
  fold_right (insert_by key) [] l.

(** [len(choices) - 1] rendered in an f-string. *)
Definition py_str_pred (n : nat) : string :=
  match n with
  | 0 => "-1"
  | S m => py_str_nat m
  end.

(** An integer rendered in an f-string. *)
Definition py_str_Z (z : Z) : string :=
  DecimalString.NilZero.string_of_int (Z.to_int z).

(** [enumerate]: the items with their index, counting from [start]. *)
Fixpoint enumerate_from {A} (start : nat) (l : list A) : list (nat * A) :=
  match l with
  | [] => []
  | x :: rest => (start, x) :: enumerate_from (S start) rest
  end.

Section Prompts.

(** [re.compile(pattern).match(s) is not None] for a pattern that
    compiles, whether [re.compile(pattern)] succeeds (it raises [re.error]
    otherwise), [int(s)], [str.casefold] and [str.lower] of the Python
    runtime. *)
Variable re_match : string -> string -> bool.
Variable re_compiles : string -> bool.
Variable py_int : string -> outcome Z.
Variable casefold : string -> string.
Variable lower : string -> string.

(** The [while attempt < max_attempts] loop of [question], by the attempts
    that are left. *)
Fixpoint question_loop (attempts_left max_attempts : nat) (prompt : string)
  (default valid_regex : option string) (validate : option (string -> bool))
  : io string :=
  fun c =>
    match attempts_left with
    | 0 =>
        (Err (ValueError ("cannot get answer within " +:+ py_str_nat max_attempts
                          +:+ " attempt")), c)
    | S attempts_left' =>
        let again :=
          question_loop attempts_left' max_attempts prompt default valid_regex
                        validate in
        match input prompt c with
        | (Err e, c') => (Err e, c')
        | (Ok res, c') =>
            let typed := negb (String.eqb res "") in
            let rejected :=
              match validate with
              | Some valid => typed && negb (valid res)
              | None => false
              end in
            if rejected then again c'
            else
              match valid_regex with
              | Some pattern =>
                  if typed then
                    if re_match pattern res then (Ok res, c')
                    else
                      again (print (esc +:+ "[31m[ERROR] Not a '" +:+ pattern
                                    +:+ "' match: " +:+ res +:+ esc +:+ "[0m"
                                    +:+ nl) c')
                  else
                    match default with
                    | Some d =>
                        if negb (String.eqb d "") then (Ok d, c') else again c'
                    | None => again c'
                    end
              | None =>
                  if typed then (Ok res, c')
                  else
                    match default with
                    | Some d =>
                        if negb (String.eqb d "") then (Ok d, c') else again c'
                    | None => again c'
                    end
              end
        end
    end.

(** [question].  A [valid_number] request replaces the regex by the one
    for digits; an empty [valid_regex] compiles nothing, and a regex that
    does not compile makes [re.compile] raise before anything is asked. *)
Definition question (text : string) (default : option string)
  (max_attempts : nat) (valid_number : bool) (valid_regex : option string)
  (validate : option (string -> bool)) : io string :=
  let default_help :=
    match default with
    | None => ""
    | Some d => esc +:+ "[36m (default: " +:+ d +:+ ")" +:+ esc +:+ "[0m"
    end in
  let prompt := esc +:+ "[1m" +:+ text +:+ default_help +:+ ": " +:+ esc +:+ "[0m" in
  let valid_regex' := if valid_number then Some "^\d+$" else valid_regex in
  match valid_regex' with
  | Some pattern =>
      if String.eqb pattern "" then
        question_loop max_attempts max_attempts prompt default None validate
      else if re_compiles pattern then
        question_loop max_attempts max_attempts prompt default (Some pattern)
                      validate
      else fun c => (Err ReError, c)
  | None => question_loop max_attempts max_attempts prompt default None validate
  end.

(** The [while attempt < max_attempts] loop of [choice]. *)
Fixpoint choice_loop (attempts_left max_attempts : nat) (prompt : string)
  (choices : list string) : io string :=
  fun c =>
    match attempts_left with
    | 0 =>
        (Err (ValueError ("cannot get answer within " +:+ py_str_nat max_attempts
                          +:+ " attempt")), c)
    | S attempts_left' =>
        match question prompt None 10 true None None c with
        | (Err e, c') => (Err e, c')
        | (Ok answer, c') =>
            match py_int answer with
            | Err e => (Err e, c')
            | Ok number =>
                if (Z.of_nat (List.length choices) <=? number)%Z
                   || (number <? 0)%Z
                then
                  choice_loop attempts_left' max_attempts prompt choices
                    (print (esc +:+ "[31m[ERROR] Out of range: " +:+ py_str_Z number
                            +:+ esc +:+ "[0m" +:+ nl) c')
                else
                  match nth_error choices (Z.to_nat number) with
                  | Some picked => (Ok picked, c')
                  | None => (Err IndexError, c')
                  end
            end
        end
    end.

(** [choice] *)
Definition choice (text : string) (choices : list string) (max_attempts : nat)
  (sort : bool) : io string :=
  let choices' := if sort then sorted_by casefold choices else choices in
  let numbered :=
    String.concat nl
      (map (fun iv => esc +:+ "[1m[" +:+ py_str_nat (fst iv) +:+ "]" +:+ esc
                      +:+ "[0m " +:+ esc +:+ "[36m" +:+ snd iv +:+ esc +:+ "[0m")
           (enumerate_from 0 choices')) in
  let prompt :=
    esc +:+ "[1m" +:+ text +:+ esc +:+ "[0m" +:+ nl +:+ numbered +:+ nl
    +:+ "Enter a number between 0 and " +:+ py_str_pred (List.length choices')
    +:+ ": " in
  choice_loop max_attempts max_attempts prompt choices'.

(** [choice_from_dict] *)
Definition choice_from_dict {A} (text : string) (choices : dict string A)
  (sort : bool) : io A :=
  fun c =>
    match choice text (dict_keys choices) 10 sort c with
    | (Err e, c') => (Err e, c')
    | (Ok key, c') =>
        match dict_get key choices with
        | Some a => (Ok a, c')
        | None => (Err (KeyError key), c')
        end
    end.

(** [confirm] *)
Definition confirm (text : string) (max_attempts : nat) : io bool :=
  fun c =>
    match question text (Some "no") max_attempts false
                   (Some "[Yy][Ee][Ss]|[Nn][Oo]") None c with
    | (Err e, c') => (Err e, c')
    | (Ok answer, c') => (Ok (String.eqb (lower answer) "yes"), c')
    end.

(** The values of the dropdown of [multi_select_from_dict]. *)
Inductive entry (A : Type) : Type :=
| Done
| Item (a : A).

Arguments Done {A}.
Arguments Item {A} a.

(** [del d[key]] *)
Definition dict_del {V} (key : string) (d : dict string V) : dict string V :=
  filter (fun kv => negb (String.eqb key (fst kv))) d.

(** The [while True] loop of [multi_select_from_dict]; [None] when the
    iterations granted do not suffice. *)
Fixpoint multi_select_loop {A} (iterations : nat) (item_prompt : string)
  (choices : dict string A) (dropdown : dict string (entry A))
  (selected : list A) (c : console) : option (outcome (list A) * console) :=
  match iterations with
  | 0 => None
  | S iterations' =>
      match choice item_prompt (dict_keys dropdown) 10 true c with
      | (Err e, c') => Some (Err e, c')
      | (Ok key, c') =>
          if String.eqb key "done" then Some (Ok selected, c')
          else
            match dict_get key choices with
            | None => Some (Err (KeyError key), c')
            | Some a =>
                let selected' := selected ++ [a] in
                let dropdown' := dict_del key dropdown in
                if Nat.eqb (List.length selected') (List.length choices)
                then Some (Ok selected', c')
                else multi_select_loop iterations' item_prompt choices
                                       dropdown' selected' c'
            end
      end
  end.

(** [{"[DONE]": "done"} | choices] *)
Definition dropdown_of {A} (choices : dict string A) : dict string (entry A) :=
  fold_left (fun acc kv => dict_set (fst kv) (Item (snd kv)) acc) choices
            [("[DONE]", Done)].

(** [multi_select_from_dict]; every iteration deletes an entry of the
    dropdown, so one iteration more than it has entries is granted. *)
Definition multi_select_from_dict {A} (all_prompt item_prompt : string)
  (choices : dict string A) (c : console)
  : option (outcome (list A) * console) :=
  match question all_prompt (Some "no") 10 false None None c with
  | (Err e, c') => Some (Err e, c')
  | (Ok answer, c') =>
      if String.eqb answer "yes" then Some (Ok [], c')
      else
        multi_select_loop (S (List.length (dropdown_of choices))) item_prompt
                          choices (dropdown_of choices) [] c'
  end.

End Prompts.
End Tui.

(** The Python runtime functions the prompts use, on ASCII text: the
    regex for numbers and the one of [confirm], [int] on decimal digits,
    and case folding of the letters A to Z. *)
Module AsciiRuntime.

Definition is_digit (ch : ascii) : bool :=
  let n := Ascii.nat_of_ascii ch in Nat.leb 48 n && Nat.leb n 57.

Fixpoint all_digits (s : string) : bool :=
  match s with
  | EmptyString => true
  | String ch rest => is_digit ch && all_digits rest
  end.

Definition fold_char (ch : ascii) : ascii :=
  let n := Ascii.nat_of_ascii ch in
  if Nat.leb 65 n && Nat.leb n 90 then Ascii.ascii_of_nat (n + 32) else ch.

Fixpoint lower (s : string) : string :=
  match s with
  | EmptyString => EmptyString
  | String ch rest => String (fold_char ch) (lower rest)
  end.

Definition re_match (pattern s : string) : bool :=
  if String.eqb pattern "^\d+$" then negb (String.eqb s "") && all_digits s
  else if String.eqb pattern "[Yy][Ee][Ss]|[Nn][Oo]"
  then String.prefix "yes" (lower s) || String.prefix "no" (lower s)
  else String.prefix pattern s.

Fixpoint digits_value (acc : Z) (s : string) : Z :=
  match s with
  | EmptyString => acc
  | String ch rest =>
      digits_value (acc * 10 + Z.of_nat (Ascii.nat_of_ascii ch - 48))%Z rest
  end.

Definition py_int (s : string) : Tui.outcome Z :=
  if negb (String.eqb s "") && all_digits s then Tui.Ok (digits_value 0 s)
  else Tui.Err (Tui.ValueError ("invalid literal for int() with base 10: " +:+ s)).

(** Whitespace, as [\s] and [str.strip] know it. *)
Definition is_space (ch : ascii) : bool :=
  let n := Ascii.nat_of_ascii ch in
  (Nat.leb 9 n && Nat.leb n 13) || (Nat.leb 28 n && Nat.leb n 32).

Fixpoint any_char (p : ascii -> bool) (s : string) : bool :=
  match s with
  | EmptyString => false
  | String ch rest => p ch || any_char p rest
  end.

(** [re.search(pattern, s) is not None]: the character class of
    [_is_valid_group_str], else a literal text. *)
Definition re_search_found (pattern s : string) : bool :=
  if String.eqb pattern "[\s#,+ \\<>;]"
  then any_char (fun ch => is_space ch
                           || existsb (Ascii.eqb ch)
                                [("#"%char); (","%char); ("+"%char); (" "%char);
                                 ("\"%char); ("<"%char); (">"%char); (";"%char)]) s
  else LiteralRegex.occurs pattern s.

(** Whether [re.compile] accepts the pattern. *)
Definition re_compiles (pattern : string) : bool :=
  match LiteralRegex.parse pattern with
  | LiteralRegex.Malformed => false
  | _ => true
  end.

Fixpoint lstrip (s : string) : string :=
  match s with
  | EmptyString => EmptyString
  | String ch rest => if is_space ch then lstrip rest else s
  end.

Fixpoint rstrip (s : string) : string :=
  match s with
  | EmptyString => EmptyString
  | String ch rest =>
      match rstrip rest with
      | EmptyString => if is_space ch then EmptyString else String ch EmptyString
      | kept => String ch kept
      end
  end.

Definition strip (s : string) : string := rstrip (lstrip s).

End AsciiRuntime.

(* ===================================================================== *)
(** ** [ConfigureGroups]: the interactive choice of the strategy *)

Module ConfigureGroups.

(** The attributes of a [ConfigureGroups] object. *)
Record state : Type := {
  renamed_group_prefix : string;
  workspace_group_regex : option string;
  workspace_group_replace : option string;
  account_group_regex : option string;
  group_match_by_external_id : option bool;
  include_group_names : option (list string)
}.

(** The class attributes, which a new object has. *)
Definition initial : state :=
  {| renamed_group_prefix := "db-temp-";
     workspace_group_regex := None;
     workspace_group_replace := None;
     account_group_regex := None;
     group_match_by_external_id := None;
     include_group_names := None |}.

(** The bound methods the menu of [run] offers. *)
Inductive method : Type :=
| _configure_prefix_method
| _configure_suffix_method
| _configure_names_method
| _configure_external_method
| _configure_substitution_method
| _configure_matching_method.

Definition menu : dict string method :=
  [("Apply a Prefix", _configure_prefix_method);
   ("Apply a Suffix", _configure_suffix_method);
   ("Comma-separated list of workspace group names to migrate",
    _configure_names_method);
   ("Match By External ID", _configure_external_method);
   ("Regex Substitution", _configure_substitution_method);
   ("Regex Matching", _configure_matching_method)].

(** [s.split(",")] *)
Fixpoint split_comma (s : string) : list string :=
  match s with
  | EmptyString => [EmptyString]
  | String ch rest =>
      if Ascii.eqb ch ","%char then EmptyString :: split_comma rest
      else
        match split_comma rest with
        | first :: others => String ch first :: others
        | [] => [String ch EmptyString]
        end
  end.

(** The assignments of the configuring methods. *)
Definition with_prefix (self : state) (prefix : string) : state :=
  {| renamed_group_prefix := prefix;
     workspace_group_regex := workspace_group_regex self;
     workspace_group_replace := workspace_group_replace self;
     account_group_regex := account_group_regex self;
     group_match_by_external_id := group_match_by_external_id self;
     include_group_names := include_group_names self |}.

Definition with_substitution (self : state) (regex replace : string) : state :=
  {| renamed_group_prefix := renamed_group_prefix self;
     workspace_group_regex := Some regex;
     workspace_group_replace := Some replace;
     account_group_regex := account_group_regex self;
     group_match_by_external_id := group_match_by_external_id self;
     include_group_names := include_group_names self |}.

Definition with_matching (self : state) (regex account_regex : string) : state :=
  {| renamed_group_prefix := renamed_group_prefix self;
     workspace_group_regex := Some regex;
     workspace_group_replace := workspace_group_replace self;
     account_group_regex := Some account_regex;
     group_match_by_external_id := group_match_by_external_id self;
     include_group_names := include_group_names self |}.

Definition with_names (self : state) (names : list string) : state :=
  {| renamed_group_prefix := renamed_group_prefix self;
     workspace_group_regex := workspace_group_regex self;
     workspace_group_replace := workspace_group_replace self;
     account_group_regex := account_group_regex self;
     group_match_by_external_id := group_match_by_external_id self;
     include_group_names := Some names |}.

Definition with_external_id (self : state) : state :=
  {| renamed_group_prefix := renamed_group_prefix self;
     workspace_group_regex := workspace_group_regex self;
     workspace_group_replace := workspace_group_replace self;
     account_group_regex := account_group_regex self;
     group_match_by_external_id := Some true;
     include_group_names := include_group_names self |}.

(** What a configuring method does: it may ask, and returns its verdict with
    the attributes as it leaves them. *)
Definition configure : Type := state -> Tui.io (bool * state).

Section Run.

(** The Python runtime: [re.compile(pattern).match(s) is not None],
    [int(s)], [str.casefold], [re.search(pattern, s) is not None], whether
    [re.compile(pattern)] succeeds, and [str.strip]. *)
Variable re_match : string -> string -> bool.
Variable py_int : string -> Tui.outcome Z.
Variable casefold : string -> string.
Variable re_search_found : string -> string -> bool.
Variable re_compiles : string -> bool.
Variable strip : string -> string.

(** [_is_valid_group_str], by the truth value of what it returns. *)
Definition _is_valid_group_str (group_str : string) : bool :=
  negb (String.eqb group_str "")
  && negb (re_search_found "[\s#,+ \\<>;]" group_str).

(** [_validate_regex]: [True], or an error record and [None]. *)
Definition _validate_regex (regex_input : string) : list log_entry * bool :=
  if re_compiles regex_input then ([], true)
  else ([(ERROR, regex_input +:+ " is an invalid regular expression")], false).

(** [_ask_for_group] and [_ask_for_regex]: [question] with the validator
    bound; of [_validate_regex] the question sees the verdict. *)
Definition _ask_for_group (text : string) (default : option string)
  : Tui.io string :=
  Tui.question re_match re_compiles text default 10 false None (Some _is_valid_group_str).

Definition _ask_for_regex (text : string) : Tui.io string :=
  Tui.question re_match re_compiles text None 10 false None
               (Some (fun regex_input => snd (_validate_regex regex_input))).

Definition _configure_prefix : configure :=
  fun self c =>
    match _ask_for_group "Enter a prefix to add to the workspace group name"
                         None c with
    | (Tui.Err e, c') => (Tui.Err e, c')
    | (Tui.Ok prefix, c') =>
        if String.eqb prefix "" then (Tui.Ok (false, self), c')
        else (Tui.Ok (true, with_substitution self "^" prefix), c')
    end.

Definition _configure_suffix : configure :=
  fun self c =>
    match _ask_for_group "Enter a suffix to add to the workspace group name"
                         None c with
    | (Tui.Err e, c') => (Tui.Err e, c')
    | (Tui.Ok suffix, c') =>
        if String.eqb suffix "" then (Tui.Ok (false, self), c')
        else (Tui.Ok (true, with_substitution self "$" suffix), c')
    end.

Definition _configure_substitution : configure :=
  fun self c =>
    match _ask_for_regex "Enter a regular expression for substitution" c with
    | (Tui.Err e, c') => (Tui.Err e, c')
    | (Tui.Ok match_value, c') =>
        if String.eqb match_value "" then (Tui.Ok (false, self), c')
        else
          match _ask_for_group "Enter the substitution value" None c' with
          | (Tui.Err e, c'') => (Tui.Err e, c'')
          | (Tui.Ok sub_value, c'') =>
              if String.eqb sub_value "" then (Tui.Ok (false, self), c'')
              else
                (Tui.Ok (true, with_substitution self match_value sub_value), c'')
          end
    end.

Definition _configure_matching : configure :=
  fun self c =>
    match _ask_for_regex
            "Enter a regular expression to match on the workspace group" c with
    | (Tui.Err e, c') => (Tui.Err e, c')
    | (Tui.Ok ws_match_value, c') =>
        if String.eqb ws_match_value "" then (Tui.Ok (false, self), c')
        else
          match _ask_for_regex
                  "Enter a regular expression to match on the account group" c'
          with
          | (Tui.Err e, c'') => (Tui.Err e, c'')
          | (Tui.Ok acct_match_value, c'') =>
              if String.eqb acct_match_value "" then (Tui.Ok (false, self), c'')
              else
                (Tui.Ok (true, with_matching self ws_match_value acct_match_value),
                 c'')
          end
    end.

Definition _configure_names : configure :=
  fun self c =>
    match Tui.question re_match re_compiles
            ("Comma-separated list of workspace group names to migrate. "
             +:+ "If not specified, we'll use all "
             +:+ "account-level groups with matching names to workspace-level groups")
            (Some "<ALL>") 10 false None None c with
    | (Tui.Err e, c') => (Tui.Err e, c')
    | (Tui.Ok selected_groups, c') =>
        if negb (String.eqb selected_groups "<ALL>")
        then
          (Tui.Ok (true, with_names self (map strip (split_comma selected_groups))),
           c')
        else (Tui.Ok (true, self), c')
    end.

Definition _configure_external : configure :=
  fun self c => (Tui.Ok (true, with_external_id self), c).

(** Calling the bound method chosen. *)
Definition call (m : method) : configure :=
  match m with
  | _configure_prefix_method => _configure_prefix
  | _configure_suffix_method => _configure_suffix
  | _configure_names_method => _configure_names
  | _configure_external_method => _configure_external
  | _configure_substitution_method => _configure_substitution
  | _configure_matching_method => _configure_matching
  end.

(** [run]: the outcome, and the object as the call leaves it, also when it
    raises. *)
Definition run (self : state) (c : Tui.console)
  : Tui.outcome unit * state * Tui.console :=
  match _ask_for_group "Backup prefix" (Some (renamed_group_prefix self)) c with
  | (Tui.Err e, c1) => (Tui.Err e, self, c1)
  | (Tui.Ok prefix, c1) =>
      let self1 := with_prefix self prefix in
      match Tui.choice_from_dict re_match re_compiles py_int casefold
              "Choose how to map the workspace groups:" menu true c1 with
      | (Tui.Err e, c2) => (Tui.Err e, self1, c2)
      | (Tui.Ok strategy, c2) =>
          match call strategy self1 c2 with
          | (Tui.Err e, c3) => (Tui.Err e, self1, c3)
          | (Tui.Ok (_, self2), c3) => (Tui.Ok tt, self2, c3)
          end
      end
  end.

(** The settings are validated: the backup prefix is the one of the class
    or a valid group string, a replacement is a valid group string, the
    regexes are the anchors of the prefix and suffix methods or compile,
    and the names are the stripped parts of a typed answer. *)
Definition validated (self : state) : Prop :=
  (renamed_group_prefix self = "db-temp-"
   \/ _is_valid_group_str (renamed_group_prefix self) = true)
  /\ (forall replace, workspace_group_replace self = Some replace ->
                      _is_valid_group_str replace = true)
  /\ (forall regex, workspace_group_regex self = Some regex ->
                    regex = "^" \/ regex = "$"
                    \/ (regex <> "" /\ re_compiles regex = true))
  /\ (forall regex, account_group_regex self = Some regex ->
                    regex <> "" /\ re_compiles regex = true)
  /\ (forall names, include_group_names self = Some names ->
                    exists typed, typed <> "" /\ typed <> "<ALL>"
                                  /\ names = map strip (split_comma typed)).

(** The strategy [selected] is the one of the method chosen in the menu,
    with validated arguments. *)
Definition selects (m : method) (selected : Crawler.strategy) : Prop :=
  match m, selected with
  | _configure_prefix_method, Crawler.UseRegexSub regex replace =>
      regex = "^" /\ _is_valid_group_str replace = true
  | _configure_suffix_method, Crawler.UseRegexSub regex replace =>
      regex = "$" /\ _is_valid_group_str replace = true
  | _configure_substitution_method, Crawler.UseRegexSub regex replace =>
      re_compiles regex = true /\ _is_valid_group_str replace = true
  | _configure_matching_method, Crawler.UseRegexMatch regex account_regex =>
      re_compiles regex = true /\ re_compiles account_regex = true
  | _configure_external_method, Crawler.UseExternalId => True
  | _configure_names_method, Crawler.UseMatchingNames => True
  | _, _ => False
  end.

End Run.
End ConfigureGroups.

(** A console on which nothing has been written yet. *)
Definition typing (lines : list string) : Tui.console :=
  {| Tui.stdin := lines; Tui.stdout := [] |}.


(** The items selected so far were stored in [choices] under the keys
    [picked], which are distinct. *)
Definition selection_of {A} (choices : dict string A) (picked : list string)
  (selected : list A) : Prop :=
  NoDup picked
  /\ Forall2 (fun k a => dict_get k choices = Some a) picked selected.

(** Two workspaces to select from, by name. *)
Definition workspaces_by_name : dict string nat := [("dev", 101); ("prod", 102)].

(** The console a prompt leaves behind. *)
Definition console_after {A} (run : option (Tui.outcome A * Tui.console))
  : Tui.console :=
  match run with
  | Some (_, c) => c
  | None => typing []
  end.

(** A group manager constructed with the settings of the prefix method. *)
Definition corp_prefix_config : Crawler.config :=
  Crawler.init None (Some "db-temp-") (Some "^") (Some "corp-") None false.

(** The regex [question] compiles: the one for digits when [valid_number]
    is set, else a [valid_regex] that is not empty. *)
Definition regex_in_effect (valid_number : bool) (valid_regex : option string)
  : option string :=
  match (if valid_number then Some "^\d+$" else valid_regex) with
  | Some pattern => if String.eqb pattern "" then None else Some pattern
  | None => None
  end.



(* ===================================================================== *)
(** ** Facts about dictionaries                                           *)
(* ===================================================================== *)

Section DictFacts.
Context {K V : Type} `{PyKey K}.

Lemma key_eqb_refl (k : K) : key_eqb k k = true.
Proof. now apply key_eqb_eq. Qed.

Lemma key_eqb_neq (a b : K) : a <> b -> key_eqb a b = false.
Proof.
  intros Hne. destruct (key_eqb a b) eqn:E; [|reflexivity].
  apply key_eqb_eq in E. contradiction.
Qed.

Lemma dict_get_In (k : K) (v : V) (d : dict K V) :
  dict_get k d = Some v -> In (k, v) d.
Proof.
  induction d as [|[k' v'] rest IH]; simpl; [discriminate|].
  destruct (key_eqb k k') eqn:E.
  - intros [= ->]. apply key_eqb_eq in E. subst. now left.
  - intros Hget. right. now apply IH.
Qed.

Lemma In_dict_mem (k : K) (v : V) (d : dict K V) :
  In (k, v) d -> dict_mem k d = true.
Proof.
  unfold dict_mem.
  induction d as [|[k' v'] rest IH]; simpl; [contradiction|].
  intros [[= -> ->]|Hin].
  - now rewrite key_eqb_refl.
  - destruct (key_eqb k k'); [reflexivity|]. now apply IH.
Qed.

Lemma dict_mem_keys (k : K) (d : dict K V) :
  dict_mem k d = true <-> In k (dict_keys d).
Proof.
  unfold dict_mem, dict_keys. split.
  - destruct (dict_get k d) as [v|] eqn:E; [|discriminate].
    intros _. apply dict_get_In in E. now apply (in_map fst) in E.
  - intros Hin. apply in_map_iff in Hin as [[k' v] [Hk Hin]].
    simpl in Hk. subst. now apply In_dict_mem in Hin.
Qed.

Lemma dict_get_set (k k' : K) (v : V) (d : dict K V) :
  dict_get k' (dict_set k v d)
  = if key_eqb k' k then Some v else dict_get k' d.
Proof.
  induction d as [|[k0 v0] rest IH]; simpl.
  - reflexivity.
  - destruct (key_eqb k k0) eqn:E; simpl.
    + apply key_eqb_eq in E. subst. now destruct (key_eqb k' k0).
    + rewrite IH. destruct (key_eqb k' k0) eqn:E0; [|reflexivity].
      apply key_eqb_eq in E0. subst.
      destruct (key_eqb k0 k) eqn:E1; [|reflexivity].
      apply key_eqb_eq in E1. subst. now rewrite key_eqb_refl in E.
Qed.

Lemma dict_mem_set (k k' : K) (v : V) (d : dict K V) :
  dict_mem k' (dict_set k v d) = (key_eqb k' k || dict_mem k' d)%bool.
Proof.
  unfold dict_mem. rewrite dict_get_set. now destruct (key_eqb k' k).
Qed.

Lemma In_dict_set (k k0 : K) (v v0 : V) (d : dict K V) :
  In (k, v) (dict_set k0 v0 d) -> (k, v) = (k0, v0) \/ In (k, v) d.
Proof.
  induction d as [|[k' v'] rest IH]; simpl.
  - intros [[= <- <-]|[]]. now left.
  - destruct (key_eqb k0 k') eqn:E; simpl.
    + apply key_eqb_eq in E. subst.
      intros [[= <- <-]|Hin]; [now left | right; now right].
    + intros [Heq|Hin]; [right; now left|].
      destruct (IH Hin) as [Heq|Hin']; [now left | right; now right].
Qed.

Lemma In_fold_dict_set (items : list (K * V)) :
  forall (acc : dict K V) k v,
    In (k, v) (fold_left (fun acc kv => dict_set (fst kv) (snd kv) acc) items acc) ->
    In (k, v) items \/ In (k, v) acc.
Proof.
  induction items as [|[k0 v0] rest IH]; simpl; intros acc k v Hin.
  - now right.
  - destruct (IH _ _ _ Hin) as [Hrest|Hacc]; [left; now right|].
    destruct (In_dict_set _ _ _ _ _ Hacc) as [Heq|Hacc'].
    + left. left. now symmetry.
    + now right.
Qed.

Lemma In_dict_of_items (items : list (K * V)) k v :
  In (k, v) (dict_of_items items) -> In (k, v) items.
Proof.
  unfold dict_of_items. intros Hin.
  destruct (In_fold_dict_set _ _ _ _ Hin) as [Hitems|[]]. exact Hitems.
Qed.

End DictFacts.

(* ===================================================================== *)
(** ** The include filter                                                 *)
(* ===================================================================== *)

Lemma filtered_groups_subset ws include k g :
  In (k, g) (snd (GroupMigrationStrategy.get_filtered_groups ws include)) ->
  In (k, g) ws.
Proof.
  unfold GroupMigrationStrategy.get_filtered_groups.
  destruct (negb (truthy_list include)); simpl; [trivial|].
  intros Hin. apply In_dict_of_items in Hin.
  now apply filter_In in Hin.
Qed.

(** C10. An include list that is present but empty is falsy, so every
    strategy treats it exactly like an absent one: the filter returns the
    whole workspace map, and the four generators produce the same output
    as without a filter.  In the data-eng scenario the empty list lets the
    group through, where a list that names another group filters it out. *)
Theorem empty_include_list_is_no_filter :
  forall (re_search : string -> string -> res (option Match))
         (re_sub : string -> string -> string -> res string)
         (json_dumps : list ComplexValue -> string)
         (ws acct : dict string Group) (prefix regex replace acct_regex : string),
    GroupMigrationStrategy.get_filtered_groups ws (Some [])
      = GroupMigrationStrategy.get_filtered_groups ws None
    /\ snd (GroupMigrationStrategy.get_filtered_groups ws (Some [])) = ws
    /\ MatchingNamesStrategy.generate_migrated_groups json_dumps acct prefix ws (Some [])
       = MatchingNamesStrategy.generate_migrated_groups json_dumps acct prefix ws None
    /\ MatchByExternalIdStrategy.generate_migrated_groups json_dumps prefix ws acct (Some [])
       = MatchByExternalIdStrategy.generate_migrated_groups json_dumps prefix ws acct None
    /\ RegexSubStrategy.generate_migrated_groups re_sub json_dumps acct prefix regex replace
         ws (Some [])
       = RegexSubStrategy.generate_migrated_groups re_sub json_dumps acct prefix regex replace
           ws None
    /\ RegexMatchStrategy.generate_migrated_groups re_search json_dumps prefix ws acct
         (Some []) regex acct_regex
       = RegexMatchStrategy.generate_migrated_groups re_search json_dumps prefix ws acct
           None regex acct_regex
    /\ yielded (MatchingNamesStrategy.generate_migrated_groups json_dumps
                  data_eng_account "ucx-renamed-" data_eng_workspace (Some []))
       = [data_eng_correspondence]
    /\ yielded (MatchingNamesStrategy.generate_migrated_groups json_dumps
                  data_eng_account "ucx-renamed-" data_eng_workspace (Some ["sales"]))
       = [].
Proof.
  intros re_search re_sub json_dumps ws acct prefix regex replace acct_regex.
  assert (Hfilter : GroupMigrationStrategy.get_filtered_groups ws (Some [])
                    = GroupMigrationStrategy.get_filtered_groups ws None).
  { unfold GroupMigrationStrategy.get_filtered_groups. reflexivity. }
  split; [exact Hfilter|].
  split; [reflexivity|].
  unfold MatchingNamesStrategy.generate_migrated_groups,
    MatchByExternalIdStrategy.generate_migrated_groups,
    RegexSubStrategy.generate_migrated_groups,
    RegexMatchStrategy.generate_migrated_groups.
  rewrite Hfilter.
  repeat split; reflexivity.
Qed.

(* ===================================================================== *)
(** ** Exact-name strategy                                                *)
(* ===================================================================== *)

Lemma matching_names_loop_yields json_dumps acct prefix gs mg :
  In mg (yielded (MatchingNamesStrategy.loop json_dumps acct prefix gs)) ->
  exists g name,
    In g gs /\ display_name g = Some name
    /\ dict_mem name acct = true
    /\ id_in_workspace mg = id g
    /\ name_in_workspace mg = Some name
    /\ name_in_account mg = Some name
    /\ temporary_name mg = prefix +:+ name.
Proof.
  induction gs as [|g rest IH]; simpl; [contradiction|].
  destruct (dict_get_opt (display_name g) acct) as [account_group|] eqn:Hget; simpl.
  - intros [<-|Hin].
    + destruct (display_name g) as [name|] eqn:Hname; [|discriminate].
      exists g, name. simpl in Hget. unfold dict_mem. rewrite Hget.
      simpl. rewrite Hname. repeat split; auto.
    + destruct (IH Hin) as (g' & name & Hg' & Hrest).
      exists g', name. split; [now right | exact Hrest].
  - intros Hin. destruct (IH Hin) as (g' & name & Hg' & Hrest).
    exists g', name. split; [now right | exact Hrest].
Qed.

Lemma yielded_gen_logs logs k : yielded (gen_logs logs k) = yielded k.
Proof. reflexivity. Qed.

Lemma raised_gen_logs logs k : raised (gen_logs logs k) = raised k.
Proof. reflexivity. Qed.

(** C7. Whatever the two maps, the prefix and the include filter, every
    correspondence the Exact-name strategy yields has
    [name_in_workspace = name_in_account = name] for a name that is a key of
    the account map and the display name of a group held in the workspace
    map (hence a key of the workspace map whenever that map is keyed by
    display name, as every listing of [GroupManager] is), with
    [temporary_name = prefix + name].  On workspace groups {data-eng},
    account groups {data-eng} and prefix ucx-renamed- it yields exactly the
    one correspondence data-eng / data-eng / ucx-renamed-data-eng. *)
Theorem exact_name_strategy_pairs_identical_names :
  (forall (json_dumps : list ComplexValue -> string)
          (ws acct : dict string Group) (prefix : string)
          (include : option (list string)) (mg : MigratedGroup),
      In mg (yielded (MatchingNamesStrategy.generate_migrated_groups
                        json_dumps acct prefix ws include)) ->
      exists name,
        name_in_workspace mg = Some name
        /\ name_in_account mg = Some name
        /\ temporary_name mg = prefix +:+ name
        /\ dict_mem name acct = true
        /\ (exists g, In g (dict_values ws) /\ display_name g = Some name)
        /\ (keyed_by_display_name ws -> dict_mem name ws = true))
  /\ (forall json_dumps : list ComplexValue -> string,
        yielded (MatchingNamesStrategy.generate_migrated_groups
                   json_dumps data_eng_account "ucx-renamed-" data_eng_workspace None)
        = [ {| id_in_workspace := "101";
               name_in_workspace := Some "data-eng";
               name_in_account := Some "data-eng";
               temporary_name := "ucx-renamed-data-eng";
               mg_members := None;
               mg_entitlements := None;
               mg_external_id := None;
               mg_roles := None |} ]).
Proof.
  split; [|reflexivity].
  intros json_dumps ws acct prefix include mg.
  unfold MatchingNamesStrategy.generate_migrated_groups.
  destruct (GroupMigrationStrategy.get_filtered_groups ws include)
    as [logs filtered] eqn:Hf.
  rewrite yielded_gen_logs. intros Hin.
  apply matching_names_loop_yields in Hin
    as (g & name & Hg & Hname & Hacct & _ & Hnw & Hna & Htmp).
  exists name. repeat split; auto.
  - unfold dict_values in Hg. apply in_map_iff in Hg as [[k g'] [Heq Hin]].
    simpl in Heq. subst g'.
    exists g. split; [|exact Hname].
    unfold dict_values. apply in_map_iff. exists (k, g). split; [reflexivity|].
    apply filtered_groups_subset with (include := include). now rewrite Hf.
  - intros Hkeyed.
    unfold dict_values in Hg. apply in_map_iff in Hg as [[k g'] [Heq Hin]].
    simpl in Heq. subst g'.
    assert (Hws : In (k, g) ws).
    { apply filtered_groups_subset with (include := include). now rewrite Hf. }
    unfold keyed_by_display_name in Hkeyed.
    rewrite Forall_forall in Hkeyed. specialize (Hkeyed _ Hws). simpl in Hkeyed.
    assert (k = name) by congruence. subst k.
    now apply In_dict_mem in Hws.
Qed.

Lemma exact_name_strategy_example :
  exists name,
    name_in_workspace
      {| id_in_workspace := "101"; name_in_workspace := Some "data-eng";
         name_in_account := Some "data-eng";
         temporary_name := "ucx-renamed-data-eng";
         mg_members := None; mg_entitlements := None;
         mg_external_id := None; mg_roles := None |} = Some name
    /\ dict_mem name data_eng_account = true
    /\ dict_mem name data_eng_workspace = true.
Proof.
  destruct (proj1 exact_name_strategy_pairs_identical_names
              LiteralRegex.json_dumps data_eng_workspace data_eng_account
              "ucx-renamed-" None
              {| id_in_workspace := "101"; name_in_workspace := Some "data-eng";
                 name_in_account := Some "data-eng";
                 temporary_name := "ucx-renamed-data-eng";
                 mg_members := None; mg_entitlements := None;
                 mg_external_id := None; mg_roles := None |})
    as (name & Hw & _ & _ & Ha & _ & Hk).
  - simpl. left. reflexivity.
  - exists name. split; [exact Hw|]. split; [exact Ha|].
    apply Hk. repeat constructor.
Defined.

(* ===================================================================== *)
(** ** The safe regex helpers                                             *)
(* ===================================================================== *)

(** C8. The key [_safe_match] derives from a group name: the first capture
    group when the match has capture groups, else the whole matched text,
    else the name itself when the regex is invalid ([re.error]) or does not
    match.  Hence a name that neither the workspace regex nor the account
    regex matches is its own key on both sides, and the Regex-match strategy
    indexes its group under that name. *)
Theorem safe_match_key_derivation :
  forall (re_search : string -> string -> res (option Match))
         (group_name match_re : string),
    (forall m first others,
        re_search match_re group_name = Val (Some m) ->
        capture_groups m = first :: others ->
        GroupMigrationStrategy._safe_match re_search group_name match_re = Val first)
    /\ (forall m,
        re_search match_re group_name = Val (Some m) ->
        capture_groups m = [] ->
        GroupMigrationStrategy._safe_match re_search group_name match_re
        = Val (Some (whole m)))
    /\ (re_search match_re group_name = Val None
        \/ re_search match_re group_name = Raise re_error ->
        GroupMigrationStrategy._safe_match re_search group_name match_re
        = Val (Some group_name))
    /\ (forall account_re group,
        re_search match_re group_name = Val None ->
        re_search account_re group_name = Val None ->
        GroupMigrationStrategy._safe_match re_search group_name match_re
        = Val (Some group_name)
        /\ GroupMigrationStrategy._safe_match re_search group_name account_re
           = Val (Some group_name)
        /\ RegexMatchStrategy.index_by_match re_search match_re
             [(group_name, group)] []
           = Val [(Some group_name, group)]
        /\ RegexMatchStrategy.index_by_match re_search account_re
             [(group_name, group)] []
           = Val [(Some group_name, group)]).
Proof.
  intros re_search group_name match_re.
  unfold GroupMigrationStrategy._safe_match.
  repeat split.
  - intros m first others -> ->. reflexivity.
  - intros m -> ->. reflexivity.
  - intros [-> | ->]; reflexivity.
  - now rewrite H.
  - now rewrite H0.
  - simpl. unfold GroupMigrationStrategy._safe_match. now rewrite H.
  - simpl. unfold GroupMigrationStrategy._safe_match. now rewrite H0.
Qed.

Lemma safe_match_key_examples :
  GroupMigrationStrategy._safe_match LiteralRegex.re_search "data-eng" "(eng)"
  = Val (Some "eng")
  /\ GroupMigrationStrategy._safe_match LiteralRegex.re_search "data-eng" "data"
     = Val (Some "data")
  /\ GroupMigrationStrategy._safe_match LiteralRegex.re_search "data-eng" "ops"
     = Val (Some "data-eng")
  /\ GroupMigrationStrategy._safe_match LiteralRegex.re_search "data-eng" "("
     = Val (Some "data-eng")
  /\ RegexMatchStrategy.index_by_match LiteralRegex.re_search "ops"
       [("data-eng", Directory.workspace_group "101" "data-eng")] []
     = Val [(Some "data-eng", Directory.workspace_group "101" "data-eng")].
Proof.
  split; [|split; [|split; [|split]]].
  - apply (proj1 (safe_match_key_derivation LiteralRegex.re_search
                    "data-eng" "(eng)")
             {| whole := "eng"; capture_groups := [Some "eng"] |}
             (Some "eng") []); reflexivity.
  - apply (proj1 (proj2 (safe_match_key_derivation LiteralRegex.re_search
                           "data-eng" "data"))
             {| whole := "data"; capture_groups := [] |}); reflexivity.
  - apply (proj1 (proj2 (proj2 (safe_match_key_derivation LiteralRegex.re_search
                                  "data-eng" "ops")))).
    left. reflexivity.
  - apply (proj1 (proj2 (proj2 (safe_match_key_derivation LiteralRegex.re_search
                                  "data-eng" "(")))).
    right. reflexivity.
  - apply (proj2 (proj2 (proj2 (safe_match_key_derivation LiteralRegex.re_search
                                  "data-eng" "ops")))
             "sales" (Directory.workspace_group "101" "data-eng"));
      reflexivity.
Defined.

(** C9, as stated, fails: the helpers catch [re.error] only.  For a
    replacement that refers to a group the pattern does not have, [re.sub]
    raises [IndexError] once the pattern has compiled, and [_safe_sub]
    raises it to its caller without a warning. *)
Lemma safe_sub_raises_for_unknown_group :
  GroupMigrationStrategy._safe_sub LiteralRegex.re_sub "data-eng" "eng" "\g<team>"
  = ([], Raise (IndexError "unknown group name 'team'")).
Proof. reflexivity. Qed.

(** C9, amended.  The two helpers catch [re.error]: when the substitution
    raises it, [_safe_sub] logs one warning and returns the name unchanged;
    when the match raises it or finds nothing, [_safe_match] returns the
    name as the key.  Where the regex library signals a malformed
    expression by [re.error], neither helper raises, whatever the name, the
    pattern and the replacement; [re.error] is the only exception they
    catch, one of another class passes through. *)
Theorem safe_regex_helpers_never_raise :
  forall (re_search : string -> string -> res (option Match))
         (re_sub : string -> string -> string -> res string)
         (group_name match_re replace : string),
    (re_sub match_re replace group_name = Raise re_error ->
     GroupMigrationStrategy._safe_sub re_sub group_name match_re replace
     = ([(WARNING, "Failed to apply Regex Expression " +:+ match_re
                   +:+ " on Group Name " +:+ group_name)],
        Val group_name))
    /\ (re_search match_re group_name = Raise re_error
        \/ re_search match_re group_name = Val None ->
        GroupMigrationStrategy._safe_match re_search group_name match_re
        = Val (Some group_name))
    /\ ((forall e, re_sub match_re replace group_name = Raise e -> e = re_error) ->
        exists logs s,
          GroupMigrationStrategy._safe_sub re_sub group_name match_re replace
          = (logs, Val s))
    /\ ((forall e, re_search match_re group_name = Raise e -> e = re_error) ->
        exists key,
          GroupMigrationStrategy._safe_match re_search group_name match_re
          = Val key)
    /\ (forall e, e <> re_error ->
          (re_sub match_re replace group_name = Raise e ->
           snd (GroupMigrationStrategy._safe_sub re_sub group_name match_re replace)
           = Raise e)
          /\ (re_search match_re group_name = Raise e ->
              GroupMigrationStrategy._safe_match re_search group_name match_re
              = Raise e)).
Proof.
  intros re_search re_sub group_name match_re replace.
  unfold GroupMigrationStrategy._safe_sub, GroupMigrationStrategy._safe_match.
  repeat split.
  - intros ->. reflexivity.
  - intros [-> | ->]; reflexivity.
  - intros Honly.
    destruct (re_sub match_re replace group_name) as [s|e] eqn:E.
    + now exists [], s.
    + rewrite (Honly e eq_refl). eexists _, _. reflexivity.
  - intros Honly.
    destruct (re_search match_re group_name) as [[m|]|e] eqn:E.
    + destruct (capture_groups m); eexists; reflexivity.
    + eexists; reflexivity.
    + rewrite (Honly e eq_refl). eexists; reflexivity.
  - intros ->. destruct e; try reflexivity. contradiction.
  - intros ->. destruct e; try reflexivity. contradiction.
Qed.

Lemma safe_regex_helpers_examples :
  GroupMigrationStrategy._safe_sub LiteralRegex.re_sub "data-eng" "(" "corp-"
  = ([(WARNING, "Failed to apply Regex Expression ( on Group Name data-eng")],
     Val "data-eng")
  /\ GroupMigrationStrategy._safe_match LiteralRegex.re_search "data-eng" "("
     = Val (Some "data-eng")
  /\ (exists logs s,
        GroupMigrationStrategy._safe_sub LiteralRegex.re_sub "data-eng" "(" "corp-"
        = (logs, Val s))
  /\ (exists key,
        GroupMigrationStrategy._safe_match LiteralRegex.re_search "data-eng" "("
        = Val key).
Proof.
  pose proof (safe_regex_helpers_never_raise LiteralRegex.re_search
                LiteralRegex.re_sub "data-eng" "(" "corp-")
    as (Hsub & Hmatch & Htotal_sub & Htotal_match & _).
  split; [|split; [|split]].
  - apply Hsub. reflexivity.
  - apply Hmatch. left. reflexivity.
  - apply Htotal_sub. intros e He. vm_compute in He. congruence.
  - apply Htotal_match. intros e He. vm_compute in He. congruence.
Defined.

(* ===================================================================== *)
(** ** Regex-substitute strategy                                          *)
(* ===================================================================== *)

Section RegexSubFacts.
Variable re_sub : string -> string -> string -> res string.
Variable json_dumps : list ComplexValue -> string.
Variable acct : dict string Group.
Variables prefix regex replace : string.

Let loop := RegexSubStrategy.loop re_sub json_dumps acct prefix regex replace.

Lemma regex_sub_loop_matched_prefix before rest :
  (forall g, In g before ->
     exists t, derived_name re_sub regex replace g = Some t
               /\ dict_mem t acct = true) ->
  raised (loop (before ++ rest)) = raised (loop rest)
  /\ map id_in_workspace (yielded (loop (before ++ rest)))
     = map id before ++ map id_in_workspace (yielded (loop rest))
  /\ map name_in_workspace (yielded (loop (before ++ rest)))
     = map display_name before ++ map name_in_workspace (yielded (loop rest))
  /\ (forall l, In l (logged (loop (before ++ rest))) ->
        fst l = WARNING \/ In l (logged (loop rest))).
Proof.
  subst loop.
  induction before as [|g before IH]; intros Hmatched.
  - simpl. repeat split; auto.
  - destruct IH as (IHr & IHi & IHn & IHl).
    { intros g' Hg'. apply Hmatched. now right. }
    destruct (Hmatched g (or_introl eq_refl)) as (t & Hd & Hmem).
    unfold derived_name in Hd.
    simpl app. simpl RegexSubStrategy.loop.
    destruct (display_name g) as [name|] eqn:Hname; [|discriminate].
    unfold GroupMigrationStrategy._safe_sub in *.
    unfold dict_subscript. unfold dict_mem in Hmem.
    destruct (re_sub regex replace name) as [s|e] eqn:Hsub.
    + simpl in Hd. injection Hd as ->.
      destruct (dict_get t acct) as [ag|]; [|discriminate].
      simpl. repeat split; auto; try (f_equal; assumption).
    + destruct e; simpl in Hd; try discriminate.
      injection Hd as ->.
      destruct (dict_get t acct) as [ag|]; [|discriminate].
      simpl. repeat split; auto; try (f_equal; assumption).
      intros l [<-|Hl]; [now left | auto].
Qed.

Lemma regex_sub_loop_key_error g rest target :
  derived_name re_sub regex replace g = Some target ->
  dict_mem target acct = false ->
  raised (loop (g :: rest)) = Some (KeyError target)
  /\ yielded (loop (g :: rest)) = []
  /\ (forall l, In l (logged (loop (g :: rest))) -> fst l = WARNING).
Proof.
  subst loop. unfold derived_name. simpl.
  destruct (display_name g) as [name|]; [|discriminate].
  unfold GroupMigrationStrategy._safe_sub, dict_subscript, dict_mem.
  destruct (re_sub regex replace name) as [s|e] eqn:Hsub.
  - simpl. intros [= ->] Hmem.
    destruct (dict_get target acct); [discriminate|].
    simpl. repeat split; auto. intros l [].
  - destruct e; simpl; try discriminate.
    intros [= ->] Hmem.
    destruct (dict_get target acct); [discriminate|].
    simpl. repeat split; auto. intros l [<-|[]]. reflexivity.
Qed.

End RegexSubFacts.

(** C3. When the Regex-substitute strategy derives, for a workspace group,
    a target name that is not among the account groups, the generator ends
    with the [KeyError] of the failed account-group lookup: the group is not
    skipped and no skip is logged (the only info record is the one of the
    include filter), nothing is produced for it or for any group after it,
    and the correspondences of the matched groups before it have been
    yielded. *)
Theorem regex_sub_unmatched_target_raises :
  forall (re_sub : string -> string -> string -> res string)
         (json_dumps : list ComplexValue -> string)
         (ws acct : dict string Group) (include : option (list string))
         (prefix regex replace : string)
         (before after : list Group) (g : Group) (target : string),
    dict_values (snd (GroupMigrationStrategy.get_filtered_groups ws include))
    = before ++ g :: after ->
    (forall g', In g' before ->
       exists t, derived_name re_sub regex replace g' = Some t
                 /\ dict_mem t acct = true) ->
    derived_name re_sub regex replace g = Some target ->
    dict_mem target acct = false ->
    let out := RegexSubStrategy.generate_migrated_groups re_sub json_dumps acct
                 prefix regex replace ws include in
    raised out = Some (KeyError target)
    /\ map id_in_workspace (yielded out) = map id before
    /\ map name_in_workspace (yielded out) = map display_name before
    /\ (forall l, In l (logged out) -> fst l = WARNING \/ is_filter_log l).
Proof.
  intros re_sub json_dumps ws acct include prefix regex replace
         before after g target Hvalues Hbefore Hg Hmiss out.
  subst out. unfold RegexSubStrategy.generate_migrated_groups.
  destruct (GroupMigrationStrategy.get_filtered_groups ws include)
    as [logs filtered] eqn:Hf.
  simpl in Hvalues. rewrite Hvalues.
  destruct (@regex_sub_loop_matched_prefix re_sub json_dumps acct prefix regex replace
              before (g :: after) Hbefore) as (Hr & Hi & Hn & Hl).
  destruct (@regex_sub_loop_key_error re_sub json_dumps acct prefix regex replace
              g after target Hg Hmiss) as (Kr & Ky & Kl).
  rewrite raised_gen_logs, yielded_gen_logs.
  rewrite Hr, Hi, Hn, Kr, Ky. simpl. rewrite !app_nil_r.
  repeat split; auto.
  intros l Hin. apply in_app_or in Hin as [Hin|Hin].
  - right. unfold GroupMigrationStrategy.get_filtered_groups in Hf.
    destruct (negb (truthy_list include)); injection Hf as <- _;
      destruct Hin as [<-|[]]; [now left | now right].
  - destruct (Hl l Hin) as [Hw|Hin']; [now left|]. left. now apply Kl.
Qed.

(** The scenario of the specification: pattern [^], replacement corp-,
    workspace groups ops (with account group corp-ops) and data-eng
    (without account group corp-data-eng). *)
Lemma regex_sub_unmatched_target_example :
  raised corp_prefix_output = Some (KeyError "corp-data-eng")
  /\ map id_in_workspace (yielded corp_prefix_output) = ["100"]
  /\ map name_in_workspace (yielded corp_prefix_output) = [Some "ops"]
  /\ (forall l, In l (logged corp_prefix_output) ->
        fst l = WARNING \/ is_filter_log l).
Proof.
  unfold corp_prefix_output.
  apply (@regex_sub_unmatched_target_raises LiteralRegex.re_sub
           LiteralRegex.json_dumps ops_and_data_eng_workspace corp_account None
           "ucx-renamed-" "^" "corp-"
           [Directory.workspace_group "100" "ops"]
           [Directory.workspace_group "102" "sales"]
           (Directory.workspace_group "101" "data-eng") "corp-data-eng").
  - reflexivity.
  - intros g' [<-|[]]. exists "corp-ops". split; reflexivity.
  - reflexivity.
  - reflexivity.
Defined.

(* ===================================================================== *)
(** ** Delete phase: what is scheduled                                    *)
(* ===================================================================== *)

Lemma delete_tasks_sound ws acct snapshot j :
  In j (snd (GroupManager.delete_tasks ws acct snapshot)) ->
  exists mg,
    In mg snapshot
    /\ j = DeleteWorkspaceGroup (id_in_workspace mg) (temporary_name mg)
    /\ dict_mem (temporary_name mg) ws = true
    /\ dict_mem_opt (name_in_account mg) acct = true.
Proof.
  induction snapshot as [|mg rest IH]; simpl; [contradiction|].
  destruct (GroupManager.delete_tasks ws acct rest) as [logs tasks] eqn:E.
  simpl in IH.
  destruct (dict_mem (temporary_name mg) ws) eqn:Htmp; simpl.
  - destruct (dict_mem_opt (name_in_account mg) acct) eqn:Hacc; simpl.
    + intros [<-|Hin].
      * exists mg. repeat split; auto.
      * destruct (IH Hin) as (mg' & Hmg' & Hrest).
        exists mg'. split; [now right | exact Hrest].
    + intros Hin. destruct (IH Hin) as (mg' & Hmg' & Hrest).
      exists mg'. split; [now right | exact Hrest].
  - intros Hin. destruct (IH Hin) as (mg' & Hmg' & Hrest).
    exists mg'. split; [now right | exact Hrest].
Qed.

Lemma delete_tasks_none_visible ws acct snapshot :
  (forall mg, In mg snapshot -> dict_mem_opt (name_in_account mg) acct = false) ->
  snd (GroupManager.delete_tasks ws acct snapshot) = [].
Proof.
  intros Hnone.
  destruct (snd (GroupManager.delete_tasks ws acct snapshot)) as [|j tasks] eqn:E;
    [reflexivity|].
  assert (Hin : In j (snd (GroupManager.delete_tasks ws acct snapshot)))
    by (rewrite E; now left).
  apply delete_tasks_sound in Hin as (mg & Hmg & _ & _ & Hvis).
  rewrite (Hnone mg Hmg) in Hvis. discriminate.
Qed.

(** The mutating calls a job sends to the in-memory directory. *)
Section DirectoryJournal.
Import Directory.
Variable retry_budget : nat.

Lemma mutating_journal c effect d r d' :
  (forall d0 r0 d1, effect d0 = (r0, d1) -> journal d1 = journal d0) ->
  mutating c effect d = (r, d') ->
  journal d' = journal d ++ [c].
Proof.
  intros Heffect. unfold mutating.
  destruct (faults d) as [|e pending].
  - intros Hrun. now rewrite (Heffect _ _ _ Hrun).
  - intros [= _ <-]. reflexivity.
Qed.

Lemma delete_journal group_id d r d' :
  delete group_id d = (r, d') -> journal d' = journal d ++ [Delete group_id].
Proof.
  apply mutating_journal. intros d0 r0 d1.
  destruct (existsb (has_id group_id) (workspace d0)); intros [= _ <-]; reflexivity.
Qed.

Lemma retried_journal {A} (on : exn -> bool) (timeout : string)
  (c : remote_call) (f : op t A) :
  (forall d logs r d', f d = (logs, r, d') -> journal d' = journal d ++ [c]) ->
  forall budget d logs r d',
    retried on timeout budget f d = (logs, r, d') ->
    exists n, journal d' = journal d ++ repeat c n.
Proof.
  intros Hf. induction budget as [|budget IH]; intros d logs r d'; simpl.
  - destruct (f d) as [[l0 r0] d0] eqn:E. apply Hf in E.
    destruct r0 as [a|e]; [|destruct (retryable on e)];
      intros [= _ _ <-]; exists 1; exact E.
  - destruct (f d) as [[l0 r0] d0] eqn:E. apply Hf in E.
    destruct r0 as [a|e].
    + intros [= _ _ <-]. exists 1. exact E.
    + destruct (retryable on e).
      * destruct (retried on timeout budget f d0) as [[l1 r1] d1] eqn:E1.
        intros [= _ _ <-]. apply IH in E1 as [n Hn].
        exists (S n). rewrite Hn, E. now rewrite <- app_assoc.
      * intros [= _ _ <-]. exists 1. exact E.
Qed.

Lemma delete_job_journal group_id name d logs r d' :
  GroupManager._delete_workspace_group client retry_budget group_id name d
  = (logs, r, d') ->
  exists n, journal d' = journal d ++ repeat (Delete group_id) n.
Proof.
  unfold GroupManager._delete_workspace_group, rate_limited.
  apply retried_journal.
  intros d0 l0 r0 d1. unfold GroupManager._delete_workspace_group_body. simpl.
  destruct (delete group_id d0) as [r1 d2] eqn:E. apply delete_journal in E.
  destruct r1 as [u|e]; [|destruct (class_of e)]; intros [= _ _ <-]; exact E.
Qed.

Lemma gather_delete_journal tasks :
  (forall j, In j tasks -> exists gid n, j = DeleteWorkspaceGroup gid n) ->
  forall d logs out d',
    Threads.gather (GroupManager.run_job client retry_budget) tasks d
    = (logs, out, d') ->
    exists calls,
      journal d' = journal d ++ calls
      /\ forall c, In c calls ->
           exists j, In j tasks /\ c = Delete (job_group_id j).
Proof.
  induction tasks as [|j rest IH]; intros Hall d logs out d'; simpl.
  - intros [= _ _ <-]. exists []. split; [now rewrite app_nil_r | intros c []].
  - destruct (Hall j (or_introl eq_refl)) as (gid & n & ->).
    simpl GroupManager.run_job.
    destruct (GroupManager._delete_workspace_group client retry_budget gid n d)
      as [[l0 r0] d0] eqn:E0.
    destruct (Threads.gather (GroupManager.run_job client retry_budget) rest d0)
      as [[l1 [succ errs]] d1] eqn:E1.
    apply delete_job_journal in E0 as [k Hk].
    apply IH in E1 as (calls & Hcalls & Hin); [|intros j' Hj'; apply Hall; now right].
    intros Hrun.
    assert (d' = d1) by (destruct r0; now injection Hrun). subst d'.
    exists (repeat (Delete gid) k ++ calls). split.
    + rewrite Hcalls, Hk. now rewrite app_assoc.
    + intros c Hc. apply in_app_or in Hc as [Hc|Hc].
      * apply repeat_spec in Hc. subst c.
        exists (DeleteWorkspaceGroup gid n). split; [now left | reflexivity].
      * destruct (Hin c Hc) as (j' & Hj' & ->).
        exists j'. split; [now right | reflexivity].
Qed.

End DirectoryJournal.

(** C1. Whatever the persisted snapshot and the two listings, a deletion is
    scheduled for a correspondence only if its [temporary_name] is in the
    workspace listing and its [name_in_account] is in the listing of the
    account groups visible in the workspace.  Run against the in-memory
    directory, every delete call the phase sends is for such a
    correspondence; and with any client, when no correspondence has its
    account group visible in the workspace, the phase returns without
    having touched the directory. *)
Theorem delete_only_after_reflect :
  (forall (ws acct : dict string Group) (snapshot : list MigratedGroup) (j : job),
      In j (snd (GroupManager.delete_tasks ws acct snapshot)) ->
      exists mg,
        In mg snapshot
        /\ j = DeleteWorkspaceGroup (id_in_workspace mg) (temporary_name mg)
        /\ dict_mem (temporary_name mg) ws = true
        /\ dict_mem_opt (name_in_account mg) acct = true)
  /\ (forall (retry_budget : nat) (snapshot : list MigratedGroup)
             (d d' : Directory.t) logs result,
        GroupManager.delete_original_workspace_groups
          Directory.client retry_budget snapshot d = (logs, result, d') ->
        exists calls,
          Directory.journal d' = Directory.journal d ++ calls
          /\ forall c, In c calls ->
               exists mg,
                 In mg snapshot
                 /\ c = Directory.Delete (id_in_workspace mg)
                 /\ dict_mem (temporary_name mg)
                      (snd (GroupManager._workspace_groups_in_workspace
                              Directory.client d)) = true
                 /\ dict_mem_opt (name_in_account mg)
                      (snd (GroupManager._account_groups_in_workspace
                              Directory.client d)) = true)
  /\ (forall (W : Type) (client : WorkspaceClient W) (retry_budget : nat)
             (snapshot : list MigratedGroup) (w : W),
        (forall mg, In mg snapshot ->
           dict_mem_opt (name_in_account mg)
             (snd (GroupManager._account_groups_in_workspace client w)) = false) ->
        snd (fst (GroupManager.delete_original_workspace_groups
                    client retry_budget snapshot w)) = Returned
        /\ snd (GroupManager.delete_original_workspace_groups
                  client retry_budget snapshot w) = w).
Proof.
  split; [|split].
  - intros ws acct snapshot j. apply delete_tasks_sound.
  - intros retry_budget snapshot d d' logs result.
    unfold GroupManager.delete_original_workspace_groups.
    destruct (GroupManager._workspace_groups_in_workspace Directory.client d)
      as [l1 ws].
    destruct (GroupManager._account_groups_in_workspace Directory.client d)
      as [l2 acct].
    destruct (GroupManager.delete_tasks ws acct snapshot) as [l3 tasks] eqn:Et.
    unfold GroupManager.gather_and_raise.
    destruct (Threads.gather (GroupManager.run_job Directory.client retry_budget)
                tasks d) as [[l4 [succ errs]] d1] eqn:Eg.
    intros Hrun.
    assert (d' = d1) by (destruct errs; now injection Hrun). subst d'.
    assert (Hsound : forall j, In j tasks ->
              exists mg, In mg snapshot
                /\ j = DeleteWorkspaceGroup (id_in_workspace mg) (temporary_name mg)
                /\ dict_mem (temporary_name mg) ws = true
                /\ dict_mem_opt (name_in_account mg) acct = true).
    { intros j Hj. apply delete_tasks_sound. now rewrite Et. }
    apply gather_delete_journal in Eg as (calls & Hcalls & Hin).
    + exists calls. split; [exact Hcalls|].
      intros c Hc. destruct (Hin c Hc) as (j & Hj & ->).
      destruct (Hsound j Hj) as (mg & Hmg & -> & Htmp & Hacc).
      exists mg. simpl. repeat split; auto.
    + intros j Hj. destruct (Hsound j Hj) as (mg & _ & -> & _). eauto.
  - intros W client retry_budget snapshot w Hnone.
    unfold GroupManager.delete_original_workspace_groups.
    destruct (GroupManager._workspace_groups_in_workspace client w) as [l1 ws].
    destruct (GroupManager._account_groups_in_workspace client w) as [l2 acct].
    simpl in Hnone.
    pose proof (delete_tasks_none_visible ws acct snapshot Hnone) as Hempty.
    destruct (GroupManager.delete_tasks ws acct snapshot) as [l3 tasks].
    simpl in Hempty. subst tasks. simpl. split; reflexivity.
Qed.

(** After the rename and before the reflect nothing is deleted; after the
    reflect the renamed group is scheduled for deletion. *)
Lemma delete_only_after_reflect_example :
  snd (GroupManager.delete_original_workspace_groups Directory.client 3
         [data_eng_correspondence] directory_after_rename)
  = directory_after_rename
  /\ exists mg,
       In mg [data_eng_correspondence]
       /\ dict_mem (temporary_name mg)
            (snd (GroupManager._workspace_groups_in_workspace Directory.client
                    directory_after_reflect)) = true
       /\ dict_mem_opt (name_in_account mg)
            (snd (GroupManager._account_groups_in_workspace Directory.client
                    directory_after_reflect)) = true
       /\ exists calls,
            Directory.journal
              (snd (GroupManager.delete_original_workspace_groups Directory.client 3
                      [data_eng_correspondence] directory_after_reflect))
            = Directory.journal directory_after_reflect ++ calls
            /\ forall c, In c calls -> c = Directory.Delete (id_in_workspace mg).
Proof.
  destruct delete_only_after_reflect as (Htasks & Hjournal & Hnone).
  split.
  - apply (Hnone _ Directory.client 3 [data_eng_correspondence]
             directory_after_rename).
    intros mg [<-|[]]. reflexivity.
  - destruct (Htasks
                (snd (GroupManager._workspace_groups_in_workspace Directory.client
                        directory_after_reflect))
                (snd (GroupManager._account_groups_in_workspace Directory.client
                        directory_after_reflect))
                [data_eng_correspondence]
                (DeleteWorkspaceGroup "101" "ucx-renamed-data-eng"))
      as (mg & Hmg & _ & Htmp & Hacc).
    + simpl. left. reflexivity.
    + exists mg. repeat split; try assumption.
      destruct (GroupManager.delete_original_workspace_groups Directory.client 3
                  [data_eng_correspondence] directory_after_reflect)
        as [[logs result] d'] eqn:Erun.
      destruct (Hjournal _ _ _ _ _ _ Erun) as (calls & Hcalls & Hin).
      exists calls. split; [exact Hcalls|].
      intros c Hc. destruct (Hin c Hc) as (mg' & [<-|[]] & -> & _).
      destruct Hmg as [<-|[]]. reflexivity.
Defined.

(* ===================================================================== *)
(** ** The batch of a phase and its aggregate error                       *)
(* ===================================================================== *)

Section BatchFacts.
Variables W A : Type.
Variable run : job -> op W A.



End BatchFacts.





Lemma list_contains_In x l : list_contains x l = true <-> In x l.
Proof.
  unfold list_contains. rewrite existsb_exists. split.
  - intros (y & Hin & Heq). apply String.eqb_eq in Heq. now subst.
  - intros Hin. exists x. split; [exact Hin | apply String.eqb_refl].
Qed.



Section PhaseFacts.
Variable W : Type.
Variable ws : WorkspaceClient W.
Variable retry_budget : nat.



End PhaseFacts.




(* ===================================================================== *)
(** ** Call policies of the three jobs                                    *)
(* ===================================================================== *)

Lemma retried_step {W A} (on : exn -> bool) (timeout : string) (budget : nat)
  (f : op W A) (w : W) :
  retried on timeout (S budget) f w
  = let '(logs, r, w') := f w in
    match r with
    | Raise e =>
        if retryable on e then
          let '(logs', r', w'') := retried on timeout budget f w' in
          (logs ++ logs', r', w'')
        else (logs, r, w')
    | Val _ => (logs, r, w')
    end.
Proof.
  simpl. destruct (f w) as [[logs [a|e]] w']; reflexivity.
Qed.

(** A call that returns is not repeated; an error that is not retryable is
    raised after the single call. *)
Lemma retried_returns {W A} (on : exn -> bool) (timeout : string) (budget : nat)
  (f : op W A) (w w' : W) (logs : list log_entry) (a : A) :
  f w = (logs, Val a, w') ->
  retried on timeout budget f w = (logs, Val a, w').
Proof. intros Hf. destruct budget; simpl; now rewrite Hf. Qed.

Lemma retried_raises_at_once {W A} (on : exn -> bool) (timeout : string)
  (budget : nat) (f : op W A) (w w' : W) (logs : list log_entry) (e : exn) :
  f w = (logs, Raise e, w') ->
  retryable on e = false ->
  retried on timeout budget f w = (logs, Raise e, w').
Proof. intros Hf Hnot. destruct budget; simpl; now rewrite Hf, Hnot. Qed.

Section JobFacts.
Variable W : Type.
Variable ws : WorkspaceClient W.
Variable retry_budget : nat.

(** [_rename_group] hands every error of the patch call to its caller
    after a single attempt. *)
Lemma rename_job_surfaces_error group_id new_name w e w' :
  groups_patch ws group_id new_name w = (Raise e, w') ->
  GroupManager._rename_group ws group_id new_name w = ([], Raise e, w').
Proof.
  intros Hpatch. unfold GroupManager._rename_group. now rewrite Hpatch.
Qed.

(** The bodies of the two decorated jobs on an error of another class than
    the one they catch. *)
Lemma delete_body_raises group_id name w e w' :
  groups_delete ws group_id w = (Raise e, w') ->
  class_of e <> NotFound ->
  GroupManager._delete_workspace_group_body ws group_id name w
  = ([(INFO, "Deleting the workspace-level group " +:+ name
             +:+ " with id " +:+ group_id)],
     Raise e, w').
Proof.
  intros Hdelete Hclass. unfold GroupManager._delete_workspace_group_body.
  rewrite Hdelete. destruct (class_of e); try reflexivity. contradiction.
Qed.

Lemma reflect_body_raises account_group_id w e w' :
  permission_assign ws account_group_id w = (Raise e, w') ->
  class_of e <> BadRequest ->
  GroupManager._reflect_account_group_to_workspace_body ws account_group_id w
  = ([], Raise e, w').
Proof.
  intros Hassign Hclass.
  unfold GroupManager._reflect_account_group_to_workspace_body.
  rewrite Hassign. destruct (class_of e); try reflexivity. contradiction.
Qed.



(** A not-found answer to the delete call is a success of the job, after
    that single call. *)
Lemma delete_job_not_found group_id name w w' :
  groups_delete ws group_id w = (Raise NotFound, w') ->
  GroupManager._delete_workspace_group ws retry_budget group_id name w
  = ([(INFO, "Deleting the workspace-level group " +:+ name
             +:+ " with id " +:+ group_id)],
     Val PyNone, w').
Proof.
  intros Hdelete.
  unfold GroupManager._delete_workspace_group, rate_limited.
  apply retried_returns.
  unfold GroupManager._delete_workspace_group_body. now rewrite Hdelete.
Qed.

(** A not-found answer to the permission assignment is handed to the
    caller, after that single call. *)
Lemma reflect_job_not_found account_group_id w w' :
  permission_assign ws account_group_id w = (Raise NotFound, w') ->
  GroupManager._reflect_account_group_to_workspace ws retry_budget account_group_id w
  = ([], Raise NotFound, w').
Proof.
  intros Hassign.
  unfold GroupManager._reflect_account_group_to_workspace, rate_limited.
  apply retried_raises_at_once; [|reflexivity].
  apply (@reflect_body_raises account_group_id w NotFound w' Hassign).
  discriminate.
Qed.

End JobFacts.

(** C5, on the input that shows the defect: the service answers the first
    mutating call with an internal error and would accept the next one.
    [_rename_group] carries neither decorator, so the rename phase sends
    one patch call and raises the aggregate error with that transient
    error; its sibling [_delete_workspace_group], which is rate-limited and
    retried, sends a second call on the same answers and succeeds. *)
Theorem rename_patch_is_not_retried :
  on_transient InternalError = true
  /\ snd (fst (GroupManager.rename_groups Directory.client 3
                 [data_eng_correspondence]
                 (directory_with_one_fault InternalError)))
     = RaisedManyError [("101", InternalError)]
  /\ Directory.journal
       (snd (GroupManager.rename_groups Directory.client 3
               [data_eng_correspondence]
               (directory_with_one_fault InternalError)))
     = [Directory.Patch "101" "ucx-renamed-data-eng"]
  /\ snd (fst (GroupManager._delete_workspace_group Directory.client 3
                 "101" "data-eng" (directory_with_one_fault InternalError)))
     = Val PyNone
  /\ Directory.journal
       (snd (GroupManager._delete_workspace_group Directory.client 3
               "101" "data-eng" (directory_with_one_fault InternalError)))
     = [Directory.Delete "101"; Directory.Delete "101"].
Proof.
  repeat split; reflexivity.
Qed.

(** C6, as stated, fails for the rename patch: the correspondence names a
    group id the workspace no longer has, the patch call is answered with
    not-found, and the rename phase raises the aggregate error with it. *)
Lemma rename_not_found_is_surfaced :
  snd (fst (GroupManager.rename_groups Directory.client 3
              [data_eng_correspondence] directory_without_group_101))
  = RaisedManyError [("101", NotFound)].
Proof. reflexivity. Qed.

(** C6, amended.  Only the delete call turns a not-found answer into a
    successful no-op: [_delete_workspace_group] returns [None] after that
    single call (no retry) and the batch records no failure for it.  A
    not-found answer to the rename patch or to the reflect call is not
    retried either, but it is raised to the batch, which records it as that
    job's failure. *)
Theorem not_found_is_benign_for_delete_only :
  forall (W : Type) (client : WorkspaceClient W) (retry_budget : nat)
         (group_id name : string) (w w' : W),
    (groups_delete client group_id w = (Raise NotFound, w') ->
     GroupManager.run_job client retry_budget
       (DeleteWorkspaceGroup group_id name) w
     = ([(INFO, "Deleting the workspace-level group " +:+ name
                +:+ " with id " +:+ group_id)],
        Val PyNone, w')
     /\ forall error_log,
          GroupManager.gather_and_raise client retry_budget error_log
            [DeleteWorkspaceGroup group_id name] w
          = ([(INFO, "Deleting the workspace-level group " +:+ name
                     +:+ " with id " +:+ group_id)],
             Returned, w'))
    /\ (groups_patch client group_id name w = (Raise NotFound, w') ->
        GroupManager.run_job client retry_budget (RenameGroup group_id name) w
        = ([], Raise NotFound, w')
        /\ forall error_log,
             snd (fst (GroupManager.gather_and_raise client retry_budget error_log
                         [RenameGroup group_id name] w))
             = RaisedManyError [(group_id, NotFound)])
    /\ (permission_assign client group_id w = (Raise NotFound, w') ->
        GroupManager.run_job client retry_budget (ReflectAccountGroup group_id) w
        = ([], Raise NotFound, w')
        /\ forall error_log,
             snd (fst (GroupManager.gather_and_raise client retry_budget error_log
                         [ReflectAccountGroup group_id] w))
             = RaisedManyError [(group_id, NotFound)]).
Proof.
  intros W client retry_budget group_id name w w'.
  split; [|split].
  - intros Hdelete.
    pose proof (delete_job_not_found client retry_budget group_id name w Hdelete)
      as Hjob.
    split; [exact Hjob|].
    intros error_log. unfold GroupManager.gather_and_raise. simpl.
    rewrite Hjob. reflexivity.
  - intros Hpatch.
    pose proof (rename_job_surfaces_error client group_id name w Hpatch) as Hjob.
    split; [exact Hjob|].
    intros error_log. unfold GroupManager.gather_and_raise. simpl.
    rewrite Hjob. reflexivity.
  - intros Hassign.
    pose proof (reflect_job_not_found client retry_budget group_id w Hassign)
      as Hjob.
    split; [exact Hjob|].
    intros error_log. unfold GroupManager.gather_and_raise. simpl.
    rewrite Hjob. reflexivity.
Qed.

(** Group 404 is unknown to the directory: deleting it is a no-op success,
    renaming it is a recorded failure; a not-found answer to the reflect
    call is a recorded failure too. *)
Lemma not_found_is_benign_for_delete_only_example :
  snd (fst (GroupManager.gather_and_raise Directory.client 3 (fun _ => [])
              [DeleteWorkspaceGroup "404" "gone"] directory_before_rename))
  = Returned
  /\ snd (fst (GroupManager.gather_and_raise Directory.client 3 (fun _ => [])
                 [RenameGroup "404" "gone"] directory_before_rename))
     = RaisedManyError [("404", NotFound)]
  /\ snd (fst (GroupManager.gather_and_raise Directory.client 3 (fun _ => [])
                 [ReflectAccountGroup "901"] (directory_with_one_fault NotFound)))
     = RaisedManyError [("901", NotFound)].
Proof.
  split; [|split].
  - destruct (@not_found_is_benign_for_delete_only _ Directory.client 3
                "404" "gone" directory_before_rename
                (snd (Directory.delete "404" directory_before_rename)))
      as (Hdelete & _ & _).
    destruct (Hdelete eq_refl) as [_ Hbatch].
    now rewrite (Hbatch (fun _ => [])).
  - destruct (@not_found_is_benign_for_delete_only _ Directory.client 3
                "404" "gone" directory_before_rename
                (snd (Directory.patch "404" "gone" directory_before_rename)))
      as (_ & Hrename & _).
    destruct (Hrename eq_refl) as [_ Hbatch].
    exact (Hbatch (fun _ => [])).
  - destruct (@not_found_is_benign_for_delete_only _ Directory.client 3
                "901" "data-eng" (directory_with_one_fault NotFound)
                (snd (Directory.assign "901" (directory_with_one_fault NotFound))))
      as (_ & _ & Hreflect).
    destruct (Hreflect eq_refl) as [_ Hbatch].
    exact (Hbatch (fun _ => [])).
Defined.

(* ===================================================================== *)
(** ** Rename phase: running it twice                                     *)
(* ===================================================================== *)

Lemma rename_tasks_In acct wsg snapshot j :
  In j (snd (GroupManager.rename_tasks acct wsg snapshot)) <->
  exists mg,
    In mg snapshot
    /\ j = RenameGroup (id_in_workspace mg) (temporary_name mg)
    /\ dict_mem_opt (name_in_account mg) acct = false
    /\ dict_mem (temporary_name mg) wsg = false.
Proof.
  induction snapshot as [|mg rest IH]; simpl.
  - split; [contradiction | intros (mg & [] & _)].
  - destruct (GroupManager.rename_tasks acct wsg rest) as [logs tasks] eqn:E.
    simpl in IH.
    destruct (dict_mem_opt (name_in_account mg) acct) eqn:Hacc; simpl.
    + rewrite IH. split.
      * intros (mg' & Hin & Hrest). exists mg'. split; [now right | exact Hrest].
      * intros (mg' & [<-|Hin] & Hj & Ha & Ht); [congruence|]. now exists mg'.
    + destruct (dict_mem (temporary_name mg) wsg) eqn:Htmp; simpl.
      * rewrite IH. split.
        -- intros (mg' & Hin & Hrest). exists mg'. split; [now right | exact Hrest].
        -- intros (mg' & [<-|Hin] & Hj & Ha & Ht); [congruence|]. now exists mg'.
      * rewrite IH. split.
        -- intros [<-|(mg' & Hin & Hrest)].
           ++ exists mg. repeat split; auto.
           ++ exists mg'. split; [now right | exact Hrest].
        -- intros (mg' & [<-|Hin] & Hj & Ha & Ht).
           ++ left. now symmetry.
           ++ right. now exists mg'.
Qed.

Lemma rename_tasks_nil acct wsg snapshot :
  (forall mg, In mg snapshot ->
     dict_mem_opt (name_in_account mg) acct = true
     \/ dict_mem (temporary_name mg) wsg = true) ->
  snd (GroupManager.rename_tasks acct wsg snapshot) = [].
Proof.
  intros Hskip.
  destruct (snd (GroupManager.rename_tasks acct wsg snapshot)) as [|j tasks] eqn:E;
    [reflexivity|].
  assert (Hin : In j (snd (GroupManager.rename_tasks acct wsg snapshot)))
    by (rewrite E; now left).
  apply rename_tasks_In in Hin as (mg & Hmg & _ & Ha & Ht).
  destruct (Hskip mg Hmg); congruence.
Qed.

Lemma by_display_name_mem n gs :
  forall acc,
    dict_mem n (GroupManager.by_display_name gs acc) = true <->
    dict_mem n acc = true
    \/ exists g, In g gs /\ display_name g = Some n /\ n <> "".
Proof.
  induction gs as [|g rest IH]; intros acc; simpl.
  - split; [now left | intros [H|(g & [] & _)]; exact H].
  - destruct (display_name g) as [name|] eqn:Hname.
    + destruct (String.eqb name "") eqn:Hempty.
      * apply String.eqb_eq in Hempty. subst name. rewrite IH. split.
        -- intros [H|(g' & Hin & Hrest)]; [now left|].
           right. exists g'. split; [now right | exact Hrest].
        -- intros [H|(g' & [<-|Hin] & Hd & Hne)]; [now left| |].
           ++ rewrite Hname in Hd. injection Hd as <-. contradiction.
           ++ right. now exists g'.
      * apply String.eqb_neq in Hempty. rewrite IH, dict_mem_set. split.
        -- intros [H|(g' & Hin & Hrest)].
           ++ apply orb_true_iff in H as [H|H]; [|now left].
              apply String.eqb_eq in H. subst name.
              right. exists g. split; [now left | now split].
           ++ right. exists g'. split; [now right | exact Hrest].
        -- intros [H|(g' & [<-|Hin] & Hd & Hne)].
           ++ left. rewrite H. apply orb_true_r.
           ++ rewrite Hname in Hd. injection Hd as ->.
              left. simpl. now rewrite String.eqb_refl.
           ++ right. now exists g'.
    + rewrite IH. split.
      * intros [H|(g' & Hin & Hrest)]; [now left|].
        right. exists g'. split; [now right | exact Hrest].
      * intros [H|(g' & [<-|Hin] & Hd & Hne)]; [now left| |].
        -- rewrite Hname in Hd. discriminate.
        -- right. now exists g'.
Qed.

Lemma dict_set_keyed name g (acc : dict string Group) :
  display_name g = Some name ->
  keyed_by_display_name acc ->
  keyed_by_display_name (dict_set name g acc).
Proof.
  intros Hname. unfold keyed_by_display_name.
  induction acc as [|[k v] rest IH]; simpl; intros Hkeyed.
  - constructor; [exact Hname | constructor].
  - inversion Hkeyed as [|x l Hhead Htail]; subst.
    destruct (String.eqb name k) eqn:E.
    + apply String.eqb_eq in E. subst k. constructor; [exact Hname | exact Htail].
    + constructor; [exact Hhead | now apply IH].
Qed.

(** The maps the listing functions of [GroupManager] build are keyed by
    display name. *)
Lemma by_display_name_keyed gs :
  forall acc, keyed_by_display_name acc ->
              keyed_by_display_name (GroupManager.by_display_name gs acc).
Proof.
  induction gs as [|g rest IH]; intros acc Hkeyed; simpl; [exact Hkeyed|].
  destruct (display_name g) as [name|] eqn:Hname; [|now apply IH].
  destruct (String.eqb name ""); [now apply IH|].
  apply IH. now apply dict_set_keyed.
Qed.

Section DirectoryListings.
Import Directory.

Lemma account_listing_eq d :
  snd (GroupManager._account_groups_in_workspace client d)
  = GroupManager.by_display_name
      (filter (fun g => negb (GroupManager._is_group_out_of_scope g "Group"))
              (map (project ["id"; "displayName"; "externalId"; "meta"])
                   (workspace d)))
      [].
Proof. reflexivity. Qed.

Lemma workspace_listing_eq d :
  snd (GroupManager._workspace_groups_in_workspace client d)
  = GroupManager.by_display_name
      (flat_map
         (fun g =>
            if GroupManager._is_group_out_of_scope g "WorkspaceGroup" then []
            else match find (has_id (id g)) (workspace d) with
                 | None => []
                 | Some full => [full]
                 end)
         (map (project ["id"; "displayName"; "meta"; "externalId"; "roles";
                        "entitlements"])
              (workspace d)))
      [].
Proof. reflexivity. Qed.

(** A group of the workspace is listed among the account groups under its
    display name unless it is out of scope for resource type Group. *)
Lemma account_listing_mem d n :
  dict_mem n (snd (GroupManager._account_groups_in_workspace client d)) = true
  <-> exists g,
        In g (workspace d) /\ display_name g = Some n /\ n <> ""
        /\ GroupManager._is_group_out_of_scope g "Group" = false.
Proof.
  rewrite account_listing_eq, by_display_name_mem. split.
  - intros [H|(g & Hin & Hname & Hne)]; [discriminate|].
    apply filter_In in Hin as [Hin Hscope].
    apply in_map_iff in Hin as (g0 & <- & Hin0).
    exists g0. repeat split; auto.
    apply negb_true_iff in Hscope. exact Hscope.
  - intros (g & Hin & Hname & Hne & Hscope). right.
    exists (project ["id"; "displayName"; "externalId"; "meta"] g).
    split; [|split; [exact Hname | exact Hne]].
    apply filter_In. split.
    + apply in_map_iff. now exists g.
    + apply negb_true_iff. exact Hscope.
Qed.

(** The workspace listing shows, for every group in scope for resource type
    WorkspaceGroup, the display name of the group that get returns for its
    id. *)
Lemma workspace_listing_mem d n :
  dict_mem n (snd (GroupManager._workspace_groups_in_workspace client d)) = true
  <-> exists g full,
        In g (workspace d)
        /\ GroupManager._is_group_out_of_scope g "WorkspaceGroup" = false
        /\ find (has_id (id g)) (workspace d) = Some full
        /\ display_name full = Some n /\ n <> "".
Proof.
  rewrite workspace_listing_eq, by_display_name_mem. split.
  - intros [H|(full & Hin & Hname & Hne)]; [discriminate|].
    apply in_flat_map in Hin as (g & Hin & Hfull).
    apply in_map_iff in Hin as (g0 & <- & Hin0).
    change (GroupManager._is_group_out_of_scope
              (project ["id"; "displayName"; "meta"; "externalId"; "roles";
                        "entitlements"] g0) "WorkspaceGroup")
      with (GroupManager._is_group_out_of_scope g0 "WorkspaceGroup") in Hfull.
    change (id (project ["id"; "displayName"; "meta"; "externalId"; "roles";
                         "entitlements"] g0)) with (id g0) in Hfull.
    destruct (GroupManager._is_group_out_of_scope g0 "WorkspaceGroup") eqn:Hscope;
      [contradiction|].
    destruct (find (has_id (id g0)) (workspace d)) as [full'|] eqn:Hfind;
      [|contradiction].
    destruct Hfull as [<-|[]].
    exists g0, full'. repeat split; auto.
  - intros (g & full & Hin & Hscope & Hfind & Hname & Hne). right.
    exists full. split; [|split; [exact Hname | exact Hne]].
    apply in_flat_map.
    exists (project ["id"; "displayName"; "meta"; "externalId"; "roles";
                     "entitlements"] g).
    split; [apply in_map_iff; now exists g|].
    change (GroupManager._is_group_out_of_scope
              (project ["id"; "displayName"; "meta"; "externalId"; "roles";
                        "entitlements"] g) "WorkspaceGroup")
      with (GroupManager._is_group_out_of_scope g "WorkspaceGroup").
    change (id (project ["id"; "displayName"; "meta"; "externalId"; "roles";
                         "entitlements"] g)) with (id g).
    rewrite Hscope, Hfind. now left.
Qed.

End DirectoryListings.

Section RenameEffect.
Import Directory RenameReady.

Lemma id_rename_one j g : id (rename_one j g) = id g.
Proof.
  destruct j; simpl; try reflexivity. now destruct (has_id group_id g).
Qed.

Lemma meta_rename_one j g : meta (rename_one j g) = meta g.
Proof.
  destruct j; simpl; try reflexivity. now destruct (has_id group_id g).
Qed.

Lemma id_renamed tasks : forall g, id (renamed tasks g) = id g.
Proof.
  unfold renamed. induction tasks as [|j rest IH]; intros g; simpl; [reflexivity|].
  now rewrite IH, id_rename_one.
Qed.

Lemma meta_renamed tasks : forall g, meta (renamed tasks g) = meta g.
Proof.
  unfold renamed. induction tasks as [|j rest IH]; intros g; simpl; [reflexivity|].
  now rewrite IH, meta_rename_one.
Qed.

Lemma rename_one_other j g :
  has_id (job_group_id j) g = false -> rename_one j g = g.
Proof.
  destruct j; simpl; try reflexivity. now intros ->.
Qed.

Lemma renamed_untouched tasks :
  forall g,
    (forall j, In j tasks -> has_id (job_group_id j) g = false) ->
    renamed tasks g = g.
Proof.
  unfold renamed. induction tasks as [|j rest IH]; intros g Hnone; simpl;
    [reflexivity|].
  rewrite rename_one_other by (apply Hnone; now left).
  apply IH. intros j' Hj'. apply Hnone. now right.
Qed.

Lemma renamed_target tasks :
  forall g group_id new_name,
    distinct (map job_group_id tasks) = true ->
    In (RenameGroup group_id new_name) tasks ->
    has_id group_id g = true ->
    display_name (renamed tasks g) = Some new_name.
Proof.
  induction tasks as [|j rest IH]; intros g group_id new_name Hdistinct Hin Hid;
    [contradiction|].
  simpl in Hdistinct. apply andb_true_iff in Hdistinct as [Hfresh Hdistinct].
  apply negb_true_iff in Hfresh.
  change (renamed (j :: rest) g) with (renamed rest (rename_one j g)).
  destruct Hin as [->|Hin].
  - simpl. rewrite Hid. rewrite renamed_untouched; [reflexivity|].
    intros j' Hj'. unfold has_id. simpl.
    destruct (String.eqb (job_group_id j') (id g)) eqn:E; [|reflexivity].
    apply String.eqb_eq in E. unfold has_id in Hid. apply String.eqb_eq in Hid.
    assert (Hmem : list_contains group_id (map job_group_id rest) = true).
    { apply list_contains_In. apply in_map_iff. exists j'. split; [congruence|exact Hj']. }
    simpl in Hfresh. congruence.
  - assert (Hother : has_id (job_group_id j) g = false).
    { unfold has_id in *. apply String.eqb_eq in Hid.
      destruct (String.eqb (job_group_id j) (id g)) eqn:E; [|reflexivity].
      apply String.eqb_eq in E.
      assert (Hmem : list_contains (job_group_id j) (map job_group_id rest) = true).
      { apply list_contains_In. apply in_map_iff.
        exists (RenameGroup group_id new_name). split; [simpl; congruence | exact Hin]. }
      congruence. }
    rewrite rename_one_other by exact Hother.
    now apply IH with (group_id := group_id).
Qed.

Lemma existsb_has_id_map (f : Group -> Group) group_id l :
  (forall g, id (f g) = id g) ->
  existsb (has_id group_id) (map f l) = existsb (has_id group_id) l.
Proof.
  intros Hid. induction l as [|g rest IH]; simpl; [reflexivity|].
  unfold has_id at 1. rewrite Hid. fold (has_id group_id g). now rewrite IH.
Qed.

Lemma find_has_id_map (f : Group -> Group) group_id l :
  (forall g, id (f g) = id g) ->
  find (has_id group_id) (map f l) = option_map f (find (has_id group_id) l).
Proof.
  intros Hid. induction l as [|g rest IH]; simpl; [reflexivity|].
  unfold has_id at 1. rewrite Hid. fold (has_id group_id g).
  now destruct (has_id group_id g).
Qed.

(** A batch of renames whose targets exist, sent to a directory without
    pending faults: every job succeeds and the groups are renamed. *)
Lemma gather_renames retry_budget tasks :
  forall d,
    faults d = [] ->
    (forall j, In j tasks ->
       exists group_id new_name,
         j = RenameGroup group_id new_name
         /\ existsb (has_id group_id) (workspace d) = true) ->
    exists logs successes d',
      Threads.gather (GroupManager.run_job client retry_budget) tasks d
      = (logs, (successes, []), d')
      /\ workspace d' = map (renamed tasks) (workspace d)
      /\ account d' = account d
      /\ faults d' = [].
Proof.
  induction tasks as [|j rest IH]; intros d Hfaults Htargets.
  - exists [], [], d. simpl. repeat split; auto. now rewrite map_id.
  - destruct (Htargets j (or_introl eq_refl)) as (group_id & new_name & -> & Hex).
    simpl Threads.gather. simpl GroupManager.run_job.
    unfold GroupManager._rename_group. simpl groups_patch.
    unfold patch, mutating. rewrite Hfaults. simpl workspace. rewrite Hex.
    set (d0 := with_workspace _ _).
    destruct (IH d0) as (logs & successes & d' & Hrun & Hws & Hacc & Hf).
    + reflexivity.
    + intros j' Hj'.
      destruct (Htargets j' (or_intror Hj')) as (gid & new & -> & Hex').
      exists gid, new. split; [reflexivity|].
      subst d0. simpl workspace.
      rewrite existsb_has_id_map; [exact Hex'|].
      intros g. now destruct (has_id group_id g).
    + rewrite Hrun. exists ([] ++ logs), (PyTrue :: successes), d'.
      repeat split; auto.
      rewrite Hws. subst d0. simpl workspace. rewrite map_map. reflexivity.
Qed.

End RenameEffect.

Section RenameTwice.
Import Directory RenameReady.

Lemma workspace_local_not_account_visible g :
  is_workspace_local g = true ->
  GroupManager._is_group_out_of_scope g "Group" = true.
Proof.
  unfold is_workspace_local, GroupManager._is_group_out_of_scope.
  destruct (GroupManager.is_system_group (display_name g)); [reflexivity|].
  destruct (meta g) as [m|]; [|discriminate].
  intros Hlocal. apply opt_eqb_eq in Hlocal; [|apply String.eqb_eq].
  now rewrite Hlocal.
Qed.

Lemma workspace_local_in_scope g :
  is_workspace_local g = true ->
  GroupManager.is_system_group (display_name g) = false ->
  GroupManager._is_group_out_of_scope g "WorkspaceGroup" = false.
Proof.
  unfold is_workspace_local, GroupManager._is_group_out_of_scope.
  intros Hlocal ->. destruct (meta g) as [m|]; [|discriminate].
  now rewrite Hlocal.
Qed.

Lemma has_id_eq group_id g : has_id group_id g = true <-> group_id = id g.
Proof. unfold has_id. apply String.eqb_eq. Qed.

Lemma find_has_id_exists group_id l g :
  In g l -> has_id group_id g = true ->
  exists full, find (has_id group_id) l = Some full
               /\ In full l /\ has_id group_id full = true.
Proof.
  intros Hin Hid.
  destruct (find (has_id group_id) l) as [full|] eqn:Hfind.
  - exists full. split; [reflexivity|]. now apply find_some in Hfind.
  - rewrite (find_none _ _ Hfind g Hin) in Hid. discriminate.
Qed.

Variable snapshot : list MigratedGroup.
Variables d d1 : t.

Let tasks := planned_renames client snapshot d.

Hypothesis targets_ok : forallb (target_ok snapshot d) tasks = true.
Hypothesis targets_distinct : distinct (map job_group_id tasks) = true.
Hypothesis renamed_workspace : workspace d1 = map (renamed tasks) (workspace d).

Lemma target_facts j g :
  In j tasks -> In g (workspace d) -> has_id (job_group_id j) g = true ->
  is_workspace_local g = true /\ bears_temporary_name snapshot g = false.
Proof.
  intros Hj Hg Hid.
  pose proof targets_ok as Hok. rewrite forallb_forall in Hok.
  specialize (Hok j Hj). unfold target_ok in Hok.
  destruct j as [group_id new_name| |]; try discriminate.
  apply andb_true_iff in Hok as [Hok _].
  apply andb_true_iff in Hok as [Hok _].
  apply andb_true_iff in Hok as [_ Hall].
  rewrite forallb_forall in Hall. specialize (Hall g Hg).
  simpl in Hid. rewrite Hid in Hall.
  apply andb_true_iff in Hall as [Hlocal Hbears].
  apply negb_true_iff in Hbears. now split.
Qed.

Lemma untouched_stays g :
  In g (workspace d) ->
  (is_workspace_local g = false \/ bears_temporary_name snapshot g = true) ->
  renamed tasks g = g /\ In g (workspace d1).
Proof.
  intros Hg Hreason.
  assert (Hsame : renamed tasks g = g).
  { apply renamed_untouched. intros j Hj.
    destruct (has_id (job_group_id j) g) eqn:Hid; [|reflexivity].
    destruct (target_facts j g Hj Hg Hid) as [Hlocal Hbears].
    destruct Hreason; congruence. }
  split; [exact Hsame|].
  rewrite renamed_workspace. apply in_map_iff. now exists g.
Qed.

(** Every correspondence passes one of the two skip tests of
    [rename_groups] in the directory the first invocation leaves. *)
Lemma second_invocation_skips mg :
  In mg snapshot ->
  dict_mem_opt (name_in_account mg)
    (snd (GroupManager._account_groups_in_workspace client d1)) = true
  \/ dict_mem (temporary_name mg)
       (snd (GroupManager._workspace_groups_in_workspace client d1)) = true.
Proof.
  intros Hmg.
  destruct (dict_mem_opt (name_in_account mg)
              (snd (GroupManager._account_groups_in_workspace client d))) eqn:Hacc.
  - (* skipped before: the account group is visible, and still is *)
    left. unfold dict_mem_opt, dict_get_opt in *.
    destruct (name_in_account mg) as [n|]; [|discriminate].
    fold (dict_mem n (snd (GroupManager._account_groups_in_workspace client d))) in Hacc.
    fold (dict_mem n (snd (GroupManager._account_groups_in_workspace client d1))).
    apply account_listing_mem in Hacc as (g & Hg & Hname & Hne & Hscope).
    apply account_listing_mem. exists g. repeat split; auto.
    apply untouched_stays; [exact Hg|]. left.
    destruct (is_workspace_local g) eqn:Hlocal; [|reflexivity].
    apply workspace_local_not_account_visible in Hlocal. congruence.
  - right.
    destruct (dict_mem (temporary_name mg)
                (snd (GroupManager._workspace_groups_in_workspace client d))) eqn:Htmp.
    + (* skipped before: a group bears the temporary name, and still does *)
      apply workspace_listing_mem in Htmp as (g & full & Hg & Hscope & Hfind & Hname & Hne).
      pose proof (find_some _ _ Hfind) as [Hfull Hfull_id].
      assert (Hbears : bears_temporary_name snapshot full = true).
      { unfold bears_temporary_name. apply existsb_exists. exists mg.
        split; [exact Hmg|]. rewrite Hname. simpl. apply String.eqb_refl. }
      destruct (untouched_stays full Hfull (or_intror Hbears)) as [Hsame_full _].
      assert (Hsame : renamed tasks g = g /\ In g (workspace d1)).
      { assert (Hsame : renamed tasks g = g).
        { apply renamed_untouched. intros j Hj.
          destruct (has_id (job_group_id j) g) eqn:Hid; [|reflexivity].
          apply has_id_eq in Hid. apply has_id_eq in Hfull_id.
          assert (Hid' : has_id (job_group_id j) full = true)
            by (apply has_id_eq; congruence).
          destruct (target_facts j full Hj Hfull Hid') as [_ Hno]. congruence. }
        split; [exact Hsame|].
        rewrite renamed_workspace. apply in_map_iff. now exists g. }
      apply workspace_listing_mem. exists g, full.
      repeat split; auto; [apply Hsame|].
      rewrite renamed_workspace, find_has_id_map by apply id_renamed.
      rewrite Hfind. simpl. now rewrite Hsame_full.
    + (* renamed by the first invocation *)
      assert (Hj : In (RenameGroup (id_in_workspace mg) (temporary_name mg)) tasks).
      { apply rename_tasks_In. exists mg. repeat split; auto. }
      pose proof targets_ok as Hok. rewrite forallb_forall in Hok.
      specialize (Hok _ Hj). simpl in Hok.
      apply andb_true_iff in Hok as [Hok Hsystem].
      apply andb_true_iff in Hok as [Hok Hempty].
      apply andb_true_iff in Hok as [Hex _].
      apply negb_true_iff in Hsystem. apply negb_true_iff in Hempty.
      apply String.eqb_neq in Hempty.
      apply existsb_exists in Hex as (g0 & Hg0 & Hid0).
      destruct (find_has_id_exists _ _ _ Hg0 Hid0) as (full & Hfind & Hfull & Hfull_id).
      destruct (target_facts _ g0 Hj Hg0 Hid0) as [Hlocal _].
      apply workspace_listing_mem.
      exists (renamed tasks g0), (renamed tasks full).
      split; [rewrite renamed_workspace; apply in_map_iff; now exists g0|].
      split.
      { apply workspace_local_in_scope.
        - unfold is_workspace_local in *. now rewrite meta_renamed.
        - rewrite (@renamed_target tasks g0 _ _ targets_distinct Hj Hid0). exact Hsystem. }
      split.
      { rewrite renamed_workspace, find_has_id_map by apply id_renamed.
        rewrite id_renamed. apply has_id_eq in Hid0. rewrite <- Hid0.
        now rewrite Hfind. }
      split; [|exact Hempty].
      exact (@renamed_target tasks full _ _ targets_distinct Hj Hfull_id).
Qed.

End RenameTwice.

Lemma rename_groups_run {W} (client : WorkspaceClient W) retry_budget snapshot w :
  snd (fst (GroupManager.rename_groups client retry_budget snapshot w))
  = snd (fst (GroupManager.gather_and_raise client retry_budget (fun _ => [])
                (planned_renames client snapshot w) w))
  /\ snd (GroupManager.rename_groups client retry_budget snapshot w)
     = snd (GroupManager.gather_and_raise client retry_budget (fun _ => [])
              (planned_renames client snapshot w) w).
Proof.
  unfold GroupManager.rename_groups, planned_renames.
  destruct (GroupManager._account_groups_in_workspace client w) as [l1 acct].
  destruct (GroupManager._workspace_groups_in_workspace client w) as [l2 wsg].
  simpl.
  destruct (GroupManager.rename_tasks acct wsg snapshot) as [l3 tasks]. simpl.
  destruct (GroupManager.gather_and_raise client retry_budget _ tasks w)
    as [[l4 result] w'].
  split; reflexivity.
Qed.

(** C2, as stated, fails: the correspondence names a group id that the
    workspace does not have (any more), so the patch of the first invocation
    is refused and nothing is renamed; the second invocation, on the same
    remote state, issues the same rename call again. *)
Lemma rename_reissued_after_refused_rename :
  Directory.workspace
    (after_one_rename [data_eng_correspondence] directory_without_group_101)
  = Directory.workspace directory_without_group_101
  /\ Directory.account
       (after_one_rename [data_eng_correspondence] directory_without_group_101)
     = Directory.account directory_without_group_101
  /\ planned_renames Directory.client [data_eng_correspondence]
       (after_one_rename [data_eng_correspondence] directory_without_group_101)
     = [RenameGroup "101" "ucx-renamed-data-eng"]
  /\ Directory.journal
       (after_two_renames [data_eng_correspondence] directory_without_group_101)
     = [Directory.Patch "101" "ucx-renamed-data-eng";
        Directory.Patch "101" "ucx-renamed-data-eng"].
Proof. repeat split; reflexivity. Qed.

(** C2, amended.  When the renames of the first invocation take effect
    ([RenameReady.ready]: the service answers without error, each rename
    targets an existing workspace-local group that does not already bear a
    temporary name of the snapshot, the temporary names are names the
    workspace listing shows, and no group is targeted twice), running
    [rename_groups] once returns normally and leaves every targeted group
    with its [temporary_name] as display name; a second invocation on the
    state the first one left then issues no rename call and changes
    nothing, because every correspondence is skipped: its
    [name_in_account] is among the account groups in the workspace or its
    [temporary_name] is among the workspace groups. *)
Theorem rename_twice_issues_no_call :
  forall (retry_budget : nat) (snapshot : list MigratedGroup) (d : Directory.t),
    RenameReady.ready snapshot d = true ->
    let first := GroupManager.rename_groups Directory.client retry_budget snapshot d in
    let d1 := snd first in
    let second := GroupManager.rename_groups Directory.client retry_budget snapshot d1 in
    snd (fst first) = Returned
    /\ (forall group_id new_name,
          In (RenameGroup group_id new_name)
             (planned_renames Directory.client snapshot d) ->
          (exists g, In g (Directory.workspace d1) /\ id g = group_id)
          /\ (forall g, In g (Directory.workspace d1) -> id g = group_id ->
                        display_name g = Some new_name))
    /\ (forall mg, In mg snapshot ->
          dict_mem_opt (name_in_account mg)
            (snd (GroupManager._account_groups_in_workspace Directory.client d1)) = true
          \/ dict_mem (temporary_name mg)
               (snd (GroupManager._workspace_groups_in_workspace Directory.client d1))
             = true)
    /\ planned_renames Directory.client snapshot d1 = []
    /\ snd (fst second) = Returned
    /\ snd second = d1.
Proof.
  intros retry_budget snapshot d Hready first d1 second.
  unfold RenameReady.ready in Hready.
  destruct (Directory.faults d) as [|e pending] eqn:Hfaults; [|discriminate].
  apply andb_true_iff in Hready as [Htargets Hdistinct].
  set (tasks := planned_renames Directory.client snapshot d) in *.
  assert (Hexist : forall j, In j tasks ->
            exists group_id new_name,
              j = RenameGroup group_id new_name
              /\ existsb (Directory.has_id group_id) (Directory.workspace d) = true).
  { intros j Hj. pose proof Htargets as Hok. rewrite forallb_forall in Hok.
    specialize (Hok j Hj). destruct j as [group_id new_name| |]; try discriminate.
    exists group_id, new_name. split; [reflexivity|].
    simpl in Hok. repeat (apply andb_true_iff in Hok as [Hok _]). exact Hok. }
  destruct (@gather_renames retry_budget tasks d Hfaults Hexist)
    as (logs & successes & d' & Hgather & Hws & Hacc & Hf).
  destruct (rename_groups_run Directory.client retry_budget snapshot d)
    as [Hresult Hstate].
  fold tasks in Hresult, Hstate. fold first in Hresult, Hstate.
  unfold GroupManager.gather_and_raise in Hresult, Hstate.
  rewrite Hgather in Hresult, Hstate. simpl in Hresult, Hstate.
  fold d1 in Hstate. rewrite <- Hstate in Hws.
  assert (Hskips : forall mg, In mg snapshot ->
            dict_mem_opt (name_in_account mg)
              (snd (GroupManager._account_groups_in_workspace Directory.client d1)) = true
            \/ dict_mem (temporary_name mg)
                 (snd (GroupManager._workspace_groups_in_workspace Directory.client d1))
               = true).
  { intros mg Hmg.
    exact (second_invocation_skips snapshot d d1 Htargets Hdistinct Hws mg Hmg). }
  assert (Hnone : planned_renames Directory.client snapshot d1 = []).
  { unfold planned_renames. now apply rename_tasks_nil. }
  split; [exact Hresult|]. split; [|split; [exact Hskips|split; [exact Hnone|]]].
  - intros group_id new_name Hj.
    destruct (Hexist _ Hj) as (gid & new & [= <- <-] & Hex).
    apply existsb_exists in Hex as (g0 & Hg0 & Hid0).
    split.
    + exists (RenameReady.renamed tasks g0). split.
      * rewrite Hws. apply in_map_iff. now exists g0.
      * rewrite id_renamed. symmetry. now apply has_id_eq.
    + intros g Hg Hid. rewrite Hws in Hg.
      apply in_map_iff in Hg as (g1 & <- & Hg1).
      rewrite id_renamed in Hid.
      apply (@renamed_target tasks g1 group_id new_name Hdistinct Hj).
      apply has_id_eq. now symmetry.
  - destruct (rename_groups_run Directory.client retry_budget snapshot d1)
      as [Hresult2 Hstate2].
    fold second in Hresult2, Hstate2. rewrite Hnone in Hresult2, Hstate2.
    split; [exact Hresult2 | exact Hstate2].
Qed.

(** The data-eng scenario: the first invocation renames group 101, the
    second one finds the temporary name in the workspace and does nothing. *)
Lemma rename_twice_issues_no_call_example :
  Directory.journal
    (after_one_rename [data_eng_correspondence] directory_before_rename)
  = [Directory.Patch "101" "ucx-renamed-data-eng"]
  /\ planned_renames Directory.client [data_eng_correspondence]
       (after_one_rename [data_eng_correspondence] directory_before_rename)
     = []
  /\ after_two_renames [data_eng_correspondence] directory_before_rename
     = after_one_rename [data_eng_correspondence] directory_before_rename.
Proof.
  destruct (@rename_twice_issues_no_call 3 [data_eng_correspondence]
              directory_before_rename eq_refl)
    as (_ & _ & _ & Hnone & _ & Hsame).
  split; [reflexivity|]. split; [exact Hnone | exact Hsame].
Defined.

(* ===================================================================== *)
(** ** Dictionaries built by comprehension                                *)
(* ===================================================================== *)

Lemma find_snoc {A} (p : A -> bool) (l : list A) (x : A) :
  find p (l ++ [x])
  = match find p l with
    | Some y => Some y
    | None => if p x then Some x else None
    end.
Proof.
  induction l as [|y rest IH]; simpl; [reflexivity|].
  now destruct (p y).
Qed.

Section ComprehensionFacts.
Context {K V : Type} `{PyKey K}.

Lemma dict_keys_set_In (k k' : K) (v : V) (d : dict K V) :
  In k' (dict_keys (dict_set k v d)) <-> k' = k \/ In k' (dict_keys d).
Proof.
  rewrite <- !dict_mem_keys, dict_mem_set, orb_true_iff.
  now rewrite key_eqb_eq.
Qed.

Lemma dict_set_fresh (k : K) (v : V) (d : dict K V) :
  ~ In k (dict_keys d) -> dict_set k v d = d ++ [(k, v)].
Proof.
  induction d as [|[k' v'] rest IH]; simpl; intros Hfresh; [reflexivity|].
  rewrite key_eqb_neq by (intros ->; apply Hfresh; now left).
  rewrite IH; [reflexivity|]. intros Hin. apply Hfresh. now right.
Qed.

Lemma dict_set_NoDup (k : K) (v : V) (d : dict K V) :
  NoDup (dict_keys d) -> NoDup (dict_keys (dict_set k v d)).
Proof.
  induction d as [|[k' v'] rest IH]; simpl; intros Hnd.
  - constructor; [intros [] | constructor].
  - inversion Hnd as [|x l Hnotin Hrest]; subst.
    destruct (key_eqb k k') eqn:E; simpl.
    + constructor; assumption.
    + constructor; [|now apply IH].
      fold (dict_keys (dict_set k v rest)). rewrite dict_keys_set_In.
      intros [->|Hin]; [|contradiction].
      now rewrite key_eqb_refl in E.
Qed.

Lemma fold_dict_set_NoDup (items : list (K * V)) :
  forall acc : dict K V,
    NoDup (dict_keys acc) ->
    NoDup (dict_keys (fold_left (fun acc kv => dict_set (fst kv) (snd kv) acc)
                                items acc)).
Proof.
  induction items as [|[k v] rest IH]; simpl; intros acc Hnd; [exact Hnd|].
  apply IH. now apply dict_set_NoDup.
Qed.

Lemma fold_dict_set_get (k : K) (items : list (K * V)) :
  forall acc : dict K V,
    dict_get k (fold_left (fun acc kv => dict_set (fst kv) (snd kv) acc) items acc)
    = match find (fun kv => key_eqb k (fst kv)) (rev items) with
      | Some kv => Some (snd kv)
      | None => dict_get k acc
      end.
Proof.
  induction items as [|[k0 v0] rest IH]; simpl; intros acc; [reflexivity|].
  rewrite IH, find_snoc, dict_get_set. simpl.
  destruct (find (fun kv => key_eqb k (fst kv)) (rev rest)); [reflexivity|].
  now destruct (key_eqb k k0).
Qed.

Lemma fold_dict_set_length (items : list (K * V)) :
  forall acc : dict K V,
    List.length (fold_left (fun acc kv => dict_set (fst kv) (snd kv) acc) items acc)
    <= List.length acc + List.length items.
Proof.
  assert (Hset : forall k v (d : dict K V),
             List.length (dict_set k v d) <= S (List.length d)).
  { intros k v d. induction d as [|[k' v'] rest IHd]; simpl; [lia|].
    destruct (key_eqb k k'); simpl; lia. }
  induction items as [|[k v] rest IH]; simpl; intros acc; [lia|].
  specialize (IH (dict_set k v acc)). specialize (Hset k v acc). lia.
Qed.

Lemma fold_dict_set_distinct (items : list (K * V)) :
  forall acc : dict K V,
    NoDup (dict_keys acc ++ map fst items) ->
    fold_left (fun acc kv => dict_set (fst kv) (snd kv) acc) items acc
    = acc ++ items.
Proof.
  induction items as [|[k v] rest IH]; simpl; intros acc Hnd.
  - now rewrite app_nil_r.
  - assert (Hfresh : ~ In k (dict_keys acc)).
    { intros Hin. apply NoDup_remove_2 in Hnd. apply Hnd.
      apply in_or_app. now left. }
    rewrite dict_set_fresh by exact Hfresh.
    rewrite IH.
    + now rewrite <- app_assoc.
    + unfold dict_keys. rewrite map_app. simpl. rewrite <- app_assoc. exact Hnd.
Qed.

(** A comprehension over items with pairwise different keys is the list of
    items. *)
Lemma dict_of_items_distinct (items : list (K * V)) :
  NoDup (map fst items) -> dict_of_items items = items.
Proof.
  intros Hnd. unfold dict_of_items. now rewrite fold_dict_set_distinct.
Qed.

End ComprehensionFacts.

Lemma find_app_none {A} (p : A -> bool) (l1 l2 : list A) :
  (forall x, In x l1 -> p x = false) -> find p (l1 ++ l2) = find p l2.
Proof.
  induction l1 as [|x rest IH]; simpl; intros Hnone; [reflexivity|].
  rewrite (Hnone x (or_introl eq_refl)). apply IH.
  intros y Hy. apply Hnone. now right.
Qed.

Section ComprehensionKeys.
Context {K V : Type} `{PyKey K}.

Lemma fold_dict_set_keys_In (k : K) (items : list (K * V)) :
  forall acc : dict K V,
    In k (dict_keys (fold_left (fun acc kv => dict_set (fst kv) (snd kv) acc)
                               items acc))
    <-> In k (map fst items) \/ In k (dict_keys acc).
Proof.
  induction items as [|[k0 v0] rest IH]; simpl; intros acc.
  - tauto.
  - rewrite IH, dict_keys_set_In. intuition congruence.
Qed.

Lemma dict_of_items_mem (k : K) (items : list (K * V)) :
  dict_mem k (dict_of_items items) = true <-> In k (map fst items).
Proof.
  rewrite dict_mem_keys. unfold dict_of_items.
  rewrite fold_dict_set_keys_In. simpl. tauto.
Qed.

(** Last write wins: the value under a key is the one of the last item
    with that key. *)
Lemma dict_of_items_last (k : K) (v : V) (before after : list (K * V)) :
  (forall kv, In kv after -> fst kv <> k) ->
  dict_get k (dict_of_items (before ++ (k, v) :: after)) = Some v.
Proof.
  intros Hafter. unfold dict_of_items. rewrite fold_dict_set_get.
  rewrite rev_app_distr. simpl. rewrite <- app_assoc. simpl.
  rewrite find_app_none.
  - simpl. now rewrite key_eqb_refl.
  - intros kv Hin. apply in_rev in Hin. apply key_eqb_neq.
    intros ->. now apply (Hafter kv).
Qed.

Lemma dict_of_items_absent (k : K) (items : list (K * V)) :
  ~ In k (map fst items) -> dict_get k (dict_of_items items) = None.
Proof.
  intros Habsent.
  destruct (dict_get k (dict_of_items items)) as [v|] eqn:E; [|reflexivity].
  exfalso. apply Habsent. apply dict_of_items_mem.
  unfold dict_mem. now rewrite E.
Qed.

End ComprehensionKeys.

(* ===================================================================== *)
(** ** MigrationState                                                     *)
(* ===================================================================== *)

(** X1. Lookups in a migration state.  A workspace name is in scope
    exactly when some group of the state has it as [name_in_workspace],
    and [None] is never in scope; the target principal of a name is the
    [name_in_account] of the last group with that name, and [None] for a
    name no group has. *)
Theorem migration_state_lookups :
  forall (gs : list MigratedGroup),
    (forall n, MigrationState.is_in_scope (MigrationState.init gs) (Some n) = true
               <-> exists mg, In mg gs /\ name_in_workspace mg = Some n)
    /\ MigrationState.is_in_scope (MigrationState.init gs) None = false
    /\ (forall before mg after,
          gs = before ++ mg :: after ->
          (forall mg', In mg' after ->
                       name_in_workspace mg' <> name_in_workspace mg) ->
          MigrationState.get_target_principal (MigrationState.init gs)
            (name_in_workspace mg) = name_in_account mg)
    /\ (forall name,
          (forall mg, In mg gs -> name_in_workspace mg <> name) ->
          MigrationState.get_target_principal (MigrationState.init gs) name = None).
Proof.
  intros gs. split; [|split; [reflexivity|split]].
  - intros n. unfold MigrationState.is_in_scope, MigrationState.init. simpl.
    rewrite dict_of_items_mem, map_map. simpl. rewrite in_map_iff.
    split; intros (mg & H1 & H2); exists mg; tauto.
  - intros before mg after -> Hafter.
    unfold MigrationState.get_target_principal, MigrationState.init. simpl.
    rewrite map_app. simpl. rewrite dict_of_items_last; [reflexivity|].
    intros kv Hin. apply in_map_iff in Hin as (mg' & <- & Hmg'). simpl.
    now apply Hafter.
  - intros name Hnone.
    unfold MigrationState.get_target_principal, MigrationState.init. simpl.
    rewrite dict_of_items_absent; [reflexivity|].
    rewrite map_map. simpl. intros Hin.
    apply in_map_iff in Hin as (mg & Hname & Hmg). exact (Hnone mg Hmg Hname).
Qed.

Lemma migration_state_lookups_example :
  MigrationState.get_target_principal
    (MigrationState.init [data_eng_correspondence; sales_correspondence])
    (Some "sales") = Some "sales"
  /\ MigrationState.get_target_principal
       (MigrationState.init [data_eng_correspondence; sales_correspondence])
       (Some "ops") = None
  /\ MigrationState.is_in_scope
       (MigrationState.init [data_eng_correspondence; sales_correspondence])
       (Some "data-eng") = true.
Proof.
  destruct (migration_state_lookups [data_eng_correspondence; sales_correspondence])
    as (Hscope & _ & Hlast & Hnone).
  split; [|split].
  - apply (Hlast [data_eng_correspondence] sales_correspondence []).
    + reflexivity.
    + intros mg' [].
  - apply Hnone. intros mg [<-|[<-|[]]]; discriminate.
  - apply Hscope. exists data_eng_correspondence. split; [now left | reflexivity].
Defined.

(** X2. The length of a migration state is the number of different
    workspace names among its groups: the keys of its name index are
    pairwise different and are exactly those names, so the length never
    exceeds the number of groups and equals it when no name repeats. *)
Theorem migration_state_len_counts_names :
  forall (gs : list MigratedGroup),
    MigrationState.len (MigrationState.init gs)
    = List.length (dict_keys (MigrationState._name_to_group (MigrationState.init gs)))
    /\ NoDup (dict_keys (MigrationState._name_to_group (MigrationState.init gs)))
    /\ (forall name,
          In name (dict_keys (MigrationState._name_to_group (MigrationState.init gs)))
          <-> In name (map name_in_workspace gs))
    /\ MigrationState.len (MigrationState.init gs) <= List.length gs
    /\ (NoDup (map name_in_workspace gs) ->
        MigrationState.len (MigrationState.init gs) = List.length gs).
Proof.
  intros gs. unfold MigrationState.len, MigrationState.init. simpl.
  split; [unfold dict_keys; now rewrite length_map|].
  split; [unfold dict_of_items; apply fold_dict_set_NoDup; constructor|].
  split; [|split].
  - intros name. rewrite <- dict_mem_keys, dict_of_items_mem, map_map. reflexivity.
  - unfold dict_of_items.
    pose proof (fold_dict_set_length
                  (map (fun g => (name_in_workspace g, g)) gs) []) as Hlen.
    simpl in Hlen. now rewrite length_map in Hlen.
  - intros Hnd. rewrite dict_of_items_distinct.
    + apply length_map.
    + now rewrite map_map.
Qed.

Lemma migration_state_len_counts_names_example :
  MigrationState.len
    (MigrationState.init [data_eng_correspondence; sales_correspondence]) = 2
  /\ MigrationState.len
       (MigrationState.init [data_eng_correspondence; data_eng_correspondence]) <= 2.
Proof.
  split.
  - apply (proj2 (proj2 (proj2 (proj2
             (migration_state_len_counts_names
                [data_eng_correspondence; sales_correspondence]))))).
    repeat constructor; simpl; intuition discriminate.
  - apply (proj1 (proj2 (proj2 (proj2
             (migration_state_len_counts_names
                [data_eng_correspondence; data_eng_correspondence]))))).
Defined.

(* ===================================================================== *)
(** ** The include filter and the candidates of a strategy                *)
(* ===================================================================== *)

Lemma filter_keys_NoDup {V} (p : string * V -> bool) (d : dict string V) :
  NoDup (dict_keys d) -> NoDup (dict_keys (filter p d)).
Proof.
  unfold dict_keys. induction d as [|[k v] rest IH]; simpl; intros Hnd;
    [constructor|].
  inversion Hnd as [|x l Hnotin Hrest]; subst.
  destruct (p (k, v)); simpl; [|now apply IH].
  constructor; [|now apply IH].
  intros Hin. apply Hnotin. apply in_map_iff in Hin as (kv & Hk & Hin).
  apply filter_In in Hin as [Hin _]. apply in_map_iff. now exists kv.
Qed.

Lemma dict_get_filter_keys {V} (q : string -> bool) (k : string) (d : dict string V) :
  dict_get k (filter (fun kv => q (fst kv)) d)
  = if q k then dict_get k d else None.
Proof.
  induction d as [|[k' v] rest IH]; simpl; [now destruct (q k)|].
  destruct (q k') eqn:Hq'; simpl.
  - destruct (String.eqb k k') eqn:E.
    + apply String.eqb_eq in E. subst. now rewrite Hq'.
    + exact IH.
  - destruct (String.eqb k k') eqn:E; [|exact IH].
    apply String.eqb_eq in E. subst. rewrite Hq' in *. exact IH.
Qed.

(** A candidate of a strategy is an item of the workspace map, and its key
    is in the include list when that list restricts the migration. *)
Lemma filtered_groups_included ws include k g :
  In (k, g) (snd (GroupMigrationStrategy.get_filtered_groups ws include)) ->
  In (k, g) ws /\ included include k = true.
Proof.
  intros Hin. split; [now apply filtered_groups_subset in Hin|].
  unfold GroupMigrationStrategy.get_filtered_groups in Hin.
  destruct include as [[|n names]|]; simpl in *; try reflexivity.
  apply In_dict_of_items in Hin. apply filter_In in Hin as [_ Hk]. exact Hk.
Qed.

(** X3. With an include list that is not empty, the candidates are the
    workspace map restricted to the listed names: same order, same groups,
    and a lookup finds a group exactly when its name is listed and the
    workspace map has it. *)
Theorem include_filter_restricts_workspace_map :
  forall (ws : dict string Group) (n : string) (names : list string),
    NoDup (dict_keys ws) ->
    let filtered :=
      snd (GroupMigrationStrategy.get_filtered_groups ws (Some (n :: names))) in
    filtered = filter (fun kv => list_contains (fst kv) (n :: names)) ws
    /\ NoDup (dict_keys filtered)
    /\ (forall k, dict_get k filtered
                  = if list_contains k (n :: names) then dict_get k ws else None).
Proof.
  intros ws n names Hnd filtered.
  assert (Heq : filtered = filter (fun kv => list_contains (fst kv) (n :: names)) ws).
  { subst filtered. unfold GroupMigrationStrategy.get_filtered_groups. simpl snd.
    apply dict_of_items_distinct.
    now apply (filter_keys_NoDup
                 (fun kv : string * Group => list_contains (fst kv) (n :: names))). }
  split; [exact Heq|]. rewrite Heq. split.
  - now apply (filter_keys_NoDup
                 (fun kv : string * Group => list_contains (fst kv) (n :: names))).
  - intros k.
    apply (dict_get_filter_keys (fun k' => list_contains k' (n :: names))).
Qed.

Lemma include_filter_restricts_workspace_map_example :
  dict_keys (snd (GroupMigrationStrategy.get_filtered_groups
                    ops_and_data_eng_workspace (Some ["sales"; "ops"; "hr"])))
  = ["ops"; "sales"]
  /\ dict_get "data-eng"
       (snd (GroupMigrationStrategy.get_filtered_groups
               ops_and_data_eng_workspace (Some ["sales"; "ops"; "hr"])))
     = None.
Proof.
  destruct (@include_filter_restricts_workspace_map ops_and_data_eng_workspace
              "sales" ["ops"; "hr"])
    as (Heq & _ & Hget).
  - repeat constructor; simpl; intuition discriminate.
  - split.
    + rewrite Heq. reflexivity.
    + rewrite Hget. reflexivity.
Defined.

(* ===================================================================== *)
(** ** What the strategies yield                                          *)
(* ===================================================================== *)

Section StrategyLoops.
Variable json_dumps : list ComplexValue -> string.
Variable prefix : string.

Lemma matching_names_loop_spec acct gs :
  raised (MatchingNamesStrategy.loop json_dumps acct prefix gs) = None
  /\ List.length (yielded (MatchingNamesStrategy.loop json_dumps acct prefix gs))
     + List.length (logged (MatchingNamesStrategy.loop json_dumps acct prefix gs))
     = List.length gs
  /\ forall mg,
       In mg (yielded (MatchingNamesStrategy.loop json_dumps acct prefix gs))
       <-> exists g a,
             In g gs /\ dict_get_opt (display_name g) acct = Some a
             /\ mg = correspondence json_dumps prefix g (display_name g) a.
Proof.
  induction gs as [|g rest (IHr & IHl & IHy)]; simpl.
  - repeat split; auto; [contradiction | intros (g & a & [] & _)].
  - destruct (dict_get_opt (display_name g) acct) as [a|] eqn:Hget; simpl.
    + split; [exact IHr|]. split; [lia|].
      intros mg. rewrite IHy. split.
      * intros [<-|(g' & a' & Hin & Hrest)].
        -- exists g, a. repeat split; auto.
        -- exists g', a'. split; [now right | exact Hrest].
      * intros (g' & a' & [<-|Hin] & Hget' & ->).
        -- left. rewrite Hget in Hget'. now injection Hget' as <-.
        -- right. now exists g', a'.
    + split; [exact IHr|]. split; [lia|].
      intros mg. rewrite IHy. split.
      * intros (g' & a' & Hin & Hrest). exists g', a'. split; [now right | exact Hrest].
      * intros (g' & a' & [<-|Hin] & Hget' & ->); [congruence|]. now exists g', a'.
Qed.

Lemma external_id_loop_spec idx gs :
  raised (MatchByExternalIdStrategy.loop json_dumps prefix idx gs) = None
  /\ List.length (yielded (MatchByExternalIdStrategy.loop json_dumps prefix idx gs))
     + List.length (logged (MatchByExternalIdStrategy.loop json_dumps prefix idx gs))
     = List.length gs
  /\ forall mg,
       In mg (yielded (MatchByExternalIdStrategy.loop json_dumps prefix idx gs))
       <-> exists g a,
             In g gs /\ dict_get (external_id g) idx = Some a
             /\ mg = correspondence json_dumps prefix g (display_name a) a.
Proof.
  induction gs as [|g rest (IHr & IHl & IHy)]; simpl.
  - repeat split; auto; [contradiction | intros (g & a & [] & _)].
  - destruct (dict_get (external_id g) idx) as [a|] eqn:Hget; simpl.
    + split; [exact IHr|]. split; [lia|].
      intros mg. rewrite IHy. split.
      * intros [<-|(g' & a' & Hin & Hrest)].
        -- exists g, a. repeat split; auto.
        -- exists g', a'. split; [now right | exact Hrest].
      * intros (g' & a' & [<-|Hin] & Hget' & ->).
        -- left. rewrite Hget in Hget'. now injection Hget' as <-.
        -- right. now exists g', a'.
    + split; [exact IHr|]. split; [lia|].
      intros mg. rewrite IHy. split.
      * intros (g' & a' & Hin & Hrest). exists g', a'. split; [now right | exact Hrest].
      * intros (g' & a' & [<-|Hin] & Hget' & ->); [congruence|]. now exists g', a'.
Qed.

Lemma regex_match_loop_spec idx items :
  raised (RegexMatchStrategy.loop json_dumps prefix idx items) = None
  /\ List.length (yielded (RegexMatchStrategy.loop json_dumps prefix idx items))
     + List.length (logged (RegexMatchStrategy.loop json_dumps prefix idx items))
     = List.length items
  /\ forall mg,
       In mg (yielded (RegexMatchStrategy.loop json_dumps prefix idx items))
       <-> exists key g a,
             In (key, g) items /\ dict_get key idx = Some a
             /\ mg = correspondence json_dumps prefix g (display_name a) a.
Proof.
  induction items as [|[key g] rest (IHr & IHl & IHy)]; simpl.
  - repeat split; auto; [contradiction | intros (k & g & a & [] & _)].
  - destruct (dict_get key idx) as [a|] eqn:Hget; simpl.
    + split; [exact IHr|]. split; [lia|].
      intros mg. rewrite IHy. split.
      * intros [<-|(k' & g' & a' & Hin & Hrest)].
        -- exists key, g, a. repeat split; auto.
        -- exists k', g', a'. split; [now right | exact Hrest].
      * intros (k' & g' & a' & [[= <- <-]|Hin] & Hget' & ->).
        -- left. rewrite Hget in Hget'. now injection Hget' as <-.
        -- right. now exists k', g', a'.
    + split; [exact IHr|]. split; [lia|].
      intros mg. rewrite IHy. split.
      * intros (k' & g' & a' & Hin & Hrest).
        exists k', g', a'. split; [now right | exact Hrest].
      * intros (k' & g' & a' & [[= <- <-]|Hin] & Hget' & ->); [congruence|].
        now exists k', g', a'.
Qed.

Lemma regex_sub_loop_sound re_sub acct regex replace gs mg :
  In mg (yielded (RegexSubStrategy.loop re_sub json_dumps acct prefix regex replace gs)) ->
  exists g target a,
    In g gs /\ derived_name re_sub regex replace g = Some target
    /\ dict_get target acct = Some a
    /\ mg = correspondence json_dumps prefix g (Some target) a.
Proof.
  induction gs as [|g rest IH]; simpl; [contradiction|].
  destruct (display_name g) as [name|] eqn:Hname;
    [|destruct (GroupMigrationStrategy._safe_sub_none re_sub regex replace)
        as [logs [v|e]]; simpl; contradiction].
  assert (Hderived : derived_name re_sub regex replace g
                     = match snd (GroupMigrationStrategy._safe_sub re_sub name
                                    regex replace) with
                       | Val t => Some t
                       | Raise _ => None
                       end).
  { unfold derived_name. now rewrite Hname. }
  destruct (GroupMigrationStrategy._safe_sub re_sub name regex replace)
    as [logs [target|e]]; simpl in *; [|contradiction].
  unfold dict_subscript.
  destruct (dict_get target acct) as [a|] eqn:Hget; simpl; [|contradiction].
  intros [<-|Hin].
  - exists g, target, a. repeat split; auto.
    unfold correspondence. now rewrite Hname.
  - destruct (IH Hin) as (g' & t' & a' & Hg' & Hrest).
    exists g', t', a'. split; [now right | exact Hrest].
Qed.

End StrategyLoops.

Lemma length_gen_logs logs k :
  List.length (logged (gen_logs logs k)) = List.length logs + List.length (logged k).
Proof. simpl. apply length_app. Qed.

Lemma filter_log_length ws include :
  List.length (fst (GroupMigrationStrategy.get_filtered_groups ws include)) = 1.
Proof.
  unfold GroupMigrationStrategy.get_filtered_groups.
  now destruct (negb (truthy_list include)).
Qed.

(** X4. The Exact-name strategy never raises and accounts for every
    candidate: a candidate whose display name is a key of the account map
    is yielded as a correspondence (with the external id of that account
    group), any other candidate is logged as skipped, and nothing else is
    yielded; with the record of the include filter, yields and log records
    add up to the number of candidates plus one. *)
Theorem exact_name_strategy_accounts_for_every_candidate :
  forall (json_dumps : list ComplexValue -> string)
         (ws acct : dict string Group) (prefix : string)
         (include : option (list string)),
    let candidates := snd (GroupMigrationStrategy.get_filtered_groups ws include) in
    let out := MatchingNamesStrategy.generate_migrated_groups
                 json_dumps acct prefix ws include in
    raised out = None
    /\ List.length (yielded out) + List.length (logged out)
       = S (List.length candidates)
    /\ forall mg,
         In mg (yielded out)
         <-> exists k g a,
               In (k, g) candidates
               /\ dict_get_opt (display_name g) acct = Some a
               /\ mg = correspondence json_dumps prefix g (display_name g) a.
Proof.
  intros json_dumps ws acct prefix include candidates out.
  subst candidates out. unfold MatchingNamesStrategy.generate_migrated_groups.
  pose proof (filter_log_length ws include) as Hlog.
  destruct (GroupMigrationStrategy.get_filtered_groups ws include)
    as [logs filtered]. simpl in Hlog. simpl snd.
  destruct (matching_names_loop_spec json_dumps prefix acct (dict_values filtered))
    as (Hr & Hl & Hy).
  rewrite raised_gen_logs, yielded_gen_logs, length_gen_logs.
  split; [exact Hr|]. split.
  - unfold dict_values in *. rewrite length_map in Hl. lia.
  - intros mg. rewrite Hy. split.
    + intros (g & a & Hin & Hrest). unfold dict_values in Hin.
      apply in_map_iff in Hin as ([k g'] & <- & Hin). now exists k, g', a.
    + intros (k & g & a & Hin & Hrest). exists g, a. split; [|exact Hrest].
      unfold dict_values. apply in_map_iff. now exists (k, g).
Qed.

Lemma exact_name_strategy_accounts_example :
  In data_eng_correspondence
     (yielded (MatchingNamesStrategy.generate_migrated_groups LiteralRegex.json_dumps
                 data_eng_account "ucx-renamed-" data_eng_workspace None)).
Proof.
  apply (proj2 (proj2 (exact_name_strategy_accounts_for_every_candidate
                         LiteralRegex.json_dumps data_eng_workspace
                         data_eng_account "ucx-renamed-" None))).
  exists "data-eng", (Directory.workspace_group "101" "data-eng"),
         (Directory.account_group "901" "data-eng").
  split; [now left|]. split; reflexivity.
Defined.

Lemma external_id_index_sound acct ext a :
  dict_get ext (MatchByExternalIdStrategy.index_by_external_id acct) = Some a ->
  In a (dict_values acct) /\ external_id a = ext.
Proof.
  unfold MatchByExternalIdStrategy.index_by_external_id. intros Hget.
  apply dict_get_In, In_dict_of_items, in_map_iff in Hget as (a' & [= <- <-] & Hin).
  now split.
Qed.

(** X5. The External-ID strategy never raises and accounts for every
    candidate.  What it yields for a candidate is its pairing with an
    account group of the same external id; a candidate is yielded as soon
    as some account group has its external id, and when several do the
    last one of the account map wins.  Equality of external ids includes
    the case where both are absent: a workspace group without external id
    is paired with the last account group without one. *)
Theorem external_id_strategy_pairs_equal_external_ids :
  forall (json_dumps : list ComplexValue -> string)
         (ws acct : dict string Group) (prefix : string)
         (include : option (list string)),
    let candidates := snd (GroupMigrationStrategy.get_filtered_groups ws include) in
    let out := MatchByExternalIdStrategy.generate_migrated_groups
                 json_dumps prefix ws acct include in
    raised out = None
    /\ List.length (yielded out) + List.length (logged out)
       = S (List.length candidates)
    /\ (forall mg,
          In mg (yielded out) ->
          exists k g a,
            In (k, g) candidates /\ In a (dict_values acct)
            /\ external_id a = external_id g
            /\ mg = correspondence json_dumps prefix g (display_name a) a)
    /\ (forall k g before a after,
          In (k, g) candidates ->
          dict_values acct = before ++ a :: after ->
          external_id a = external_id g ->
          (forall a', In a' after -> external_id a' <> external_id g) ->
          In (correspondence json_dumps prefix g (display_name a) a) (yielded out)).
Proof.
  intros json_dumps ws acct prefix include candidates out.
  subst candidates out. unfold MatchByExternalIdStrategy.generate_migrated_groups.
  pose proof (filter_log_length ws include) as Hlog.
  destruct (GroupMigrationStrategy.get_filtered_groups ws include)
    as [logs filtered]. simpl in Hlog. simpl snd.
  destruct (external_id_loop_spec json_dumps prefix
              (MatchByExternalIdStrategy.index_by_external_id acct)
              (dict_values filtered)) as (Hr & Hl & Hy).
  rewrite raised_gen_logs, yielded_gen_logs, length_gen_logs.
  split; [exact Hr|]. split; [|split].
  - unfold dict_values in *. rewrite length_map in Hl. lia.
  - intros mg Hin. apply Hy in Hin as (g & a & Hg & Hget & ->).
    unfold dict_values in Hg. apply in_map_iff in Hg as ([k g'] & <- & Hg).
    apply external_id_index_sound in Hget as [Ha Hext].
    now exists k, g', a.
  - intros k g before a after Hcand Hvalues Hext Hafter.
    apply Hy. exists g, a. split; [|split; [|reflexivity]].
    + unfold dict_values. apply in_map_iff. now exists (k, g).
    + unfold MatchByExternalIdStrategy.index_by_external_id.
      rewrite Hvalues, map_app. simpl. rewrite Hext.
      apply dict_of_items_last.
      intros kv Hkv. apply in_map_iff in Hkv as (a' & <- & Ha'). simpl.
      now apply Hafter.
Qed.

(** Two account groups share the external id of workspace group eng: the
    later one, engineering, is its target; workspace group local has no
    external id and is paired with account group unsynced, which has none
    either. *)
Lemma external_id_strategy_example :
  In (correspondence LiteralRegex.json_dumps "ucx-renamed-"
        (with_external_id (Some "x-1") (Directory.workspace_group "101" "eng"))
        (Some "engineering")
        (with_external_id (Some "x-1") (Directory.account_group "901" "engineering")))
     (yielded (MatchByExternalIdStrategy.generate_migrated_groups
                 LiteralRegex.json_dumps "ucx-renamed-" external_workspace
                 external_account None))
  /\ In (correspondence LiteralRegex.json_dumps "ucx-renamed-"
           (Directory.workspace_group "102" "local") (Some "unsynced")
           (Directory.account_group "902" "unsynced"))
        (yielded (MatchByExternalIdStrategy.generate_migrated_groups
                    LiteralRegex.json_dumps "ucx-renamed-" external_workspace
                    external_account None)).
Proof.
  destruct (external_id_strategy_pairs_equal_external_ids LiteralRegex.json_dumps
              external_workspace external_account "ucx-renamed-" None)
    as (_ & _ & _ & Hlast).
  split.
  - apply (Hlast "eng" _
             [with_external_id (Some "x-1")
                (Directory.account_group "900" "engineering-old")]
             (with_external_id (Some "x-1") (Directory.account_group "901" "engineering"))
             [Directory.account_group "902" "unsynced"]).
    + now left.
    + reflexivity.
    + reflexivity.
    + intros a' [<-|[]]. discriminate.
  - apply (Hlast "local" _
             [with_external_id (Some "x-1")
                (Directory.account_group "900" "engineering-old");
              with_external_id (Some "x-1")
                (Directory.account_group "901" "engineering")]
             (Directory.account_group "902" "unsynced") []).
    + right. now left.
    + reflexivity.
    + reflexivity.
    + intros a' [].
Defined.

Section RegexMatchIndex.
Variable re_search : string -> string -> res (option Match).

Lemma index_by_match_sound match_re items :
  forall acc idx,
    RegexMatchStrategy.index_by_match re_search match_re items acc = Val idx ->
    forall key g,
      In (key, g) idx ->
      In (key, g) acc
      \/ exists name,
           In (name, g) items
           /\ GroupMigrationStrategy._safe_match re_search name match_re = Val key.
Proof.
  induction items as [|[name g0] rest IH]; simpl; intros acc idx Hidx key g Hin.
  - injection Hidx as <-. now left.
  - destruct (GroupMigrationStrategy._safe_match re_search name match_re)
      as [k0|e] eqn:Hkey; [|discriminate].
    destruct (IH _ _ Hidx key g Hin) as [Hacc|(n & Hn & Hm)].
    + destruct (In_dict_set _ _ _ _ _ Hacc) as [[= -> ->]|Hacc'].
      * right. exists name. split; [now left | exact Hkey].
      * now left.
    + right. exists n. split; [now right | exact Hm].
Qed.

Lemma index_by_match_shape match_re items :
  forall acc idx,
    RegexMatchStrategy.index_by_match re_search match_re items acc = Val idx ->
    NoDup (dict_keys acc) ->
    NoDup (dict_keys idx)
    /\ List.length idx <= List.length acc + List.length items.
Proof.
  induction items as [|[name g0] rest IH]; simpl; intros acc idx Hidx Hnd.
  - injection Hidx as <-. split; [exact Hnd | lia].
  - destruct (GroupMigrationStrategy._safe_match re_search name match_re)
      as [k0|e] eqn:Hkey; [|discriminate].
    destruct (IH _ _ Hidx (dict_set_NoDup k0 g0 acc Hnd)) as [Hnd' Hlen].
    split; [exact Hnd'|].
    assert (List.length (dict_set k0 g0 acc) <= S (List.length acc)).
    { clear. induction acc as [|[k' v'] r IHr]; simpl; [lia|].
      destruct (opt_eqb String.eqb k0 k'); simpl; lia. }
    lia.
Qed.

Lemma safe_match_total name match_re :
  (forall e, re_search match_re name = Raise e -> e = re_error) ->
  exists key, GroupMigrationStrategy._safe_match re_search name match_re = Val key.
Proof.
  intros Honly. unfold GroupMigrationStrategy._safe_match.
  destruct (re_search match_re name) as [[m|]|e] eqn:E.
  - destruct (capture_groups m); eauto.
  - eauto.
  - rewrite (Honly e eq_refl). eauto.
Qed.

Lemma index_by_match_total match_re items :
  (forall name e, re_search match_re name = Raise e -> e = re_error) ->
  forall acc, exists idx,
    RegexMatchStrategy.index_by_match re_search match_re items acc = Val idx.
Proof.
  intros Honly. induction items as [|[name g0] rest IH]; simpl; intros acc.
  - eauto.
  - destruct (@safe_match_total name match_re (Honly name)) as [key ->]. apply IH.
Qed.

End RegexMatchIndex.

(** X6. The Regex-match strategy pairs equal keys only: what it yields for
    a candidate is its pairing with an account group whose name
    [_safe_match] maps, under the account regex, to the key it derives from
    the candidate's name under the workspace regex.  When the regex engine
    raises nothing but [re.error], the strategy does not raise; the
    candidates are indexed by key without duplicates, so candidates whose
    keys collide leave one entry, and yields and log records add up to the
    number of entries plus one. *)
Theorem regex_match_strategy_pairs_equal_keys :
  forall (re_search : string -> string -> res (option Match))
         (json_dumps : list ComplexValue -> string)
         (ws acct : dict string Group) (prefix : string)
         (include : option (list string))
         (workspace_group_regex account_group_regex : string),
    let candidates := snd (GroupMigrationStrategy.get_filtered_groups ws include) in
    let out := RegexMatchStrategy.generate_migrated_groups re_search json_dumps
                 prefix ws acct include workspace_group_regex account_group_regex in
    (forall mg,
        In mg (yielded out) ->
        exists name g account_name a key,
          In (name, g) candidates /\ In (account_name, a) acct
          /\ GroupMigrationStrategy._safe_match re_search name workspace_group_regex
             = Val key
          /\ GroupMigrationStrategy._safe_match re_search account_name
               account_group_regex = Val key
          /\ mg = correspondence json_dumps prefix g (display_name a) a)
    /\ ((forall p s e, re_search p s = Raise e -> e = re_error) ->
        raised out = None
        /\ exists idx,
             RegexMatchStrategy.index_by_match re_search workspace_group_regex
               candidates [] = Val idx
             /\ NoDup (dict_keys idx)
             /\ List.length idx <= List.length candidates
             /\ List.length (yielded out) + List.length (logged out)
                = S (List.length idx)).
Proof.
  intros re_search json_dumps ws acct prefix include ws_re acct_re candidates out.
  subst candidates out. unfold RegexMatchStrategy.generate_migrated_groups.
  pose proof (filter_log_length ws include) as Hlog.
  destruct (GroupMigrationStrategy.get_filtered_groups ws include)
    as [logs filtered]. simpl in Hlog. simpl snd.
  split.
  - intros mg. rewrite yielded_gen_logs.
    destruct (RegexMatchStrategy.index_by_match re_search ws_re filtered [])
      as [widx|e] eqn:Hw; [|contradiction].
    destruct (RegexMatchStrategy.index_by_match re_search acct_re acct [])
      as [aidx|e] eqn:Ha; [|contradiction].
    intros Hin.
    apply (regex_match_loop_spec json_dumps prefix aidx widx) in Hin
      as (key & g & a & Hg & Hget & ->).
    destruct (@index_by_match_sound re_search ws_re filtered [] widx Hw key g Hg)
      as [[]|(name & Hname & Hkey)].
    apply dict_get_In in Hget.
    destruct (@index_by_match_sound re_search acct_re acct [] aidx Ha key a Hget)
      as [[]|(aname & Haname & Hakey)].
    now exists name, g, aname, a, key.
  - intros Honly.
    destruct (@index_by_match_total re_search ws_re filtered
                (fun name e => Honly ws_re name e) []) as [widx Hw].
    destruct (@index_by_match_total re_search acct_re acct
                (fun name e => Honly acct_re name e) []) as [aidx Ha].
    rewrite Hw, Ha. rewrite raised_gen_logs, yielded_gen_logs, length_gen_logs.
    destruct (regex_match_loop_spec json_dumps prefix aidx widx) as (Hr & Hl & _).
    split; [exact Hr|]. exists widx. split; [reflexivity|].
    destruct (@index_by_match_shape re_search ws_re filtered [] widx Hw) as [Hnd Hlen];
      [constructor|].
    split; [exact Hnd|]. split; [simpl in Hlen; lia | lia].
Qed.

Lemma literal_re_search_raises_re_error_only p s e :
  LiteralRegex.re_search p s = Raise e -> e = re_error.
Proof.
  unfold LiteralRegex.re_search.
  destruct (LiteralRegex.parse p) as [| | |text|text]; try discriminate.
  - now intros [= <-].
  - destruct (LiteralRegex.occurs text s); discriminate.
  - destruct (LiteralRegex.occurs text s); discriminate.
Qed.

Lemma regex_match_strategy_example :
  (exists name g account_name a key,
    In (name, g) eng_team_workspace /\ In (account_name, a) corp_eng_account
    /\ GroupMigrationStrategy._safe_match LiteralRegex.re_search name "(eng)" = Val key
    /\ GroupMigrationStrategy._safe_match LiteralRegex.re_search account_name "(eng)"
       = Val key
    /\ name_in_account
         (correspondence LiteralRegex.json_dumps "ucx-renamed-" g (display_name a) a)
       = Some "corp-eng")
  /\ raised (RegexMatchStrategy.generate_migrated_groups LiteralRegex.re_search
               LiteralRegex.json_dumps "ucx-renamed-" eng_team_workspace
               corp_eng_account None "(eng)" "(eng)") = None.
Proof.
  split;
    [|apply (proj2 (regex_match_strategy_pairs_equal_keys LiteralRegex.re_search
                      LiteralRegex.json_dumps eng_team_workspace corp_eng_account
                      "ucx-renamed-" None "(eng)" "(eng)")
               literal_re_search_raises_re_error_only)].
  destruct (proj1 (regex_match_strategy_pairs_equal_keys LiteralRegex.re_search
                     LiteralRegex.json_dumps eng_team_workspace corp_eng_account
                     "ucx-renamed-" None "(eng)" "(eng)")
              (correspondence LiteralRegex.json_dumps "ucx-renamed-"
                 (Directory.workspace_group "101" "eng-team") (Some "corp-eng")
                 (Directory.account_group "901" "corp-eng")))
    as (name & g & aname & a & key & Hg & Ha & Hk & Hak & Hmg).
  - vm_compute. left. reflexivity.
  - exists name, g, aname, a, key. repeat split; try assumption.
    now rewrite <- Hmg.
Defined.

(** X7. Whatever strategy is selected, a correspondence it yields is built
    from an item of the workspace map: it carries the id, the display name
    and the serialised members, roles and entitlements of that workspace
    group, its [temporary_name] is the prefix followed by its
    [name_in_workspace], and when the include list restricts the migration
    the key of the item is in that list. *)
Theorem strategies_yield_listed_workspace_groups :
  forall (re_search : string -> string -> res (option Match))
         (re_sub : string -> string -> string -> res string)
         (json_dumps : list ComplexValue -> string)
         (self : Crawler.config) (s : Crawler.strategy)
         (ws acct : dict string Group) (mg : MigratedGroup),
    In mg (yielded (Crawler.generate_migrated_groups re_search re_sub json_dumps
                      self s ws acct)) ->
    exists k g,
      In (k, g) ws
      /\ included (Crawler._include_group_names self) k = true
      /\ id_in_workspace mg = id g
      /\ name_in_workspace mg = display_name g
      /\ temporary_name mg
         = Crawler._renamed_group_prefix self +:+ py_str (name_in_workspace mg)
      /\ mg_members mg = GroupMigrationStrategy.dump_blob json_dumps (members g)
      /\ mg_roles mg = GroupMigrationStrategy.dump_blob json_dumps (roles g)
      /\ mg_entitlements mg
         = GroupMigrationStrategy.dump_blob json_dumps (entitlements g).
Proof.
  intros re_search re_sub json_dumps self s ws acct mg.
  assert (Hcandidate : forall g,
            In g (dict_values
                    (snd (GroupMigrationStrategy.get_filtered_groups ws
                            (Crawler._include_group_names self)))) ->
            exists k, In (k, g) ws
                      /\ included (Crawler._include_group_names self) k = true).
  { intros g Hg. unfold dict_values in Hg.
    apply in_map_iff in Hg as ([k g'] & <- & Hin).
    exists k. now apply filtered_groups_included. }
  destruct s as [regex replace|regex account_regex| |];
    unfold Crawler.generate_migrated_groups.
  - unfold RegexSubStrategy.generate_migrated_groups.
    destruct (GroupMigrationStrategy.get_filtered_groups ws _) as [logs filtered].
    rewrite yielded_gen_logs. intros Hin.
    apply regex_sub_loop_sound in Hin as (g & target & a & Hg & _ & _ & ->).
    destruct (Hcandidate g Hg) as (k & Hk & Hinc).
    exists k, g. repeat split; auto.
  - unfold RegexMatchStrategy.generate_migrated_groups.
    pose proof (fun k g => @filtered_groups_included ws
                             (Crawler._include_group_names self) k g) as Hitem.
    destruct (GroupMigrationStrategy.get_filtered_groups ws _) as [logs filtered].
    rewrite yielded_gen_logs. simpl snd in *.
    destruct (RegexMatchStrategy.index_by_match re_search regex filtered [])
      as [widx|e] eqn:Hw; [|contradiction].
    destruct (RegexMatchStrategy.index_by_match re_search account_regex acct [])
      as [aidx|e] eqn:Ha; [|contradiction].
    intros Hin.
    apply (regex_match_loop_spec json_dumps _ aidx widx) in Hin
      as (key & g & a & Hg & _ & ->).
    destruct (@index_by_match_sound re_search regex filtered [] widx Hw key g Hg)
      as [[]|(name & Hname & _)].
    destruct (Hitem name g Hname) as [Hws Hinc].
    exists name, g. repeat split; auto.
  - unfold MatchByExternalIdStrategy.generate_migrated_groups.
    destruct (GroupMigrationStrategy.get_filtered_groups ws _) as [logs filtered].
    rewrite yielded_gen_logs. intros Hin.
    apply (external_id_loop_spec json_dumps) in Hin as (g & a & Hg & _ & ->).
    destruct (Hcandidate g Hg) as (k & Hk & Hinc).
    exists k, g. repeat split; auto.
  - unfold MatchingNamesStrategy.generate_migrated_groups.
    destruct (GroupMigrationStrategy.get_filtered_groups ws _) as [logs filtered].
    rewrite yielded_gen_logs. intros Hin.
    apply (matching_names_loop_spec json_dumps) in Hin as (g & a & Hg & _ & ->).
    destruct (Hcandidate g Hg) as (k & Hk & Hinc).
    exists k, g. repeat split; auto.
Qed.

Lemma strategies_yield_listed_workspace_groups_example :
  exists k g,
    In (k, g) external_workspace
    /\ included (Some ["local"]) k = true
    /\ id g = "102".
Proof.
  destruct (@strategies_yield_listed_workspace_groups LiteralRegex.re_search
              LiteralRegex.re_sub LiteralRegex.json_dumps
              (Crawler.init (Some ["local"]) None None None None true)
              Crawler.UseExternalId external_workspace external_account
              (correspondence LiteralRegex.json_dumps "ucx-renamed-"
                 (Directory.workspace_group "102" "local") (Some "unsynced")
                 (Directory.account_group "902" "unsynced")))
    as (k & g & Hin & Hinc & Hid & _).
  - vm_compute. left. reflexivity.
  - exists k, g. repeat split; auto.
Defined.

(** X8. When the name derived for every candidate is a key of the account
    map, the Regex-substitute strategy does not raise and yields one
    correspondence per candidate, in order, whose [name_in_account] is the
    derived name. *)
Theorem regex_sub_strategy_all_matched :
  forall (re_sub : string -> string -> string -> res string)
         (json_dumps : list ComplexValue -> string)
         (ws acct : dict string Group) (include : option (list string))
         (prefix regex replace : string),
    let candidates :=
      dict_values (snd (GroupMigrationStrategy.get_filtered_groups ws include)) in
    (forall g, In g candidates ->
       exists t, derived_name re_sub regex replace g = Some t
                 /\ dict_mem t acct = true) ->
    let out := RegexSubStrategy.generate_migrated_groups re_sub json_dumps acct
                 prefix regex replace ws include in
    raised out = None
    /\ map id_in_workspace (yielded out) = map id candidates
    /\ map name_in_workspace (yielded out) = map display_name candidates
    /\ map name_in_account (yielded out)
       = map (derived_name re_sub regex replace) candidates.
Proof.
  intros re_sub json_dumps ws acct include prefix regex replace candidates
         Hall out.
  subst candidates out. unfold RegexSubStrategy.generate_migrated_groups.
  destruct (GroupMigrationStrategy.get_filtered_groups ws include)
    as [logs filtered]. simpl snd in *.
  rewrite raised_gen_logs, yielded_gen_logs.
  destruct (@regex_sub_loop_matched_prefix re_sub json_dumps acct prefix regex
              replace (dict_values filtered) [] Hall) as (Hr & Hi & Hn & _).
  rewrite app_nil_r in Hr, Hi, Hn. simpl in Hr, Hi, Hn.
  rewrite app_nil_r in Hi, Hn.
  split; [exact Hr|]. split; [exact Hi|]. split; [exact Hn|].
  clear Hr Hi Hn.
  induction (dict_values filtered) as [|g rest IH]; [reflexivity|].
  assert (Hrest : forall g', In g' rest ->
            exists t, derived_name re_sub regex replace g' = Some t
                      /\ dict_mem t acct = true)
    by (intros g' Hg'; apply Hall; now right).
  specialize (IH Hrest).
  destruct (Hall g (or_introl eq_refl)) as (t & Hd & Hmem).
  change (map (derived_name re_sub regex replace) (g :: rest))
    with (derived_name re_sub regex replace g
          :: map (derived_name re_sub regex replace) rest).
  rewrite Hd. unfold derived_name in Hd.
  simpl RegexSubStrategy.loop.
  destruct (display_name g) as [name|]; [|discriminate].
  unfold dict_subscript. unfold dict_mem in Hmem.
  destruct (GroupMigrationStrategy._safe_sub re_sub name regex replace)
    as [l [target|e]]; simpl in Hd; [|discriminate].
  injection Hd as ->.
  destruct (dict_get t acct); [|discriminate].
  simpl. f_equal. exact IH.
Qed.

Lemma regex_sub_strategy_all_matched_example :
  map name_in_account
    (yielded (RegexSubStrategy.generate_migrated_groups LiteralRegex.re_sub
                LiteralRegex.json_dumps corp_account "ucx-renamed-" "^" "corp-"
                ops_and_data_eng_workspace (Some ["ops"; "sales"])))
  = [Some "corp-ops"; Some "corp-sales"].
Proof.
  destruct (@regex_sub_strategy_all_matched LiteralRegex.re_sub
              LiteralRegex.json_dumps ops_and_data_eng_workspace corp_account
              (Some ["ops"; "sales"]) "ucx-renamed-" "^" "corp-")
    as (_ & _ & _ & Hnames).
  - intros g [<-|[<-|[]]].
    + exists "corp-ops". split; reflexivity.
    + exists "corp-sales". split; reflexivity.
  - rewrite Hnames. reflexivity.
Defined.

(* ===================================================================== *)
(** ** What the three phases schedule                                     *)
(* ===================================================================== *)

(** X9. The loop of [rename_groups] logs one record per correspondence and
    schedules, in snapshot order, a rename of [id_in_workspace] to
    [temporary_name] for exactly the correspondences that pass neither skip
    test.  A correspondence whose account group is not yet in the workspace
    but whose temporary name already is, is logged as already renamed. *)
Theorem rename_plan_accounts_for_every_correspondence :
  forall (acct wsg : dict string Group) (snapshot : list MigratedGroup),
    let logs := fst (GroupManager.rename_tasks acct wsg snapshot) in
    let tasks := snd (GroupManager.rename_tasks acct wsg snapshot) in
    List.length logs = List.length snapshot
    /\ tasks
       = map (fun mg => RenameGroup (id_in_workspace mg) (temporary_name mg))
             (filter (fun mg => negb (dict_mem_opt (name_in_account mg) acct)
                                && negb (dict_mem (temporary_name mg) wsg))
                     snapshot)
    /\ (forall mg,
          In mg snapshot ->
          dict_mem_opt (name_in_account mg) acct = false ->
          dict_mem (temporary_name mg) wsg = true ->
          In (INFO, "Skipping " +:+ py_str (name_in_workspace mg)
                    +:+ ": already renamed") logs).
Proof.
  intros acct wsg snapshot logs tasks. subst logs tasks.
  induction snapshot as [|mg rest (IHl & IHt & IHs)]; simpl.
  - repeat split; auto; intros mg [].
  - destruct (GroupManager.rename_tasks acct wsg rest) as [logs tasks].
    simpl in IHl, IHt, IHs.
    destruct (dict_mem_opt (name_in_account mg) acct) eqn:Hacc; simpl.
    + split; [now rewrite IHl|]. split; [exact IHt|].
      intros mg' [<-|Hin] Ha Ht; [congruence|]. right. now apply IHs.
    + destruct (dict_mem (temporary_name mg) wsg) eqn:Htmp; simpl.
      * split; [now rewrite IHl|]. split; [exact IHt|].
        intros mg' [<-|Hin] Ha Ht; [now left|]. right. now apply IHs.
      * split; [now rewrite IHl|]. split; [now rewrite IHt|].
        intros mg' [<-|Hin] Ha Ht; [congruence|]. right. now apply IHs.
Qed.

Lemma rename_plan_example :
  In (INFO, "Skipping data-eng: already renamed")
     (fst (GroupManager.rename_tasks
             (snd (GroupManager._account_groups_in_workspace Directory.client
                     directory_after_rename))
             (snd (GroupManager._workspace_groups_in_workspace Directory.client
                     directory_after_rename))
             [data_eng_correspondence])).
Proof.
  apply (proj2 (proj2 (rename_plan_accounts_for_every_correspondence
                         (snd (GroupManager._account_groups_in_workspace
                                 Directory.client directory_after_rename))
                         (snd (GroupManager._workspace_groups_in_workspace
                                 Directory.client directory_after_rename))
                         [data_eng_correspondence]))
           data_eng_correspondence).
  - now left.
  - reflexivity.
  - reflexivity.
Defined.

(** X10. The loop of [reflect_account_groups_on_workspace] either logs a
    skip or schedules a job for every correspondence.  A job is scheduled
    exactly for a correspondence whose [name_in_account] is not yet listed
    in the workspace and is a key of the account listing, and it carries
    the id of the account group found under that name; a correspondence
    without [name_in_account] is never reflected. *)
Theorem reflect_plan_accounts_for_every_correspondence :
  forall (account_groups_in_account account_groups_in_workspace : dict string Group)
         (snapshot : list MigratedGroup),
    let logs := fst (GroupManager.reflect_tasks account_groups_in_account
                       account_groups_in_workspace snapshot) in
    let tasks := snd (GroupManager.reflect_tasks account_groups_in_account
                        account_groups_in_workspace snapshot) in
    List.length logs + List.length tasks = List.length snapshot
    /\ (forall j,
          In j tasks
          <-> exists mg n a,
                In mg snapshot /\ name_in_account mg = Some n
                /\ dict_mem n account_groups_in_workspace = false
                /\ dict_get n account_groups_in_account = Some a
                /\ j = ReflectAccountGroup (id a)).
Proof.
  intros acc acw snapshot logs tasks. subst logs tasks.
  induction snapshot as [|mg rest (IHl & IHt)]; simpl.
  - split; [reflexivity|]. intros j. split; [contradiction|].
    intros (mg & n & a & [] & _).
  - destruct (GroupManager.reflect_tasks acc acw rest) as [logs tasks].
    simpl in IHl, IHt.
    assert (Hrest : forall j,
              (exists mg' n a,
                  In mg' rest /\ name_in_account mg' = Some n
                  /\ dict_mem n acw = false /\ dict_get n acc = Some a
                  /\ j = ReflectAccountGroup (id a))
              -> exists mg' n a,
                  (mg = mg' \/ In mg' rest) /\ name_in_account mg' = Some n
                  /\ dict_mem n acw = false /\ dict_get n acc = Some a
                  /\ j = ReflectAccountGroup (id a)).
    { intros j (mg' & n & a & Hin & Hrest). exists mg', n, a.
      split; [now right | exact Hrest]. }
    unfold dict_mem_opt, dict_get_opt.
    destruct (name_in_account mg) as [n|] eqn:Hname.
    + fold (dict_mem n acw).
      destruct (dict_mem n acw) eqn:Hvis; simpl.
      * split; [lia|]. intros j. rewrite IHt. split; [apply Hrest|].
        intros (mg' & n' & a & [<-|Hin] & Hn & Hv & Hrest').
        -- rewrite Hname in Hn. injection Hn as <-. congruence.
        -- now exists mg', n', a.
      * destruct (dict_get n acc) as [a|] eqn:Hget; simpl.
        -- split; [lia|]. intros j. rewrite IHt. split.
           ++ intros [<-|Hj]; [|now apply Hrest].
              exists mg, n, a. repeat split; auto.
           ++ intros (mg' & n' & a' & [<-|Hin] & Hn & Hv & Hg & ->).
              ** left. rewrite Hname in Hn. injection Hn as <-. congruence.
              ** right. now exists mg', n', a'.
        -- split; [lia|]. intros j. rewrite IHt. split; [apply Hrest|].
           intros (mg' & n' & a' & [<-|Hin] & Hn & Hv & Hg & ->).
           ++ rewrite Hname in Hn. injection Hn as <-. congruence.
           ++ now exists mg', n', a'.
    + simpl. split; [lia|]. intros j. rewrite IHt. split; [apply Hrest|].
      intros (mg' & n' & a' & [<-|Hin] & Hn & Hrest'); [congruence|].
      now exists mg', n', a'.
Qed.

Lemma reflect_plan_example :
  In (ReflectAccountGroup "901")
     (snd (GroupManager.reflect_tasks data_eng_account [] [data_eng_correspondence])).
Proof.
  apply (proj2 (reflect_plan_accounts_for_every_correspondence
                  data_eng_account [] [data_eng_correspondence])).
  exists data_eng_correspondence, "data-eng",
         (Directory.account_group "901" "data-eng").
  repeat split; auto. now left.
Defined.

(** X11. The loop of [delete_original_workspace_groups] either logs a skip
    or schedules a deletion for every correspondence of the snapshot, and
    every correspondence whose temporary name is in the workspace listing
    and whose account group is visible in the workspace is scheduled, in
    snapshot order. *)
Theorem delete_plan_accounts_for_every_correspondence :
  forall (wsg acct : dict string Group) (snapshot : list MigratedGroup),
    let logs := fst (GroupManager.delete_tasks wsg acct snapshot) in
    let tasks := snd (GroupManager.delete_tasks wsg acct snapshot) in
    List.length logs + List.length tasks = List.length snapshot
    /\ tasks
       = map (fun mg => DeleteWorkspaceGroup (id_in_workspace mg) (temporary_name mg))
             (filter (fun mg => dict_mem (temporary_name mg) wsg
                                && dict_mem_opt (name_in_account mg) acct)
                     snapshot)
    /\ (forall mg,
          In mg snapshot ->
          dict_mem (temporary_name mg) wsg = true ->
          dict_mem_opt (name_in_account mg) acct = true ->
          In (DeleteWorkspaceGroup (id_in_workspace mg) (temporary_name mg)) tasks).
Proof.
  intros wsg acct snapshot logs tasks. subst logs tasks.
  induction snapshot as [|mg rest (IHl & IHt & IHs)]; simpl.
  - repeat split; auto; intros mg [].
  - destruct (GroupManager.delete_tasks wsg acct rest) as [logs tasks].
    simpl in IHl, IHt, IHs.
    destruct (dict_mem (temporary_name mg) wsg) eqn:Htmp; simpl.
    + destruct (dict_mem_opt (name_in_account mg) acct) eqn:Hacc; simpl.
      * split; [lia|]. split; [now rewrite IHt|].
        intros mg' [<-|Hin] Ht Ha; [now left|]. right. now apply IHs.
      * split; [lia|]. split; [exact IHt|].
        intros mg' [<-|Hin] Ht Ha; [congruence|]. now apply IHs.
    + split; [lia|]. split; [exact IHt|].
      intros mg' [<-|Hin] Ht Ha; [congruence|]. now apply IHs.
Qed.

Lemma delete_plan_example :
  In (DeleteWorkspaceGroup "101" "ucx-renamed-data-eng")
     (snd (GroupManager.delete_tasks
             (snd (GroupManager._workspace_groups_in_workspace Directory.client
                     directory_after_reflect))
             (snd (GroupManager._account_groups_in_workspace Directory.client
                     directory_after_reflect))
             [data_eng_correspondence])).
Proof.
  apply (proj2 (proj2 (delete_plan_accounts_for_every_correspondence
                         (snd (GroupManager._workspace_groups_in_workspace
                                 Directory.client directory_after_reflect))
                         (snd (GroupManager._account_groups_in_workspace
                                 Directory.client directory_after_reflect))
                         [data_eng_correspondence]))
           data_eng_correspondence).
  - now left.
  - reflexivity.
  - reflexivity.
Defined.

(* ===================================================================== *)
(** ** The jobs under retry                                               *)
(* ===================================================================== *)

Section ReflectJob.
Import Directory.
Variable retry_budget : nat.

Lemma reflect_job_already_assigned {W} (ws : WorkspaceClient W)
      account_group_id w w' :
  permission_assign ws account_group_id w = (Raise BadRequest, w') ->
  GroupManager._reflect_account_group_to_workspace ws retry_budget account_group_id w
  = ([], Val PyTrue, w').
Proof.
  intros Hassign.
  unfold GroupManager._reflect_account_group_to_workspace, rate_limited.
  destruct retry_budget; simpl;
    unfold GroupManager._reflect_account_group_to_workspace_body;
    now rewrite Hassign.
Qed.

Lemma reflect_job_assigned {W} (ws : WorkspaceClient W) account_group_id w w' :
  permission_assign ws account_group_id w = (Val tt, w') ->
  GroupManager._reflect_account_group_to_workspace ws retry_budget account_group_id w
  = ([], Val PyTrue, w').
Proof.
  intros Hassign.
  unfold GroupManager._reflect_account_group_to_workspace, rate_limited.
  destruct retry_budget; simpl;
    unfold GroupManager._reflect_account_group_to_workspace_body;
    now rewrite Hassign.
Qed.

(** Reflecting a known account group into a directory without pending
    faults succeeds; afterwards the group is visible in the workspace. *)
Lemma reflect_job_on_directory account_group_id a d :
  faults d = [] ->
  find (has_id account_group_id) (account d) = Some a ->
  exists d',
    GroupManager._reflect_account_group_to_workspace client retry_budget
      account_group_id d = ([], Val PyTrue, d')
    /\ faults d' = [] /\ account d' = account d
    /\ existsb (has_id account_group_id) (workspace d') = true
    /\ workspace d'
       = if existsb (has_id account_group_id) (workspace d) then workspace d
         else workspace d ++ [as_account_group a].
Proof.
  intros Hfaults Hfind.
  destruct (existsb (has_id account_group_id) (workspace d)) eqn:Hex.
  - eexists. split.
    + apply reflect_job_already_assigned. simpl. unfold assign, mutating.
      rewrite Hfaults. simpl. rewrite Hfind, Hex. reflexivity.
    + simpl. repeat split; auto.
  - eexists. split.
    + apply reflect_job_assigned. simpl. unfold assign, mutating.
      rewrite Hfaults. simpl. rewrite Hfind, Hex. reflexivity.
    + simpl. repeat split; auto.
      rewrite existsb_app. simpl.
      apply find_some in Hfind as [_ Hid]. unfold has_id in *. simpl.
      rewrite Hid. apply orb_true_r.
Qed.

End ReflectJob.

(** X12. The reflect job is idempotent.  With any client, a bad-request
    answer to the permission assignment (the account group is already
    assigned) makes the job return [True] after that single call, and the
    batch records no failure.  On the in-memory directory, reflecting a
    known account group twice succeeds both times, and the second job
    leaves the groups of the workspace as the first one left them. *)
Theorem reflect_job_is_idempotent :
  (forall (W : Type) (client : WorkspaceClient W) (retry_budget : nat)
          (account_group_id : string) (w w' : W),
      permission_assign client account_group_id w = (Raise BadRequest, w') ->
      GroupManager.run_job client retry_budget
        (ReflectAccountGroup account_group_id) w = ([], Val PyTrue, w')
      /\ forall error_log,
           GroupManager.gather_and_raise client retry_budget error_log
             [ReflectAccountGroup account_group_id] w = ([], Returned, w'))
  /\ (forall (retry_budget : nat) (account_group_id : string) (a : Group)
             (d : Directory.t),
        Directory.faults d = [] ->
        find (Directory.has_id account_group_id) (Directory.account d) = Some a ->
        let first := GroupManager.run_job Directory.client retry_budget
                       (ReflectAccountGroup account_group_id) d in
        let second := GroupManager.run_job Directory.client retry_budget
                        (ReflectAccountGroup account_group_id) (snd first) in
        snd (fst first) = Val PyTrue
        /\ snd (fst second) = Val PyTrue
        /\ Directory.workspace (snd second) = Directory.workspace (snd first)
        /\ existsb (Directory.has_id account_group_id)
                   (Directory.workspace (snd first)) = true).
Proof.
  split.
  - intros W client retry_budget account_group_id w w' Hassign.
    pose proof (@reflect_job_already_assigned retry_budget W client
                  account_group_id w w' Hassign) as Hjob.
    split; [exact Hjob|].
    intros error_log. unfold GroupManager.gather_and_raise. simpl.
    rewrite Hjob. reflexivity.
  - intros retry_budget account_group_id a d Hfaults Hfind first second.
    subst first second. simpl GroupManager.run_job.
    destruct (@reflect_job_on_directory retry_budget account_group_id a d
                Hfaults Hfind) as (d1 & Hrun1 & Hf1 & Hacc1 & Hex1 & Hws1).
    rewrite Hrun1. simpl snd. simpl fst.
    rewrite <- Hacc1 in Hfind.
    destruct (@reflect_job_on_directory retry_budget account_group_id a d1
                Hf1 Hfind) as (d2 & Hrun2 & _ & _ & _ & Hws2).
    rewrite Hrun2. simpl. rewrite Hex1 in Hws2.
    repeat split; auto.
Qed.

Lemma reflect_job_is_idempotent_example :
  Directory.workspace
    (snd (GroupManager.run_job Directory.client 3 (ReflectAccountGroup "901")
            directory_after_reflect))
  = Directory.workspace directory_after_reflect
  /\ snd (fst (GroupManager.run_job Directory.client 3 (ReflectAccountGroup "901")
                 directory_after_rename)) = Val PyTrue.
Proof.
  destruct reflect_job_is_idempotent as [Hany Hdir].
  split.
  - destruct (Hany _ Directory.client 3 "901" directory_after_reflect
                (snd (Directory.assign "901" directory_after_reflect)) eq_refl)
      as [Hjob _].
    now rewrite Hjob.
  - apply (Hdir 3 "901" (Directory.account_group "901" "data-eng")
             directory_after_rename); reflexivity.
Defined.


Lemma transient_is_retryable (e : exn) :
  on_transient e = true ->
  retryable on_transient e = true
  /\ class_of e <> NotFound /\ class_of e <> BadRequest.
Proof.
  intros Htransient. split.
  - unfold retryable. now destruct (retry_after_secs e).
  - unfold on_transient in Htransient.
    split; intros Hclass; rewrite Hclass in Htransient; discriminate.
Qed.



Section RetryBudget.
Import Directory.

Lemma retried_journal_bound {A} (on : exn -> bool) (timeout : string)
  (c : remote_call) (f : op t A) :
  (forall d logs r d', f d = (logs, r, d') -> journal d' = journal d ++ [c]) ->
  forall budget d logs r d',
    retried on timeout budget f d = (logs, r, d') ->
    exists n, 1 <= n <= S budget /\ journal d' = journal d ++ repeat c n.
Proof.
  intros Hf. induction budget as [|budget IH]; intros d logs r d'; simpl.
  - destruct (f d) as [[l0 r0] d0] eqn:E. apply Hf in E.
    destruct r0 as [a|e]; [|destruct (retryable on e)];
      intros [= _ _ <-]; exists 1; split; auto.
  - destruct (f d) as [[l0 r0] d0] eqn:E. apply Hf in E.
    destruct r0 as [a|e].
    + intros [= _ _ <-]. exists 1. split; [lia | exact E].
    + destruct (retryable on e).
      * destruct (retried on timeout budget f d0) as [[l1 r1] d1] eqn:E1.
        intros [= _ _ <-]. apply IH in E1 as (n & Hn & Hj).
        exists (S n). split; [lia|]. rewrite Hj, E. now rewrite <- app_assoc.
      * intros [= _ _ <-]. exists 1. split; [lia | exact E].
Qed.

Lemma delete_body_fault group_id name d e pending :
  faults d = e :: pending ->
  on_transient e = true ->
  exists logs d',
    GroupManager._delete_workspace_group_body client group_id name d
    = (logs, Raise e, d')
    /\ faults d' = pending /\ workspace d' = workspace d
    /\ journal d' = journal d ++ [Delete group_id].
Proof.
  intros Hfaults Htransient.
  apply transient_is_retryable in Htransient as (_ & Hclass & _).
  eexists _, _. split.
  - apply delete_body_raises; [|exact Hclass].
    simpl groups_delete. unfold delete, mutating. rewrite Hfaults. reflexivity.
  - simpl. auto.
Qed.

Lemma delete_retry_exhausted group_id name timeout :
  forall budget d,
    budget < List.length (faults d) ->
    Forall (fun e => on_transient e = true) (firstn (S budget) (faults d)) ->
    exists logs d',
      retried on_transient timeout budget
        (GroupManager._delete_workspace_group_body client group_id name) d
      = (logs,
         Raise (TimeoutError ("Timed out after " +:+ timeout)
                             (nth budget (faults d) InternalError)),
         d')
      /\ journal d' = journal d ++ repeat (Delete group_id) (S budget)
      /\ faults d' = skipn (S budget) (faults d)
      /\ workspace d' = workspace d.
Proof.
  induction budget as [|budget IH]; intros d Hlen Hall.
  - destruct (faults d) as [|e pending] eqn:Hfaults; [simpl in Hlen; lia|].
    inversion Hall as [|x l He _]; subst.
    destruct (delete_body_fault group_id name d Hfaults He)
      as (logs & d' & Hbody & Hf & Hw & Hj).
    apply transient_is_retryable in He as (Hretryable & _).
    exists logs, d'. simpl. rewrite Hbody, Hretryable. repeat split; auto.
  - destruct (faults d) as [|e pending] eqn:Hfaults; [simpl in Hlen; lia|].
    inversion Hall as [|x l He Hrest]; subst.
    destruct (delete_body_fault group_id name d Hfaults He)
      as (logs & d0 & Hbody & Hf & Hw & Hj).
    apply transient_is_retryable in He as (Hretryable & _).
    destruct (IH d0) as (logs' & d' & Hretry & Hj' & Hf' & Hw').
    + rewrite Hf. simpl in Hlen. lia.
    + rewrite Hf. exact Hrest.
    + exists (logs ++ logs'), d'.
      rewrite retried_step, Hbody, Hretryable, Hretry. rewrite Hf in *.
      repeat split; auto.
      * rewrite Hj', Hj. now rewrite <- app_assoc.
      * congruence.
Qed.

End RetryBudget.

(** X14. The retry of the delete job is bounded.  Against the in-memory
    directory the job sends at least one and at most budget + 1 delete
    calls for its group id and no other call; when the service answers
    budget + 1 calls in a row with transient errors, the job gives up after
    exactly that many calls and raises [TimeoutError] with the default
    timeout in its message, chained from the last of these errors, and the
    groups of the workspace are as before. *)
Theorem delete_job_retries_within_budget :
  forall (retry_budget : nat) (group_id name : string) (d : Directory.t),
    let run := GroupManager.run_job Directory.client retry_budget
                 (DeleteWorkspaceGroup group_id name) d in
    (exists n,
        1 <= n <= S retry_budget
        /\ Directory.journal (snd run)
           = Directory.journal d ++ repeat (Directory.Delete group_id) n)
    /\ (retry_budget < List.length (Directory.faults d) ->
        Forall (fun e => on_transient e = true)
               (firstn (S retry_budget) (Directory.faults d)) ->
        snd (fst run)
        = Raise (TimeoutError "Timed out after 0:20:00"
                              (nth retry_budget (Directory.faults d) InternalError))
        /\ Directory.journal (snd run)
           = Directory.journal d
             ++ repeat (Directory.Delete group_id) (S retry_budget)
        /\ Directory.workspace (snd run) = Directory.workspace d).
Proof.
  intros retry_budget group_id name d run. subst run.
  simpl GroupManager.run_job.
  unfold GroupManager._delete_workspace_group, rate_limited.
  split.
  - destruct (retried on_transient default_timeout retry_budget
                (GroupManager._delete_workspace_group_body Directory.client
                   group_id name) d) as [[logs r] d'] eqn:Hrun.
    apply (@retried_journal_bound pyval on_transient default_timeout
             (Directory.Delete group_id)) in Hrun as (n & Hn & Hj).
    + exists n. simpl. split; [exact Hn | exact Hj].
    + intros d0 l0 r0 d1. unfold GroupManager._delete_workspace_group_body.
      simpl groups_delete.
      destruct (Directory.delete group_id d0) as [r1 d2] eqn:E.
      apply delete_journal in E.
      destruct r1 as [u|e]; [|destruct (class_of e)]; intros [= _ _ <-]; exact E.
  - intros Hlen Hall.
    destruct (@delete_retry_exhausted group_id name default_timeout retry_budget d
                Hlen Hall) as (logs & d' & Hrun & Hj & _ & Hw).
    rewrite Hrun. simpl. repeat split; auto.
Qed.

Lemma delete_job_retries_within_budget_example :
  snd (fst (GroupManager.run_job Directory.client 0
              (DeleteWorkspaceGroup "101" "data-eng")
              (directory_with_one_fault ResourceConflict)))
  = Raise (TimeoutError "Timed out after 0:20:00" ResourceConflict)
  /\ Directory.journal
       (snd (GroupManager.run_job Directory.client 0
               (DeleteWorkspaceGroup "101" "data-eng")
               (directory_with_one_fault ResourceConflict)))
     = [Directory.Delete "101"].
Proof.
  destruct (proj2 (delete_job_retries_within_budget 0 "101" "data-eng"
                     (directory_with_one_fault ResourceConflict)))
    as (Hr & Hj & _).
  - simpl. lia.
  - repeat constructor.
  - split; [exact Hr | exact Hj].
Defined.

(* ===================================================================== *)
(** ** The listings                                                       *)
(* ===================================================================== *)

Lemma by_display_name_In gs :
  forall acc k g,
    In (k, g) (GroupManager.by_display_name gs acc) ->
    In (k, g) acc \/ (In g gs /\ display_name g = Some k /\ k <> "").
Proof.
  induction gs as [|g0 rest IH]; simpl; intros acc k g Hin; [now left|].
  destruct (display_name g0) as [name|] eqn:Hname.
  - destruct (String.eqb name "") eqn:Hempty.
    + destruct (IH _ _ _ Hin) as [H|(H1 & H2)]; [now left | right; tauto].
    + apply String.eqb_neq in Hempty.
      destruct (IH _ _ _ Hin) as [H|(H1 & H2)]; [|right; tauto].
      destruct (In_dict_set _ _ _ _ _ H) as [[= -> ->]|H']; [|now left].
      right. repeat split; auto.
  - destruct (IH _ _ _ Hin) as [H|(H1 & H2)]; [now left | right; tauto].
Qed.

Lemma by_display_name_NoDup gs :
  forall acc, NoDup (dict_keys acc) ->
              NoDup (dict_keys (GroupManager.by_display_name gs acc)).
Proof.
  induction gs as [|g rest IH]; simpl; intros acc Hnd; [exact Hnd|].
  destruct (display_name g) as [name|]; [|now apply IH].
  destruct (String.eqb name ""); [now apply IH|].
  apply IH. now apply dict_set_NoDup.
Qed.

Lemma in_scope_not_system g resource_type' :
  GroupManager._is_group_out_of_scope g resource_type' = false ->
  GroupManager.is_system_group (display_name g) = false.
Proof.
  unfold GroupManager._is_group_out_of_scope.
  now destruct (GroupManager.is_system_group (display_name g)).
Qed.

Lemma insert_sorted_perm g l :
  Permutation (GroupManager.insert_sorted g l) (g :: l).
Proof.
  induction l as [|h rest IH]; simpl; [apply Permutation_refl|].
  destruct (String.leb (py_str (display_name g)) (py_str (display_name h))).
  - apply Permutation_refl.
  - apply perm_trans with (h :: g :: rest); [now apply perm_skip | apply perm_swap].
Qed.

Lemma sort_perm l :
  Permutation (fold_right GroupManager.insert_sorted [] l) l.
Proof.
  induction l as [|g rest IH]; simpl; [apply perm_nil|].
  apply perm_trans with (g :: fold_right GroupManager.insert_sorted [] rest).
  - apply insert_sorted_perm.
  - now apply perm_skip.
Qed.

Lemma insert_sorted_sorted g l :
  Sorted by_name l -> Sorted by_name (GroupManager.insert_sorted g l).
Proof.
  induction l as [|h rest IH]; simpl; intros Hsorted.
  - repeat constructor.
  - destruct (String.leb (py_str (display_name g)) (py_str (display_name h))) eqn:E.
    + constructor; [exact Hsorted | constructor; exact E].
    + inversion Hsorted as [|x l Hrest Hhd]; subst.
      constructor; [now apply IH|].
      assert (Hhg : by_name h g).
      { unfold by_name.
        destruct (String.leb_total (py_str (display_name g)) (py_str (display_name h)));
          congruence. }
      destruct rest as [|h' rest']; simpl.
      * constructor. exact Hhg.
      * destruct (String.leb (py_str (display_name g)) (py_str (display_name h'))).
        -- constructor. exact Hhg.
        -- inversion Hhd; subst. now constructor.
Qed.

Lemma sort_sorted l : Sorted by_name (fold_right GroupManager.insert_sorted [] l).
Proof.
  induction l as [|g rest IH]; simpl; [constructor|].
  now apply insert_sorted_sorted.
Qed.

Section ListingFacts.
Variable W : Type.
Variable ws : WorkspaceClient W.

Lemma account_groups_in_workspace_eq w :
  snd (GroupManager._account_groups_in_workspace ws w)
  = GroupManager.by_display_name
      (filter (fun g => negb (GroupManager._is_group_out_of_scope g "Group"))
              (groups_list ws ["id"; "displayName"; "externalId"; "meta"] w))
      [].
Proof. reflexivity. Qed.

Lemma workspace_groups_in_workspace_eq w :
  snd (GroupManager._workspace_groups_in_workspace ws w)
  = GroupManager.by_display_name
      (flat_map
         (fun g =>
            if GroupManager._is_group_out_of_scope g "WorkspaceGroup" then []
            else match groups_get ws (id g) w with
                 | None => []
                 | Some full => [full]
                 end)
         (groups_list ws ["id"; "displayName"; "meta"; "externalId"; "roles";
                          "entitlements"] w))
      [].
Proof. reflexivity. Qed.

Lemma account_groups_in_account_eq w :
  snd (GroupManager._account_groups_in_account ws w)
  = match GroupManager.sorted_by_display_name
            (filter (fun g => negb (GroupManager.is_system_group (display_name g)))
                    (account_scim_groups ws ["id"; "displayName"; "externalId"] w))
    with
    | Raise e => Raise e
    | Val gs => Val (GroupManager.by_display_name gs [])
    end.
Proof. reflexivity. Qed.

End ListingFacts.

Lemma workspace_listings_are_keyed_by_display_name_lemma {W}
      (client : WorkspaceClient W) (w : W) :
  keyed_by_display_name (snd (GroupManager._workspace_groups_in_workspace client w))
  /\ forall k g,
       In (k, g) (snd (GroupManager._workspace_groups_in_workspace client w)) ->
       k <> "".
Proof.
  rewrite workspace_groups_in_workspace_eq. split.
  - apply by_display_name_keyed. constructor.
  - intros k g Hin. now apply by_display_name_In in Hin as [[]|(_ & _ & Hne)].
Qed.

(** X15. The two workspace listings are dictionaries keyed by display
    name: no key occurs twice, no key is empty, and every group is stored
    under its own display name.  A group listed among the account groups
    of the workspace is one the client listed and that is in scope for
    resource type Group, so its name is not a system group; a group listed
    among the workspace groups is what get returned for a listed group in
    scope for resource type WorkspaceGroup. *)
Theorem workspace_listings_are_keyed_by_display_name :
  forall (W : Type) (client : WorkspaceClient W) (w : W),
    let acct := snd (GroupManager._account_groups_in_workspace client w) in
    let wsg := snd (GroupManager._workspace_groups_in_workspace client w) in
    NoDup (dict_keys acct) /\ NoDup (dict_keys wsg)
    /\ keyed_by_display_name acct /\ keyed_by_display_name wsg
    /\ (forall k g,
          In (k, g) acct ->
          k <> "" /\ list_contains k GroupManager._SYSTEM_GROUPS = false
          /\ In g (groups_list client ["id"; "displayName"; "externalId"; "meta"] w)
          /\ GroupManager._is_group_out_of_scope g "Group" = false)
    /\ (forall k g,
          In (k, g) wsg ->
          k <> ""
          /\ exists listed,
               In listed (groups_list client
                            ["id"; "displayName"; "meta"; "externalId"; "roles";
                             "entitlements"] w)
               /\ GroupManager._is_group_out_of_scope listed "WorkspaceGroup" = false
               /\ groups_get client (id listed) w = Some g).
Proof.
  intros W client w acct wsg. subst acct wsg.
  rewrite account_groups_in_workspace_eq, workspace_groups_in_workspace_eq.
  split; [apply by_display_name_NoDup; constructor|].
  split; [apply by_display_name_NoDup; constructor|].
  split; [apply by_display_name_keyed; constructor|].
  split; [apply by_display_name_keyed; constructor|].
  split.
  - intros k g Hin. apply by_display_name_In in Hin as [[]|(Hg & Hname & Hne)].
    apply filter_In in Hg as [Hg Hscope]. apply negb_true_iff in Hscope.
    repeat split; auto.
    pose proof (in_scope_not_system g "Group" Hscope) as Hsys.
    now rewrite Hname in Hsys.
  - intros k g Hin. apply by_display_name_In in Hin as [[]|(Hg & Hname & Hne)].
    split; [exact Hne|].
    apply in_flat_map in Hg as (listed & Hlisted & Hfull).
    destruct (GroupManager._is_group_out_of_scope listed "WorkspaceGroup") eqn:Hscope;
      [contradiction|].
    destruct (groups_get client (id listed) w) as [full|] eqn:Hget; [|contradiction].
    destruct Hfull as [<-|[]]. now exists listed.
Qed.

Lemma workspace_listings_example :
  "data-eng" <> ""
  /\ list_contains "data-eng" GroupManager._SYSTEM_GROUPS = false
  /\ GroupManager._is_group_out_of_scope
       (Directory.account_group "901" "data-eng") "Group" = false.
Proof.
  destruct (workspace_listings_are_keyed_by_display_name Directory.client
              directory_after_reflect) as (_ & _ & _ & _ & Hacct & _).
  destruct (Hacct "data-eng" (Directory.account_group "901" "data-eng"))
    as (Hne & Hsys & _ & Hscope).
  - vm_compute. left. reflexivity.
  - repeat split; assumption.
Defined.

(** X16. When [_list_account_groups] returns, its result is the account
    groups the client listed without the system groups, rearranged in
    ascending order of display name. *)
Theorem account_listing_is_sorted_without_system_groups :
  forall (W : Type) (client : WorkspaceClient W) (w : W)
         (scim_attributes : list string) (gs : list Group),
    snd (GroupManager._list_account_groups client scim_attributes w) = Val gs ->
    Permutation gs
      (filter (fun g => negb (GroupManager.is_system_group (display_name g)))
              (account_scim_groups client scim_attributes w))
    /\ Sorted by_name gs
    /\ (forall g, In g gs ->
          In g (account_scim_groups client scim_attributes w)
          /\ GroupManager.is_system_group (display_name g) = false).
Proof.
  intros W client w scim_attributes gs.
  unfold GroupManager._list_account_groups, GroupManager.sorted_by_display_name.
  simpl snd.
  set (kept := filter _ (account_scim_groups client scim_attributes w)).
  match goal with
  | |- context [if ?c then _ else _] => destruct c; [discriminate|]
  end.
  intros [= <-].
  split; [apply sort_perm|]. split; [apply sort_sorted|].
  intros g Hin.
  apply (Permutation_in g (sort_perm kept)) in Hin.
  subst kept. apply filter_In in Hin as [Hin Hsys].
  apply negb_true_iff in Hsys. now split.
Qed.

Lemma account_listing_is_sorted_example :
  Sorted by_name
    [Directory.project ["id"; "displayName"; "externalId"]
       (Directory.account_group "902" "ops");
     Directory.project ["id"; "displayName"; "externalId"]
       (Directory.account_group "901" "sales")].
Proof.
  apply (@account_listing_is_sorted_without_system_groups _ Directory.client
           (directory_with_account [Directory.account_group "901" "sales";
                                    Directory.account_group "900" "users";
                                    Directory.account_group "902" "ops"])
           ["id"; "displayName"; "externalId"]).
  reflexivity.
Defined.

(** X17. A listed account group without display name cannot be sorted
    together with another group: when the account listing holds at least
    two groups that are not system groups and one of them has no display
    name, [_account_groups_in_account] raises [TypeError]; the reflect
    phase then raises it before any job is submitted, leaving the directory
    as it was, and the crawler raises it without yielding anything. *)
Theorem nameless_account_group_aborts_listing :
  forall (re_search : string -> string -> res (option Match))
         (re_sub : string -> string -> string -> res string)
         (json_dumps : list ComplexValue -> string)
         (W : Type) (client : WorkspaceClient W) (retry_budget : nat)
         (self : Crawler.config) (snapshot : list MigratedGroup) (w : W)
         (g1 g2 : Group),
    g1 <> g2 ->
    In g1 (account_scim_groups client ["id"; "displayName"; "externalId"] w) ->
    In g2 (account_scim_groups client ["id"; "displayName"; "externalId"] w) ->
    display_name g1 = None ->
    GroupManager.is_system_group (display_name g2) = false ->
    snd (GroupManager._account_groups_in_account client w) = Raise TypeError
    /\ snd (fst (GroupManager.reflect_account_groups_on_workspace
                   client retry_budget snapshot w)) = RaisedError TypeError
    /\ snd (GroupManager.reflect_account_groups_on_workspace
              client retry_budget snapshot w) = w
    /\ raised (Crawler._crawler re_search re_sub json_dumps client self w)
       = Some TypeError
    /\ yielded (Crawler._crawler re_search re_sub json_dumps client self w) = [].
Proof.
  intros re_search re_sub json_dumps W client retry_budget self snapshot w g1 g2
         Hne Hg1 Hg2 Hnone Hsys.
  assert (Hlisted : snd (GroupManager._account_groups_in_account client w)
                    = Raise TypeError).
  { rewrite account_groups_in_account_eq.
    unfold GroupManager.sorted_by_display_name.
    set (kept := filter _ _).
    assert (Hk1 : In g1 kept).
    { subst kept. apply filter_In. split; [exact Hg1|]. now rewrite Hnone. }
    assert (Hk2 : In g2 kept).
    { subst kept. apply filter_In. split; [exact Hg2|]. now rewrite Hsys. }
    assert (Hlen : Nat.leb 2 (List.length kept) = true).
    { apply Nat.leb_le. destruct kept as [|a [|b rest]]; simpl; try lia.
      - destruct Hk1.
      - destruct Hk1 as [<-|[]]. destruct Hk2 as [<-|[]]. contradiction. }
    assert (Hex : existsb (fun g => match display_name g with
                                    | None => true
                                    | Some _ => false
                                    end) kept = true).
    { apply existsb_exists. exists g1. split; [exact Hk1|]. now rewrite Hnone. }
    now rewrite Hlen, Hex. }
  split; [exact Hlisted|].
  unfold GroupManager.reflect_account_groups_on_workspace, Crawler._crawler.
  destruct (GroupManager._account_groups_in_account client w) as [l1 listed].
  simpl in Hlisted. subst listed.
  destruct (GroupManager._workspace_groups_in_workspace client w) as [l0 wsg].
  repeat split; reflexivity.
Qed.

Lemma nameless_account_group_example :
  snd (fst (GroupManager.reflect_account_groups_on_workspace Directory.client 3
              [data_eng_correspondence]
              (directory_with_account [nameless_group "900";
                                       Directory.account_group "901" "data-eng"])))
  = RaisedError TypeError.
Proof.
  apply (@nameless_account_group_aborts_listing LiteralRegex.re_search
           LiteralRegex.re_sub LiteralRegex.json_dumps _ Directory.client 3
           (Crawler.init None None None None None false)
           [data_eng_correspondence]
           (directory_with_account [nameless_group "900";
                                    Directory.account_group "901" "data-eng"])
           (Directory.project ["id"; "displayName"; "externalId"]
              (nameless_group "900"))
           (Directory.project ["id"; "displayName"; "externalId"]
              (Directory.account_group "901" "data-eng"))).
  - discriminate.
  - simpl. left. reflexivity.
  - simpl. right. left. reflexivity.
  - reflexivity.
  - reflexivity.
Defined.

(* ===================================================================== *)
(** ** The crawler                                                        *)
(* ===================================================================== *)

Lemma string_length_append (a b : string) :
  String.length (a +:+ b) = String.length a + String.length b.
Proof. induction a as [|c a IH]; simpl; [reflexivity | now rewrite IH]. Qed.

Lemma prefixed_name_differs (prefix name : string) :
  prefix <> "" -> prefix +:+ name <> name.
Proof.
  intros Hne Heq. apply (f_equal String.length) in Heq.
  rewrite string_length_append in Heq.
  destruct prefix; [contradiction | simpl in Heq; lia].
Qed.

Lemma init_prefix_not_empty include prefix regex replace account_regex ext :
  Crawler._renamed_group_prefix
    (Crawler.init include prefix regex replace account_regex ext) <> "".
Proof.
  unfold Crawler.init. simpl.
  destruct prefix as [p|]; simpl; [|discriminate].
  destruct (String.eqb p "") eqn:E; simpl; [discriminate|].
  now apply String.eqb_neq.
Qed.

(** What a strategy yields pairs an item of the workspace map with an item
    of the account map. *)
Lemma generated_pairs_items re_search re_sub json_dumps self s ws acct mg :
  In mg (yielded (Crawler.generate_migrated_groups re_search re_sub json_dumps
                    self s ws acct)) ->
  exists k g account_name a,
    In (k, g) ws /\ In (account_name, a) acct
    /\ name_in_workspace mg = display_name g
    /\ temporary_name mg
       = Crawler._renamed_group_prefix self +:+ py_str (display_name g)
    /\ (name_in_account mg = Some account_name
        \/ name_in_account mg = display_name a).
Proof.
  assert (Hcandidate : forall g,
            In g (dict_values
                    (snd (GroupMigrationStrategy.get_filtered_groups ws
                            (Crawler._include_group_names self)))) ->
            exists k, In (k, g) ws).
  { intros g Hg. unfold dict_values in Hg.
    apply in_map_iff in Hg as ([k g'] & <- & Hin).
    exists k. now apply filtered_groups_subset in Hin. }
  destruct s as [regex replace|regex account_regex| |];
    unfold Crawler.generate_migrated_groups.
  - unfold RegexSubStrategy.generate_migrated_groups.
    destruct (GroupMigrationStrategy.get_filtered_groups ws _) as [logs filtered].
    rewrite yielded_gen_logs. intros Hin.
    apply regex_sub_loop_sound in Hin as (g & target & a & Hg & _ & Hget & ->).
    destruct (Hcandidate g Hg) as (k & Hk).
    apply dict_get_In in Hget.
    exists k, g, target, a. repeat split; auto.
  - unfold RegexMatchStrategy.generate_migrated_groups.
    pose proof (fun k g => @filtered_groups_subset ws
                             (Crawler._include_group_names self) k g) as Hitem.
    destruct (GroupMigrationStrategy.get_filtered_groups ws _) as [logs filtered].
    rewrite yielded_gen_logs. simpl snd in *.
    destruct (RegexMatchStrategy.index_by_match re_search regex filtered [])
      as [widx|e] eqn:Hw; [|contradiction].
    destruct (RegexMatchStrategy.index_by_match re_search account_regex acct [])
      as [aidx|e] eqn:Ha; [|contradiction].
    intros Hin.
    apply (regex_match_loop_spec json_dumps _ aidx widx) in Hin
      as (key & g & a & Hg & Hget & ->).
    destruct (@index_by_match_sound re_search regex filtered [] widx Hw key g Hg)
      as [[]|(name & Hname & _)].
    apply dict_get_In in Hget.
    destruct (@index_by_match_sound re_search account_regex acct [] aidx Ha key a Hget)
      as [[]|(aname & Haname & _)].
    exists name, g, aname, a. repeat split; auto.
  - unfold MatchByExternalIdStrategy.generate_migrated_groups.
    destruct (GroupMigrationStrategy.get_filtered_groups ws _) as [logs filtered].
    rewrite yielded_gen_logs. intros Hin.
    apply (external_id_loop_spec json_dumps) in Hin as (g & a & Hg & Hget & ->).
    destruct (Hcandidate g Hg) as (k & Hk).
    apply external_id_index_sound in Hget as [Ha _].
    unfold dict_values in Ha. apply in_map_iff in Ha as ([an a'] & <- & Ha).
    exists k, g, an, a'. repeat split; auto.
  - unfold MatchingNamesStrategy.generate_migrated_groups.
    destruct (GroupMigrationStrategy.get_filtered_groups ws _) as [logs filtered].
    rewrite yielded_gen_logs. intros Hin.
    apply (matching_names_loop_spec json_dumps) in Hin as (g & a & Hg & Hget & ->).
    destruct (Hcandidate g Hg) as (k & Hk).
    destruct (display_name g) as [n|] eqn:Hn; [|discriminate].
    simpl in Hget. apply dict_get_In in Hget.
    exists k, g, n, a. repeat split; auto.
Qed.

(** X18. Whatever the configuration, the regex engine and the client, a
    correspondence the crawler yields names a listed workspace group by a
    display name that is not empty, targets an account group by a display
    name that is not empty and is not a system group, and has as temporary
    name the configured prefix followed by the workspace name; the prefix
    is never empty, so the temporary name differs from the workspace
    name. *)
Theorem crawled_correspondences_are_well_formed :
  forall (re_search : string -> string -> res (option Match))
         (re_sub : string -> string -> string -> res string)
         (json_dumps : list ComplexValue -> string)
         (W : Type) (client : WorkspaceClient W) (w : W)
         (include : option (list string))
         (prefix regex replace account_regex : option string) (ext : bool)
         (mg : MigratedGroup),
    let self := Crawler.init include prefix regex replace account_regex ext in
    In mg (yielded (Crawler._crawler re_search re_sub json_dumps client self w)) ->
    exists k n,
      name_in_workspace mg = Some k /\ k <> ""
      /\ dict_mem k (snd (GroupManager._workspace_groups_in_workspace client w)) = true
      /\ name_in_account mg = Some n /\ n <> ""
      /\ list_contains n GroupManager._SYSTEM_GROUPS = false
      /\ temporary_name mg = Crawler._renamed_group_prefix self +:+ k
      /\ temporary_name mg <> k.
Proof.
  intros re_search re_sub json_dumps W client w include prefix regex replace
         account_regex ext mg self.
  pose proof (init_prefix_not_empty include prefix regex replace account_regex ext)
    as Hprefix.
  pose proof (workspace_listings_are_keyed_by_display_name_lemma client w)
    as (Hkeyed & Hnonempty).
  pose proof (account_groups_in_account_eq client w) as Hacct.
  unfold Crawler._crawler.
  destruct (GroupManager._workspace_groups_in_workspace client w) as [l1 wsg].
  destruct (GroupManager._account_groups_in_account client w) as [l2 listed].
  simpl snd in *. rewrite yielded_gen_logs.
  destruct listed as [acct|e]; [|contradiction].
  intros Hin.
  apply generated_pairs_items in Hin
    as (k & g & an & a & Hk & Ha & Hnw & Htmp & Hna).
  unfold keyed_by_display_name in Hkeyed. rewrite Forall_forall in Hkeyed.
  pose proof (Hkeyed _ Hk) as Hgk. simpl in Hgk.
  destruct (GroupManager.sorted_by_display_name _) as [sorted|e] eqn:Hsorted;
    [|discriminate].
  injection Hacct as ->.
  pose proof Ha as Ha'.
  apply by_display_name_In in Ha' as [[]|(Hasorted & Haname & Hane)].
  assert (Hsys : GroupManager.is_system_group (display_name a) = false).
  { unfold GroupManager.sorted_by_display_name in Hsorted.
    match type of Hsorted with
    | (if ?c then _ else _) = _ => destruct c; [discriminate|]
    end.
    injection Hsorted as <-.
    apply (Permutation_in a (sort_perm _)) in Hasorted.
    apply filter_In in Hasorted as [_ Hs]. now apply negb_true_iff in Hs. }
  exists k, an. rewrite Hnw, Hgk in *. simpl in Htmp.
  split; [reflexivity|]. split; [now apply (Hnonempty k g)|].
  split; [now apply In_dict_mem in Hk|].
  split; [destruct Hna as [Hna|Hna]; congruence|].
  split; [exact Hane|].
  split; [now rewrite Haname in Hsys|].
  split; [exact Htmp|].
  rewrite Htmp. apply prefixed_name_differs. exact Hprefix.
Qed.

Lemma crawled_correspondences_example :
  exists k n,
    name_in_workspace data_eng_correspondence = Some k /\ k <> ""
    /\ name_in_account data_eng_correspondence = Some n
    /\ list_contains n GroupManager._SYSTEM_GROUPS = false
    /\ temporary_name data_eng_correspondence <> k.
Proof.
  destruct (@crawled_correspondences_are_well_formed LiteralRegex.re_search
              LiteralRegex.re_sub LiteralRegex.json_dumps _ Directory.client
              directory_before_rename None None None None None false
              data_eng_correspondence)
    as (k & n & Hk & Hne & _ & Hn & _ & Hsys & _ & Hdiff).
  - vm_compute. left. reflexivity.
  - exists k, n. repeat split; assumption.
Defined.

(* ===================================================================== *)
(** ** Console prompts                                                    *)
(* ===================================================================== *)

Section QuestionFacts.
Variable re_match : string -> string -> bool.
Variable prompt : string.
Variable default regex : option string.
Variable validate : option (string -> bool).
Variable max_attempts : nat.

(** An answer [question] accepts: typed, not empty, approved by the
    validator and matched by the regex, when there are any. *)
Let accepted (res : string) : Prop :=
  res <> ""
  /\ (forall valid, validate = Some valid -> valid res = true)
  /\ (forall pattern, regex = Some pattern -> re_match pattern res = true).

Lemma print_stdin message c : Tui.stdin (Tui.print message c) = Tui.stdin c.
Proof. reflexivity. Qed.

Lemma question_loop_spec attempts_left :
  forall c r c',
    Tui.question_loop re_match attempts_left max_attempts prompt default regex
                      validate c = (r, c') ->
    exists consumed,
      Tui.stdin c = consumed ++ Tui.stdin c'
      /\ List.length consumed <= attempts_left
      /\ match r with
         | Tui.Ok res =>
             exists before line,
               consumed = before ++ [line]
               /\ ((line = res /\ accepted res)
                   \/ (line = "" /\ default = Some res /\ res <> ""))
         | Tui.Err Tui.EOFError => Tui.stdin c' = []
         | Tui.Err (Tui.ValueError _) => List.length consumed = attempts_left
         | Tui.Err _ => False
         end.
Proof.
  induction attempts_left as [|n IH]; intros c r c'; simpl.
  - intros [= <- <-]. exists []. simpl. repeat split; auto.
  - unfold Tui.input.
    destruct (Tui.stdin c) as [|line rest] eqn:Hin.
    + intros [= <- <-]. exists []. simpl. repeat split; auto. lia.
    + set (c1 := {| Tui.stdin := rest; Tui.stdout := Tui.stdout c ++ [prompt] |}).
      assert (Hagain : forall c2 r c',
                Tui.stdin c2 = rest ->
                Tui.question_loop re_match n max_attempts prompt default regex
                                  validate c2 = (r, c') ->
                exists consumed,
                  line :: rest = consumed ++ Tui.stdin c'
                  /\ List.length consumed <= S n
                  /\ match r with
                     | Tui.Ok res =>
                         exists before line0,
                           consumed = before ++ [line0]
                           /\ ((line0 = res /\ accepted res)
                               \/ (line0 = "" /\ default = Some res /\ res <> ""))
                     | Tui.Err Tui.EOFError => Tui.stdin c' = []
                     | Tui.Err (Tui.ValueError _) => List.length consumed = S n
                     | Tui.Err _ => False
                     end).
      { intros c2 r0 c0 Hc2 Hrun.
        destruct (IH _ _ _ Hrun) as (consumed & Hsplit & Hlen & Hres).
        exists (line :: consumed). rewrite Hc2 in Hsplit.
        split; [simpl; now rewrite Hsplit|]. split; [simpl; lia|].
        destruct r0 as [res|[msg| | | |]]; auto.
        - destruct Hres as (before & line0 & -> & Hcase).
          exists (line :: before), line0. split; [reflexivity | exact Hcase].
        - simpl. lia. }
      assert (Hdefault : forall r c',
                match default with
                | Some d => if negb (String.eqb d "") then (Tui.Ok d, c1)
                            else Tui.question_loop re_match n max_attempts prompt
                                   default regex validate c1
                | None => Tui.question_loop re_match n max_attempts prompt
                            default regex validate c1
                end = (r, c') ->
                line = "" ->
                exists consumed,
                  line :: rest = consumed ++ Tui.stdin c'
                  /\ List.length consumed <= S n
                  /\ match r with
                     | Tui.Ok res =>
                         exists before line0,
                           consumed = before ++ [line0]
                           /\ ((line0 = res /\ accepted res)
                               \/ (line0 = "" /\ default = Some res /\ res <> ""))
                     | Tui.Err Tui.EOFError => Tui.stdin c' = []
                     | Tui.Err (Tui.ValueError _) => List.length consumed = S n
                     | Tui.Err _ => False
                     end).
      { intros r0 c0 Hrun Hempty.
        destruct default as [d|] eqn:Hd; [|now apply (Hagain c1)].
        destruct (String.eqb d "") eqn:Hde; simpl in Hrun;
          [now apply (Hagain c1)|].
        injection Hrun as <- <-. apply String.eqb_neq in Hde.
        exists [line]. simpl. split; [reflexivity|]. split; [lia|].
        exists [], line. split; [reflexivity|]. right. now repeat split. }
      destruct (String.eqb line "") eqn:Hempty; simpl.
      * apply String.eqb_eq in Hempty.
        destruct validate as [valid|]; simpl;
          destruct regex as [pattern|]; intros Hrun; now apply Hdefault.
      * apply String.eqb_neq in Hempty.
        destruct validate as [valid|] eqn:Hv; simpl.
        -- destruct (valid line) eqn:Hvalid; simpl; [|now apply (Hagain c1)].
           destruct regex as [pattern|] eqn:Hr.
           ++ destruct (re_match pattern line) eqn:Hm.
              ** intros [= <- <-]. exists [line]. simpl.
                 split; [reflexivity|]. split; [lia|].
                 exists [], line. split; [reflexivity|]. left.
                 split; [reflexivity|]. unfold accepted. repeat split; auto.
                 --- intros v [= <-]. exact Hvalid.
                 --- intros p [= <-]. exact Hm.
              ** now apply Hagain.
           ++ intros [= <- <-]. exists [line]. simpl.
              split; [reflexivity|]. split; [lia|].
              exists [], line. split; [reflexivity|]. left.
              split; [reflexivity|]. unfold accepted. repeat split; auto.
              --- intros v [= <-]. exact Hvalid.
              --- intros p [=].
        -- destruct regex as [pattern|] eqn:Hr.
           ++ destruct (re_match pattern line) eqn:Hm.
              ** intros [= <- <-]. exists [line]. simpl.
                 split; [reflexivity|]. split; [lia|].
                 exists [], line. split; [reflexivity|]. left.
                 split; [reflexivity|]. unfold accepted. repeat split; auto.
                 --- intros v [=].
                 --- intros p [= <-]. exact Hm.
              ** now apply Hagain.
           ++ intros [= <- <-]. exists [line]. simpl.
              split; [reflexivity|]. split; [lia|].
              exists [], line. split; [reflexivity|]. left.
              split; [reflexivity|]. unfold accepted. repeat split; auto.
              --- intros v [=].
              --- intros p [=].
Qed.

End QuestionFacts.

Section QuestionCompiles.
Variable re_match : string -> string -> bool.
Variable re_compiles : string -> bool.

(** [question], by the regex it compiles. *)
Lemma question_unfold (text : string) (default : option string)
  (max_attempts : nat) (valid_number : bool) (valid_regex : option string)
  (validate : option (string -> bool)) (c : Tui.console) :
  exists prompt,
    Tui.question re_match re_compiles text default max_attempts valid_number
                 valid_regex validate c
    = match regex_in_effect valid_number valid_regex with
      | Some pattern =>
          if re_compiles pattern then
            Tui.question_loop re_match max_attempts max_attempts prompt default
                              (Some pattern) validate c
          else (Tui.Err Tui.ReError, c)
      | None =>
          Tui.question_loop re_match max_attempts max_attempts prompt default
                            None validate c
      end.
Proof.
  unfold Tui.question, regex_in_effect. eexists.
  destruct (if valid_number then Some "^\d+$" else valid_regex) as [pattern|];
    [|reflexivity].
  destruct (String.eqb pattern ""); [reflexivity|].
  now destruct (re_compiles pattern).
Qed.



End QuestionCompiles.



Section ChoiceFacts.
Variable re_match : string -> string -> bool.
Variable re_compiles : string -> bool.
Variable py_int : string -> Tui.outcome Z.
Variable casefold : string -> string.

Lemma insert_by_In key x y l :
  In y (Tui.insert_by key x l) <-> y = x \/ In y l.
Proof.
  induction l as [|h rest IH]; simpl; [intuition|].
  destruct (String.leb (key x) (key h)); simpl; [intuition|].
  rewrite IH. intuition.
Qed.

Lemma sorted_by_In key y l : In y (Tui.sorted_by key l) <-> In y l.
Proof.
  unfold Tui.sorted_by. induction l as [|x rest IH]; simpl; [tauto|].
  rewrite insert_by_In, IH. intuition.
Qed.

Lemma choice_loop_spec prompt choices max_attempts attempts_left :
  forall c r c',
    Tui.choice_loop re_match re_compiles py_int attempts_left max_attempts prompt choices c
    = (r, c') ->
    match r with
    | Tui.Ok picked => In picked choices
    | Tui.Err _ => True
    end
    /\ (choices = [] -> exists e, r = Tui.Err e).
Proof.
  induction attempts_left as [|n IH]; intros c r c'; simpl.
  - intros [= <- <-]. split; [exact I | eauto].
  - destruct (Tui.question re_match re_compiles prompt None 10 true None None c)
      as [[answer|e] c1]; [|intros [= <- <-]; split; [exact I | eauto]].
    destruct (py_int answer) as [number|e];
      [|intros [= <- <-]; split; [exact I | eauto]].
    destruct ((Z.of_nat (List.length choices) <=? number)%Z || (number <? 0)%Z)
      eqn:Hrange; [apply IH|].
    destruct (nth_error choices (Z.to_nat number)) as [picked|] eqn:Hnth;
      intros [= <- <-].
    + split; [now apply nth_error_In in Hnth|].
      intros ->. now destruct (Z.to_nat number).
    + split; [exact I | eauto].
Qed.

End ChoiceFacts.

(** X20. [choice] returns one of the choices it was given, sorted or not,
    and never returns when there is none to choose from; what
    [choice_from_dict] returns is a value the dictionary stores. *)
Theorem choice_returns_one_of_the_choices :
  forall (re_match : string -> string -> bool) (re_compiles : string -> bool)
         (py_int : string -> Tui.outcome Z) (casefold : string -> string)
         (text : string) (max_attempts : nat) (sort : bool) (c c' : Tui.console),
    (forall (choices : list string) (picked : string),
        Tui.choice re_match re_compiles py_int casefold text choices max_attempts sort c
        = (Tui.Ok picked, c') ->
        In picked choices)
    /\ (forall r : Tui.outcome string,
          Tui.choice re_match re_compiles py_int casefold text [] max_attempts sort c
          = (r, c') ->
          exists e, r = Tui.Err e)
    /\ (forall (A : Type) (choices : dict string A) (a : A),
          Tui.choice_from_dict re_match re_compiles py_int casefold text choices sort c
          = (Tui.Ok a, c') ->
          exists key, In (key, a) choices).
Proof.
  intros re_match re_compiles py_int casefold text max_attempts sort c c'.
  split; [|split].
  - intros choices picked. unfold Tui.choice. intros Hrun.
    apply choice_loop_spec in Hrun as [Hpicked _].
    destruct sort; [now apply sorted_by_In in Hpicked | exact Hpicked].
  - intros r. unfold Tui.choice. intros Hrun.
    apply choice_loop_spec in Hrun as [_ Hempty].
    apply Hempty. now destruct sort.
  - intros A choices a. unfold Tui.choice_from_dict.
    destruct (Tui.choice re_match re_compiles py_int casefold text (dict_keys choices) 10 sort c)
      as [[key|e] c1]; [|discriminate].
    destruct (dict_get key choices) as [a'|] eqn:Hget; [|discriminate].
    intros [= <- <-]. exists key. now apply dict_get_In.
Qed.

Lemma choice_example :
  In "Match By External ID"
     ["Regex Matching"; "Match By External ID"; "Apply a Prefix"].
Proof.
  apply (proj1 (@choice_returns_one_of_the_choices AsciiRuntime.re_match AsciiRuntime.re_compiles
                  AsciiRuntime.py_int AsciiRuntime.lower "Choose" 10 true
                  (typing ["7"; "1"])
                  (snd (Tui.choice AsciiRuntime.re_match AsciiRuntime.re_compiles AsciiRuntime.py_int
                          AsciiRuntime.lower "Choose"
                          ["Regex Matching"; "Match By External ID";
                           "Apply a Prefix"] 10 true (typing ["7"; "1"]))))
               ["Regex Matching"; "Match By External ID"; "Apply a Prefix"]
               "Match By External ID" eq_refl).
Defined.

Section MultiSelectFacts.
Variable re_match : string -> string -> bool.
Variable re_compiles : string -> bool.
Variable py_int : string -> Tui.outcome Z.
Variable casefold : string -> string.

Lemma question_raises (text : string) (default : option string)
  (max_attempts : nat) (valid_number : bool) (valid_regex : option string)
  (validate : option (string -> bool)) (c c' : Tui.console) (e : Tui.error) :
  Tui.question re_match re_compiles text default max_attempts valid_number
               valid_regex validate c = (Tui.Err e, c') ->
  e = Tui.EOFError \/ (exists message, e = Tui.ValueError message)
  \/ e = Tui.ReError.
Proof.
  destruct (question_unfold re_match re_compiles text default max_attempts
              valid_number valid_regex validate c) as [prompt ->].
  assert (Hloop : forall regex,
             Tui.question_loop re_match max_attempts max_attempts prompt default
                               regex validate c = (Tui.Err e, c') ->
             e = Tui.EOFError \/ (exists message, e = Tui.ValueError message)
             \/ e = Tui.ReError).
  { intros regex Hrun.
    apply question_loop_spec in Hrun as (consumed & _ & _ & Hres).
    destruct e; eauto; contradiction. }
  destruct (regex_in_effect valid_number valid_regex) as [pattern|];
    [|apply Hloop].
  destruct (re_compiles pattern); [apply Hloop|].
  intros [= <- <-]. auto.
Qed.

Lemma choice_loop_raises prompt choices max_attempts attempts_left :
  forall c c' e,
    Tui.choice_loop re_match re_compiles py_int attempts_left max_attempts prompt
                    choices c = (Tui.Err e, c') ->
    e = Tui.EOFError \/ (exists message, e = Tui.ValueError message)
    \/ e = Tui.ReError \/ exists answer, py_int answer = Tui.Err e.
Proof.
  induction attempts_left as [|n IH]; intros c c' e; simpl.
  - intros [= <- <-]. eauto.
  - destruct (Tui.question re_match re_compiles prompt None 10 true None None c)
      as [[answer|e0] c1] eqn:Hq.
    + destruct (py_int answer) as [number|e1] eqn:Hint;
        [|intros [= <- <-]; eauto].
      destruct ((Z.of_nat (List.length choices) <=? number)%Z || (number <? 0)%Z)
        eqn:Hrange; [apply IH|].
      apply orb_false_iff in Hrange as [Hhigh Hlow].
      apply Z.leb_gt in Hhigh. apply Z.ltb_ge in Hlow.
      destruct (nth_error choices (Z.to_nat number)) as [picked|] eqn:Hnth;
        [discriminate|].
      apply nth_error_None in Hnth. lia.
    + intros [= <- <-].
      apply question_raises in Hq as [->|[[message ->]| ->]]; eauto.
Qed.

Lemma choice_ok_In text choices max_attempts sort c c' picked :
  Tui.choice re_match re_compiles py_int casefold text choices max_attempts sort c
  = (Tui.Ok picked, c') ->
  In picked choices.
Proof.
  unfold Tui.choice. intros Hrun.
  apply choice_loop_spec in Hrun as [Hpicked _].
  destruct sort; [now apply sorted_by_In in Hpicked | exact Hpicked].
Qed.

Lemma choice_key_error text choices max_attempts sort c c' key :
  (forall answer k, py_int answer <> Tui.Err (Tui.KeyError k)) ->
  Tui.choice re_match re_compiles py_int casefold text choices max_attempts sort c
  <> (Tui.Err (Tui.KeyError key), c').
Proof.
  intros Hint. unfold Tui.choice. intros Hrun.
  apply choice_loop_raises in Hrun
    as [Heof|[[message Hvalue]|[Hre|[answer Hanswer]]]]; try discriminate.
  now apply Hint in Hanswer.
Qed.

Lemma dict_del_keys {V} (key k : string) (d : dict string V) :
  In k (dict_keys (Tui.dict_del key d)) <-> In k (dict_keys d) /\ k <> key.
Proof.
  unfold Tui.dict_del, dict_keys.
  induction d as [|[k0 v0] rest IH]; simpl; [tauto|].
  destruct (String.eqb key k0) eqn:E; simpl.
  - apply String.eqb_eq in E. subst. rewrite IH. intuition congruence.
  - apply String.eqb_neq in E. rewrite IH. intuition congruence.
Qed.

Lemma dict_del_length {V} (key : string) (d : dict string V) :
  In key (dict_keys d) ->
  List.length (Tui.dict_del key d) < List.length d.
Proof.
  unfold Tui.dict_del, dict_keys.
  induction d as [|[k0 v0] rest IH]; simpl; [contradiction|].
  destruct (String.eqb key k0) eqn:E; simpl.
  - intros _. pose proof (filter_length_le
                            (fun kv : string * V => negb (String.eqb key (fst kv)))
                            rest). lia.
  - apply String.eqb_neq in E. intros [Heq|Hin]; [congruence|].
    apply IH in Hin. lia.
Qed.

Lemma dropdown_keys {A} (k : string) (items : dict string A) :
  forall acc : dict string (Tui.entry A),
    In k (dict_keys (fold_left (fun acc kv => dict_set (fst kv) (Tui.Item (snd kv)) acc)
                               items acc))
    <-> In k (dict_keys items) \/ In k (dict_keys acc).
Proof.
  induction items as [|[k0 v0] rest IH]; simpl; intros acc.
  - tauto.
  - rewrite IH, dict_keys_set_In. intuition congruence.
Qed.

Lemma dropdown_of_keys {A} (k : string) (choices : dict string A) :
  In k (dict_keys (Tui.dropdown_of choices))
  <-> k = "[DONE]" \/ In k (dict_keys choices).
Proof.
  unfold Tui.dropdown_of. rewrite dropdown_keys. simpl. intuition.
Qed.

Lemma dropdown_length {A} (items : dict string A) :
  forall acc : dict string (Tui.entry A),
    List.length (fold_left (fun acc kv => dict_set (fst kv) (Tui.Item (snd kv)) acc)
                           items acc)
    <= List.length items + List.length acc.
Proof.
  induction items as [|[k0 v0] rest IH]; simpl; intros acc; [lia|].
  etransitivity; [apply IH|].
  assert (Hset : forall d : dict string (Tui.entry A),
             List.length (dict_set k0 (Tui.Item v0) d) <= S (List.length d)).
  { induction d as [|[k1 v1] d IHd]; simpl; [lia|].
    destruct (String.eqb k0 k1); simpl; lia. }
  specialize (Hset acc). lia.
Qed.

Lemma selection_length {A} (choices : dict string A) picked (selected : list A) :
  selection_of choices picked selected ->
  List.length selected <= List.length choices.
Proof.
  intros [Hdistinct Hstored].
  rewrite <- (Forall2_length Hstored).
  replace (List.length choices) with (List.length (dict_keys choices))
    by apply length_map.
  apply NoDup_incl_length; [exact Hdistinct|].
  intros k Hk. apply dict_mem_keys. unfold dict_mem.
  clear Hdistinct. induction Hstored as [|k0 a0 ks sel Hget _ IH];
    [contradiction|].
  destruct Hk as [->|Hk]; [now rewrite Hget | now apply IH].
Qed.

Lemma multi_select_loop_spec {A} (item_prompt : string) (choices : dict string A)
  (iterations : nat) :
  forall dropdown selected picked c,
    List.length dropdown < iterations ->
    selection_of choices picked selected ->
    (forall k, In k picked -> ~ In k (dict_keys dropdown)) ->
    (forall k, In k (dict_keys dropdown) ->
               k = "[DONE]" \/ In k (dict_keys choices)) ->
    exists r c',
      Tui.multi_select_loop re_match re_compiles py_int casefold iterations item_prompt
                            choices dropdown selected c = Some (r, c')
      /\ match r with
         | Tui.Ok final =>
             (exists picked', selection_of choices picked' final)
             /\ (~ In "done" (dict_keys choices) ->
                 final <> [] /\ List.length final = List.length choices)
         | Tui.Err (Tui.KeyError key) =>
             (forall answer k, py_int answer <> Tui.Err (Tui.KeyError k)) ->
             key = "[DONE]" /\ ~ In "[DONE]" (dict_keys choices)
         | Tui.Err _ => True
         end.
Proof.
  induction iterations as [|n IH];
    intros dropdown selected picked c Hfuel Hsel Hfresh Hkeys; [lia|].
  simpl.
  destruct (Tui.choice re_match re_compiles py_int casefold item_prompt (dict_keys dropdown)
                       10 true c) as [[key|e] c1] eqn:Hchoice.
  - pose proof (choice_ok_In _ _ _ _ _ Hchoice) as Hin.
    destruct (String.eqb key "done") eqn:Hdone.
    + apply String.eqb_eq in Hdone. subst key.
      exists (Tui.Ok selected), c1. split; [reflexivity|].
      split; [now exists picked|].
      intros Hnot. apply Hkeys in Hin as [Hin|Hin]; [discriminate | contradiction].
    + destruct (dict_get key choices) as [a|] eqn:Hget.
      * assert (Hsel' : selection_of choices (picked ++ [key]) (selected ++ [a])).
        { destruct Hsel as [Hdistinct Hstored]. split.
          - apply NoDup_app; [exact Hdistinct | repeat constructor; intros [] |].
            intros k Hk [Heq|[]]. subst k. now apply (Hfresh key).
          - apply Forall2_app; [exact Hstored | now repeat constructor]. }
        destruct (Nat.eqb (List.length (selected ++ [a])) (List.length choices))
          eqn:Hall.
        -- exists (Tui.Ok (selected ++ [a])), c1. split; [reflexivity|].
           split; [now exists (picked ++ [key])|].
           intros _. apply Nat.eqb_eq in Hall. split; [|exact Hall].
           now destruct selected.
        -- apply IH with (picked := picked ++ [key]).
           ++ pose proof (dict_del_length key dropdown Hin). lia.
           ++ exact Hsel'.
           ++ intros k Hk Hdel. apply dict_del_keys in Hdel as [Hdel Hne].
              apply in_app_iff in Hk as [Hk|[Hk|[]]];
                [now apply (Hfresh k) | congruence].
           ++ intros k Hdel. apply dict_del_keys in Hdel as [Hdel _].
              now apply Hkeys.
      * exists (Tui.Err (Tui.KeyError key)), c1. split; [reflexivity|].
        intros _.
        assert (Hnot : ~ In key (dict_keys choices)).
        { intros Hk. apply dict_mem_keys in Hk. unfold dict_mem in Hk.
          now rewrite Hget in Hk. }
        apply Hkeys in Hin as [->|Hin]; [now split | contradiction].
  - exists (Tui.Err e), c1. split; [reflexivity|].
    destruct e as [message| |key| |]; try exact I.
    intros Hint. exfalso. exact (choice_key_error _ _ _ _ _ Hint Hchoice).
Qed.

Lemma multi_select_spec {A} (all_prompt item_prompt : string)
  (choices : dict string A) (c : Tui.console) :
  exists r c',
    Tui.multi_select_from_dict re_match re_compiles py_int casefold all_prompt item_prompt
                               choices c = Some (r, c')
    /\ match r with
       | Tui.Ok final =>
           (exists picked, selection_of choices picked final)
           /\ (~ In "done" (dict_keys choices) ->
               final = [] \/ List.length final = List.length choices)
       | Tui.Err (Tui.KeyError key) =>
           (forall answer k, py_int answer <> Tui.Err (Tui.KeyError k)) ->
           key = "[DONE]" /\ ~ In "[DONE]" (dict_keys choices)
       | Tui.Err _ => True
       end.
Proof.
  unfold Tui.multi_select_from_dict.
  destruct (Tui.question re_match re_compiles all_prompt (Some "no") 10 false None None c)
    as [[answer|e] c1] eqn:Hq.
  - destruct (String.eqb answer "yes").
    + exists (Tui.Ok []), c1. split; [reflexivity|]. split; [|now left].
      exists []. split; constructor.
    + destruct (@multi_select_loop_spec A item_prompt choices
                  (S (List.length (Tui.dropdown_of choices)))
                  (Tui.dropdown_of choices) [] [] c1)
        as (r & c' & Hrun & Hres).
      * lia.
      * split; constructor.
      * intros k [].
      * intros k Hk. now apply dropdown_of_keys.
      * exists r, c'. split; [exact Hrun|].
        destruct r as [final|e]; [|exact Hres].
        destruct Hres as [Hsel Hall]. split; [exact Hsel|].
        intros Hnot. right. now apply Hall.
  - exists (Tui.Err e), c1. split; [reflexivity|].
    apply question_raises in Hq as [->|[[message ->]| ->]]; exact I.
Qed.

End MultiSelectFacts.

(** X21. [multi_select_from_dict] always comes to an end: every round
    removes the chosen entry from the dropdown.  When it returns, the items
    selected are values the dictionary stores under distinct keys, in the
    order chosen, so that no entry is selected twice and no more items are
    returned than the dictionary has. *)
Theorem multi_select_returns_distinct_items :
  forall (re_match : string -> string -> bool) (re_compiles : string -> bool)
         (py_int : string -> Tui.outcome Z) (casefold : string -> string)
         (A : Type) (all_prompt item_prompt : string)
         (choices : dict string A) (c : Tui.console),
  exists r c',
    Tui.multi_select_from_dict re_match re_compiles py_int casefold all_prompt item_prompt
                               choices c = Some (r, c')
    /\ forall selected,
         r = Tui.Ok selected ->
         (exists picked,
             NoDup picked
             /\ Forall2 (fun k a => dict_get k choices = Some a) picked selected)
         /\ List.length selected <= List.length choices.
Proof.
  intros re_match re_compiles py_int casefold A all_prompt item_prompt choices c.
  destruct (multi_select_spec re_match re_compiles py_int casefold all_prompt
                              item_prompt
                              choices c) as (r & c' & Hrun & Hres).
  exists r, c'. split; [exact Hrun|].
  intros selected ->. destruct Hres as [[picked Hsel] _].
  split; [now exists picked | now apply selection_length with picked].
Qed.

Lemma multi_select_example :
  (exists picked,
      NoDup picked
      /\ Forall2 (fun k a => dict_get k workspaces_by_name = Some a) picked
                 [102; 101])
  /\ List.length [102; 101] <= List.length workspaces_by_name.
Proof.
  destruct (multi_select_returns_distinct_items AsciiRuntime.re_match AsciiRuntime.re_compiles
              AsciiRuntime.py_int AsciiRuntime.lower "Select all workspaces"
              "Select a workspace" workspaces_by_name (typing ["no"; "2"; "1"]))
    as (r & c' & Hrun & Hselected).
  vm_compute in Hrun. injection Hrun as <- _.
  exact (Hselected [102; 101] eq_refl).
Defined.

(** X22. The dropdown of [multi_select_from_dict] offers [[DONE]], but the
    loop compares the key chosen with [done].  So, for a dictionary without
    the key [done], the selection returns nothing (after the answer yes to
    the first question) or every item, never a part of them; and the
    [KeyError] it raises, when the integer conversion raises none, is the one
    for [[DONE]], which is not a key of the dictionary. *)
Theorem done_entry_does_not_end_selection :
  forall (re_match : string -> string -> bool) (re_compiles : string -> bool)
         (py_int : string -> Tui.outcome Z) (casefold : string -> string)
         (A : Type) (all_prompt item_prompt : string)
         (choices : dict string A) (c c' : Tui.console)
         (r : Tui.outcome (list A)),
    ~ In "done" (dict_keys choices) ->
    (forall answer k, py_int answer <> Tui.Err (Tui.KeyError k)) ->
    Tui.multi_select_from_dict re_match re_compiles py_int casefold all_prompt item_prompt
                               choices c = Some (r, c') ->
    match r with
    | Tui.Ok selected =>
        selected = [] \/ List.length selected = List.length choices
    | Tui.Err (Tui.KeyError key) =>
        key = "[DONE]" /\ ~ In "[DONE]" (dict_keys choices)
    | Tui.Err _ => True
    end.
Proof.
  intros re_match re_compiles py_int casefold A all_prompt item_prompt choices
         c c' r Hnot Hint Hrun.
  destruct (multi_select_spec re_match re_compiles py_int casefold all_prompt
                              item_prompt
                              choices c) as (r0 & c0 & Hrun0 & Hres).
  rewrite Hrun in Hrun0. injection Hrun0 as <- <-.
  destruct r as [selected|[message| |key| |]]; try exact I.
  - destruct Hres as [_ Hall]. now apply Hall.
  - now apply Hres.
Qed.

Lemma done_entry_example :
  option_map fst
    (Tui.multi_select_from_dict AsciiRuntime.re_match AsciiRuntime.re_compiles AsciiRuntime.py_int
       AsciiRuntime.lower "Select all workspaces" "Select a workspace"
       workspaces_by_name (typing ["no"; "1"; "0"]))
  = Some (Tui.Err (Tui.KeyError "[DONE]"))
  /\ "[DONE]" = "[DONE]" /\ ~ In "[DONE]" (dict_keys workspaces_by_name).
Proof.
  split; [reflexivity|].
  apply (@done_entry_does_not_end_selection AsciiRuntime.re_match AsciiRuntime.re_compiles
           AsciiRuntime.py_int AsciiRuntime.lower nat "Select all workspaces"
           "Select a workspace" workspaces_by_name (typing ["no"; "1"; "0"])
           (console_after
              (Tui.multi_select_from_dict AsciiRuntime.re_match AsciiRuntime.re_compiles AsciiRuntime.py_int
                 AsciiRuntime.lower "Select all workspaces" "Select a workspace"
                 workspaces_by_name (typing ["no"; "1"; "0"])))
           (Tui.Err (Tui.KeyError "[DONE]"))).
  - intros [H|[H|[]]]; discriminate.
  - intros answer k. unfold AsciiRuntime.py_int.
    destruct (negb (String.eqb answer "") && AsciiRuntime.all_digits answer);
      discriminate.
  - reflexivity.
Defined.

(* ===================================================================== *)
(** ** The interactive configuration *)

Section ConfigureFacts.
Variable re_match : string -> string -> bool.
Variable py_int : string -> Tui.outcome Z.
Variable casefold : string -> string.
Variable re_search_found : string -> string -> bool.
Variable re_compiles : string -> bool.
Variable strip : string -> string.

Lemma question_ok (text : string) (default : option string) (max_attempts : nat)
  (valid_number : bool) (valid_regex : option string)
  (validate : option (string -> bool)) (c c' : Tui.console) (res : string) :
  Tui.question re_match re_compiles text default max_attempts valid_number
               valid_regex validate c = (Tui.Ok res, c') ->
  res <> ""
  /\ (default = Some res
      \/ forall valid, validate = Some valid -> valid res = true).
Proof.
  destruct (question_unfold re_match re_compiles text default max_attempts
              valid_number valid_regex validate c) as [prompt ->].
  assert (Hloop : forall regex,
             Tui.question_loop re_match max_attempts max_attempts prompt default
                               regex validate c = (Tui.Ok res, c') ->
             res <> ""
             /\ (default = Some res
                 \/ forall valid, validate = Some valid -> valid res = true)).
  { intros regex Hrun.
    apply question_loop_spec in Hrun
      as (consumed & _ & _ & before & line & _
          & [(_ & Hne & Hvalid & _)|(_ & Hdefault & Hne)]); auto. }
  destruct (regex_in_effect valid_number valid_regex) as [pattern|];
    [|apply Hloop].
  destruct (re_compiles pattern); [apply Hloop | discriminate].
Qed.

Lemma ask_for_group_ok text default c c' res :
  ConfigureGroups._ask_for_group re_match re_search_found re_compiles text default c
  = (Tui.Ok res, c') ->
  res <> ""
  /\ (default = Some res
      \/ ConfigureGroups._is_valid_group_str re_search_found res = true).
Proof.
  unfold ConfigureGroups._ask_for_group. intros Hrun.
  apply question_ok in Hrun as [Hne [Hdefault|Hvalid]]; auto.
Qed.

Lemma ask_for_regex_ok text c c' res :
  ConfigureGroups._ask_for_regex re_match re_compiles text c = (Tui.Ok res, c') ->
  res <> "" /\ re_compiles res = true.
Proof.
  unfold ConfigureGroups._ask_for_regex. intros Hrun.
  apply question_ok in Hrun as [Hne [Hdefault|Hvalid]]; [discriminate|].
  split; [exact Hne|]. specialize (Hvalid _ eq_refl). simpl in Hvalid.
  unfold ConfigureGroups._validate_regex in Hvalid.
  now destruct (re_compiles res).
Qed.

(** What a configuring method that returns has done. *)
Lemma call_spec (m : ConfigureGroups.method) (self self' : ConfigureGroups.state)
  (c c' : Tui.console) (b : bool) :
  ConfigureGroups.call re_match re_search_found re_compiles strip m self c
  = (Tui.Ok (b, self'), c') ->
  b = true
  /\ match m with
     | ConfigureGroups._configure_prefix_method =>
         exists prefix,
           ConfigureGroups._is_valid_group_str re_search_found prefix = true
           /\ self' = ConfigureGroups.with_substitution self "^" prefix
     | ConfigureGroups._configure_suffix_method =>
         exists suffix,
           ConfigureGroups._is_valid_group_str re_search_found suffix = true
           /\ self' = ConfigureGroups.with_substitution self "$" suffix
     | ConfigureGroups._configure_substitution_method =>
         exists regex replace,
           regex <> "" /\ re_compiles regex = true
           /\ ConfigureGroups._is_valid_group_str re_search_found replace = true
           /\ self' = ConfigureGroups.with_substitution self regex replace
     | ConfigureGroups._configure_matching_method =>
         exists regex account_regex,
           regex <> "" /\ re_compiles regex = true
           /\ account_regex <> "" /\ re_compiles account_regex = true
           /\ self' = ConfigureGroups.with_matching self regex account_regex
     | ConfigureGroups._configure_external_method =>
         self' = ConfigureGroups.with_external_id self
     | ConfigureGroups._configure_names_method =>
         self' = self
         \/ exists typed,
              typed <> "" /\ typed <> "<ALL>"
              /\ self' = ConfigureGroups.with_names
                           self (map strip (ConfigureGroups.split_comma typed))
     end.
Proof.
  destruct m; simpl.
  - unfold ConfigureGroups._configure_prefix.
    destruct (ConfigureGroups._ask_for_group re_match re_search_found re_compiles _ None c)
      as [[prefix|e] c1] eqn:Hask; [|discriminate].
    apply ask_for_group_ok in Hask as [Hne [Hdefault|Hvalid]]; [discriminate|].
    apply String.eqb_neq in Hne. rewrite Hne. intros [= <- <- <-]. eauto.
  - unfold ConfigureGroups._configure_suffix.
    destruct (ConfigureGroups._ask_for_group re_match re_search_found re_compiles _ None c)
      as [[suffix|e] c1] eqn:Hask; [|discriminate].
    apply ask_for_group_ok in Hask as [Hne [Hdefault|Hvalid]]; [discriminate|].
    apply String.eqb_neq in Hne. rewrite Hne. intros [= <- <- <-]. eauto.
  - unfold ConfigureGroups._configure_names.
    destruct (Tui.question re_match re_compiles _ (Some "<ALL>") 10 false None None c)
      as [[typed|e] c1] eqn:Hask; [|discriminate].
    apply question_ok in Hask as [Hne _].
    destruct (String.eqb typed "<ALL>") eqn:Hall; simpl; intros [= <- <- <-].
    + auto.
    + apply String.eqb_neq in Hall. split; [reflexivity|]. right. eauto.
  - unfold ConfigureGroups._configure_external. intros [= <- <- <-]. auto.
  - unfold ConfigureGroups._configure_substitution.
    destruct (ConfigureGroups._ask_for_regex re_match re_compiles _ c)
      as [[regex|e] c1] eqn:Hregex; [|discriminate].
    apply ask_for_regex_ok in Hregex as [Hne Hcompiles].
    pose proof Hne as Hne'. apply String.eqb_neq in Hne'. rewrite Hne'.
    destruct (ConfigureGroups._ask_for_group re_match re_search_found re_compiles _ None c1)
      as [[replace|e] c2] eqn:Hask; [|discriminate].
    apply ask_for_group_ok in Hask as [Hre [Hdefault|Hvalid]]; [discriminate|].
    apply String.eqb_neq in Hre. rewrite Hre. intros [= <- <- <-].
    split; [reflexivity|]. exists regex, replace. auto.
  - unfold ConfigureGroups._configure_matching.
    destruct (ConfigureGroups._ask_for_regex re_match re_compiles _ c)
      as [[regex|e] c1] eqn:Hregex; [|discriminate].
    apply ask_for_regex_ok in Hregex as [Hne Hcompiles].
    pose proof Hne as Hne'. apply String.eqb_neq in Hne'. rewrite Hne'.
    destruct (ConfigureGroups._ask_for_regex re_match re_compiles _ c1)
      as [[account_regex|e] c2] eqn:Haccount; [|discriminate].
    apply ask_for_regex_ok in Haccount as [Hae Hac].
    pose proof Hae as Hae'. apply String.eqb_neq in Hae'. rewrite Hae'.
    intros [= <- <- <-].
    split; [reflexivity|]. exists regex, account_regex. auto.
Qed.

Ltac settle_validated :=
  split;
  [ simpl; auto
  | split;
    [ simpl; intros ? ?
    | split;
      [ simpl; intros ? ?
      | split; [ simpl; intros ? ? | simpl; intros ? ? ] ] ] ];
  try match goal with
      | Hset : Some _ = Some _ |- _ => injection Hset as <-
      end;
  eauto 6.

Lemma call_validated (m : ConfigureGroups.method)
  (self self' : ConfigureGroups.state) (c c' : Tui.console) (b : bool) :
  ConfigureGroups.validated re_search_found re_compiles strip self ->
  ConfigureGroups.call re_match re_search_found re_compiles strip m self c
  = (Tui.Ok (b, self'), c') ->
  ConfigureGroups.validated re_search_found re_compiles strip self'.
Proof.
  intros (Hprefix & Hreplace & Hregex & Haccount & Hnames) Hcall.
  apply call_spec in Hcall as [_ Heffect].
  destruct m.
  - destruct Heffect as (prefix & Hvalid & ->). settle_validated.
  - destruct Heffect as (suffix & Hvalid & ->). settle_validated.
  - destruct Heffect as [->|(typed & Hne & Hall & ->)]; settle_validated.
  - subst self'. settle_validated.
  - destruct Heffect as (regex & replace & Hne & Hcompiles & Hvalid & ->).
    settle_validated.
  - destruct Heffect as (regex & account_regex & Hne & Hc & Hae & Hac & ->).
    settle_validated.
Qed.

Lemma with_prefix_validated (self : ConfigureGroups.state) (prefix : string) :
  ConfigureGroups.validated re_search_found re_compiles strip self ->
  Some (ConfigureGroups.renamed_group_prefix self) = Some prefix
  \/ ConfigureGroups._is_valid_group_str re_search_found prefix = true ->
  ConfigureGroups.validated re_search_found re_compiles strip
                            (ConfigureGroups.with_prefix self prefix).
Proof.
  intros (Hprefix & Hrest) Hnew. split; [|exact Hrest]. simpl.
  destruct Hnew as [[= <-]|Hvalid]; auto.
Qed.

End ConfigureFacts.

(** X23. [ConfigureGroups.run] keeps the settings validated, whether it
    returns or raises: the backup prefix is the class default or a valid
    group string, a replacement is a valid group string, a workspace regex is
    one of the anchors or a pattern that compiles, an account regex compiles,
    and the names to include are the stripped parts of a typed answer other
    than the default.  A new object has validated settings. *)
Theorem run_keeps_the_settings_validated :
  forall (re_match : string -> string -> bool) (py_int : string -> Tui.outcome Z)
         (casefold : string -> string)
         (re_search_found : string -> string -> bool)
         (re_compiles : string -> bool) (strip : string -> string),
    ConfigureGroups.validated re_search_found re_compiles strip
                              ConfigureGroups.initial
    /\ forall (self self' : ConfigureGroups.state) (c c' : Tui.console)
              (r : Tui.outcome unit),
         ConfigureGroups.validated re_search_found re_compiles strip self ->
         ConfigureGroups.run re_match py_int casefold re_search_found re_compiles
                             strip self c = (r, self', c') ->
         ConfigureGroups.validated re_search_found re_compiles strip self'.
Proof.
  intros re_match py_int casefold re_search_found re_compiles strip. split.
  - unfold ConfigureGroups.validated; simpl. split; [now left|].
    repeat (split; [intros x Hx; discriminate|]). intros x Hx; discriminate.
  - intros self self' c c' r Hvalidated. unfold ConfigureGroups.run.
    destruct (ConfigureGroups._ask_for_group re_match re_search_found re_compiles
                "Backup prefix" (Some (ConfigureGroups.renamed_group_prefix self)) c)
      as [[prefix|e] c1] eqn:Hask; [|now intros [= <- <- <-]].
    apply ask_for_group_ok in Hask as [_ Hprefix].
    pose proof (with_prefix_validated Hvalidated Hprefix) as Hself1.
    destruct (Tui.choice_from_dict re_match re_compiles py_int casefold _
                ConfigureGroups.menu true c1) as [[m|e] c2];
      [|now intros [= <- <- <-]].
    destruct (ConfigureGroups.call re_match re_search_found re_compiles strip m
                (ConfigureGroups.with_prefix self prefix) c2)
      as [[[b self2]|e] c3] eqn:Hcall; intros [= <- <- <-]; [|exact Hself1].
    exact (call_validated _ _ _ Hself1 Hcall).
Qed.

Lemma run_keeps_the_settings_validated_example :
  ConfigureGroups.validated AsciiRuntime.re_search_found AsciiRuntime.re_compiles
    AsciiRuntime.strip
    (ConfigureGroups.with_names (ConfigureGroups.with_prefix ConfigureGroups.initial "bk-")
       ["data-eng"; "ops"]).
Proof.
  apply (proj2 (@run_keeps_the_settings_validated AsciiRuntime.re_match
                  AsciiRuntime.py_int AsciiRuntime.lower
                  AsciiRuntime.re_search_found AsciiRuntime.re_compiles
                  AsciiRuntime.strip)
           ConfigureGroups.initial _
           (typing ["bad prefix"; "bk-"; "2"; " data-eng, ops"])
           (snd (ConfigureGroups.run AsciiRuntime.re_match AsciiRuntime.py_int
                   AsciiRuntime.lower AsciiRuntime.re_search_found
                   AsciiRuntime.re_compiles AsciiRuntime.strip
                   ConfigureGroups.initial
                   (typing ["bad prefix"; "bk-"; "2"; " data-eng, ops"])))
           (Tui.Ok tt)).
  - unfold ConfigureGroups.validated; simpl. split; [now left|].
    repeat (split; [intros x Hx; discriminate|]). intros x Hx; discriminate.
  - reflexivity.
Defined.

(** X24. No configuring method returns [False]: [question] never returns an
    empty answer, so the method chosen returns [True] whenever it returns. *)
Theorem configuring_methods_return_true :
  forall (re_match : string -> string -> bool)
         (re_search_found : string -> string -> bool)
         (re_compiles : string -> bool) (strip : string -> string)
         (m : ConfigureGroups.method) (self self' : ConfigureGroups.state)
         (c c' : Tui.console) (b : bool),
    ConfigureGroups.call re_match re_search_found re_compiles strip m self c
    = (Tui.Ok (b, self'), c') ->
    b = true.
Proof.
  intros re_match re_search_found re_compiles strip m self self' c c' b Hcall.
  now apply call_spec in Hcall as [Hb _].
Qed.

Lemma configuring_methods_example :
  fst (ConfigureGroups.call AsciiRuntime.re_match AsciiRuntime.re_search_found
         AsciiRuntime.re_compiles AsciiRuntime.strip
         ConfigureGroups._configure_substitution_method ConfigureGroups.initial
         (typing [""; "(eng"; "eng"; ""; "a b"; "corp"]))
  = Tui.Ok (true, ConfigureGroups.with_substitution ConfigureGroups.initial
                    "eng" "corp")
  /\ true = true.
Proof.
  split; [reflexivity|].
  apply (@configuring_methods_return_true AsciiRuntime.re_match
           AsciiRuntime.re_search_found AsciiRuntime.re_compiles AsciiRuntime.strip
           ConfigureGroups._configure_substitution_method ConfigureGroups.initial
           (ConfigureGroups.with_substitution ConfigureGroups.initial "eng" "corp")
           (typing [""; "(eng"; "eng"; ""; "a b"; "corp"])
           (snd (ConfigureGroups.call AsciiRuntime.re_match
                   AsciiRuntime.re_search_found AsciiRuntime.re_compiles
                   AsciiRuntime.strip
                   ConfigureGroups._configure_substitution_method
                   ConfigureGroups.initial
                   (typing [""; "(eng"; "eng"; ""; "a b"; "corp"])))
           true eq_refl).
Defined.

Section StrategyOfTheMenu.
Variable re_search_found : string -> string -> bool.

Lemma valid_group_str_truthy (group_str : string) :
  ConfigureGroups._is_valid_group_str re_search_found group_str = true ->
  Crawler.truthy (Some group_str) = true.
Proof.
  unfold ConfigureGroups._is_valid_group_str. simpl.
  now intros [Hne _]%andb_true_iff.
Qed.

Lemma not_empty_truthy (s : string) : s <> "" -> Crawler.truthy (Some s) = true.
Proof. intros Hne. simpl. apply String.eqb_neq in Hne. now rewrite Hne. Qed.

End StrategyOfTheMenu.

(** X25. On a new [ConfigureGroups] object, the method chosen in the menu of
    [run] determines the strategy: a group manager whose regex attributes
    are the ones collected, and whose [external_id_match] is the truth value
    of [group_match_by_external_id], selects in [_get_strategy] the strategy
    of the chosen method, with the anchor of the prefix or suffix method as
    regex, regexes that compile and a replacement that is a valid group
    string. *)
Theorem menu_choice_selects_the_strategy :
  forall (re_match : string -> string -> bool) (py_int : string -> Tui.outcome Z)
         (casefold : string -> string)
         (re_search_found : string -> string -> bool)
         (re_compiles : string -> bool) (strip : string -> string)
         (c c' : Tui.console) (collected : ConfigureGroups.state)
         (manager : Crawler.config),
    ConfigureGroups.run re_match py_int casefold re_search_found re_compiles strip
                        ConfigureGroups.initial c = (Tui.Ok tt, collected, c') ->
    Crawler._workspace_group_regex manager
    = ConfigureGroups.workspace_group_regex collected ->
    Crawler._workspace_group_replace manager
    = ConfigureGroups.workspace_group_replace collected ->
    Crawler._account_group_regex manager
    = ConfigureGroups.account_group_regex collected ->
    Crawler._external_id_match manager
    = match ConfigureGroups.group_match_by_external_id collected with
      | Some b => b
      | None => false
      end ->
    exists prefix c1 m c2,
      ConfigureGroups._ask_for_group re_match re_search_found re_compiles "Backup prefix"
                                     (Some "db-temp-") c = (Tui.Ok prefix, c1)
      /\ Tui.choice_from_dict re_match re_compiles py_int casefold
           "Choose how to map the workspace groups:" ConfigureGroups.menu true c1
         = (Tui.Ok m, c2)
      /\ ConfigureGroups.selects re_search_found re_compiles m
                                 (Crawler._get_strategy manager).
Proof.
  intros re_match py_int casefold re_search_found re_compiles strip c c'
         collected manager.
  unfold ConfigureGroups.run. simpl ConfigureGroups.renamed_group_prefix.
  destruct (ConfigureGroups._ask_for_group re_match re_search_found re_compiles
              "Backup prefix" (Some "db-temp-") c)
    as [[prefix|e] c1] eqn:Hask; [|discriminate].
  destruct (Tui.choice_from_dict re_match re_compiles py_int casefold _
              ConfigureGroups.menu true c1) as [[m|e] c2] eqn:Hchoice;
    [|discriminate].
  destruct (ConfigureGroups.call re_match re_search_found re_compiles strip m
              (ConfigureGroups.with_prefix ConfigureGroups.initial prefix) c2)
    as [[[b self2]|e] c3] eqn:Hcall; [|discriminate].
  intros [= <- <-] Hregex Hreplace Haccount Hexternal.
  exists prefix, c1, m, c2. split; [reflexivity|]. split; [exact Hchoice|].
  apply call_spec in Hcall as [_ Heffect].
  unfold Crawler._get_strategy. rewrite Hregex, Hreplace, Haccount, Hexternal.
  destruct m.
  - destruct Heffect as (p & Hvalid & ->).
    cbn [ConfigureGroups.with_substitution ConfigureGroups.workspace_group_regex
         ConfigureGroups.workspace_group_replace].
    rewrite (valid_group_str_truthy _ _ Hvalid). simpl. auto.
  - destruct Heffect as (p & Hvalid & ->).
    cbn [ConfigureGroups.with_substitution ConfigureGroups.workspace_group_regex
         ConfigureGroups.workspace_group_replace].
    rewrite (valid_group_str_truthy _ _ Hvalid). simpl. auto.
  - destruct Heffect as [->|(typed & _ & _ & ->)]; simpl; exact I.
  - subst self2. simpl. exact I.
  - destruct Heffect as (regex & replace & Hne & Hcompiles & Hvalid & ->).
    cbn [ConfigureGroups.with_substitution ConfigureGroups.workspace_group_regex
         ConfigureGroups.workspace_group_replace].
    rewrite (valid_group_str_truthy _ _ Hvalid), (not_empty_truthy Hne).
    simpl. auto.
  - destruct Heffect as (regex & account_regex & Hne & Hc & Hae & Hac & ->).
    cbn [ConfigureGroups.with_matching ConfigureGroups.with_prefix
         ConfigureGroups.initial ConfigureGroups.workspace_group_regex
         ConfigureGroups.workspace_group_replace
         ConfigureGroups.account_group_regex].
    rewrite (not_empty_truthy Hne), (not_empty_truthy Hae).
    simpl. auto.
Qed.

Lemma menu_choice_example :
  exists prefix c1 m c2,
    ConfigureGroups._ask_for_group AsciiRuntime.re_match
      AsciiRuntime.re_search_found AsciiRuntime.re_compiles "Backup prefix" (Some "db-temp-")
      (typing [""; "0"; "corp-"]) = (Tui.Ok prefix, c1)
    /\ Tui.choice_from_dict AsciiRuntime.re_match AsciiRuntime.re_compiles AsciiRuntime.py_int
         AsciiRuntime.lower "Choose how to map the workspace groups:"
         ConfigureGroups.menu true c1 = (Tui.Ok m, c2)
    /\ ConfigureGroups.selects AsciiRuntime.re_search_found
         AsciiRuntime.re_compiles m (Crawler._get_strategy corp_prefix_config).
Proof.
  apply (@menu_choice_selects_the_strategy AsciiRuntime.re_match
           AsciiRuntime.py_int AsciiRuntime.lower AsciiRuntime.re_search_found
           AsciiRuntime.re_compiles AsciiRuntime.strip
           (typing [""; "0"; "corp-"])
           (snd (ConfigureGroups.run AsciiRuntime.re_match AsciiRuntime.py_int
                   AsciiRuntime.lower AsciiRuntime.re_search_found
                   AsciiRuntime.re_compiles AsciiRuntime.strip
                   ConfigureGroups.initial (typing [""; "0"; "corp-"])))
           (ConfigureGroups.with_substitution ConfigureGroups.initial "^" "corp-")
           corp_prefix_config); reflexivity.
Defined.
